(** * Smart Energy ROI: the financial engine of the solar-investment simulator

    A shallow embedding of the three variants of the engine found in the
    repository:

    - [V1]: [src/SmartEnergyROIApp.jsx] ([computeScenarioModel], bracket
      [-0.95, 3.0], tolerance 1e-7, 90 bisection steps);
    - [V2]: the variant with the stable pseudo-random tariff noise
      ([computeScenario] with [stableNoise01], bracket [-0.99, 5.0],
      tolerance 1e-4, 140 steps);
    - [V3]: the variant drawing the noise from [Math.random]
      (same bracket and tolerance, 120 steps).

    JavaScript numbers are IEEE-754 binary64 values, modelled by Rocq's
    primitive [float]; loop counters and array indices are integers.  The
    library functions of the JavaScript runtime that are not arithmetic
    ([Math.pow], [Math.sin], string/number conversions) are the fields of
    the class [JSRuntime]: every theorem holds for every runtime. *)

From Stdlib Require Import Floats ZArith List String Ascii Bool Lia.
From Stdlib Require Import DecimalString.
Import ListNotations.

Set Warnings "-inexact-float".

Local Open Scope string_scope.
Local Open Scope list_scope.
Local Open Scope float_scope.

(** ** JavaScript numbers *)

Module JS.

(** [Number.isFinite] *)
Definition Number_isFinite (v : float) : bool := is_finite v.

(** [Math.max(a, b)]: NaN if either argument is, and [+0] above [-0]. *)
Definition Math_max (a b : float) : float :=
  if is_nan a || is_nan b then nan
  else if a <? b then b
  else if b <? a then a
  else if get_sign a then b else a.

(** [Math.min(a, b)]: NaN if either argument is, and [-0] below [+0]. *)
Definition Math_min (a b : float) : float :=
  if is_nan a || is_nan b then nan
  else if a <? b then a
  else if b <? a then b
  else if get_sign a then a else b.

Definition Math_max3 (a b c : float) : float := Math_max (Math_max a b) c.
Definition Math_min3 (a b c : float) : float := Math_min (Math_min a b) c.

Definition Math_abs (v : float) : float := abs v.

(** An integer as a JavaScript number (exact below 2^53). *)
Definition Z2F (z : Z) : float :=
  match z with
  | Z0 => PrimFloat.zero
  | Zpos _ => of_uint63 (Uint63.of_Z z)
  | Zneg p => - of_uint63 (Uint63.of_Z (Zpos p))
  end.

(** The integer part (floor) of a finite number; 0 for NaN and infinities. *)
Definition F2Z (v : float) : Z :=
  match Prim2SF v with
  | S754_finite s m e =>
      if (0 <=? e)%Z then cond_Zopp s (Zpos m * 2 ^ e)
      else (cond_Zopp s (Zpos m) / 2 ^ (- e))%Z
  | _ => 0%Z
  end.

(** [Math.round]: the nearest integer, ties towards [+Infinity]; a zero
    result keeps the sign of the argument. *)
Definition Math_round (v : float) : float :=
  match Prim2SF v with
  | S754_finite s m e =>
      if (0 <=? e)%Z then v
      else
        match ((cond_Zopp s (2 * Zpos m) + 2 ^ (- e)) / 2 ^ (1 - e))%Z with
        | Z0 => if s then neg_zero else PrimFloat.zero
        | z => Z2F z
        end
  | _ => v
  end.

(** The number of iterations of [for (let y = start; y <= bound; y++)]
    for an integer [start]. *)
Definition loop_count (start : Z) (bound : float) : nat :=
  if Z2F start <=? bound then Z.to_nat (F2Z bound - start + 1) else 0%nat.

(** JavaScript truthiness of a number (for [x || y]). *)
Definition truthy (v : float) : bool := negb (is_nan v || is_zero v).

(** A value held by a form field: a number or a text. *)
Inductive value :=
| JNum (v : float)
| JStr (s : string).

(** Outcome of code that may throw. *)
Inductive outcome (A : Type) :=
| Return (a : A)
| Throw (error : string).
Arguments Return {A} a.
Arguments Throw {A} error.

Definition bind {A B : Type} (c : outcome A) (k : A -> outcome B) : outcome B :=
  match c with
  | Return a => k a
  | Throw e => Throw e
  end.

(** [array[i] = v] for an index inside the array.  (Outside it JavaScript
    extends the array; the loops of the programs stop at the last index of
    the arrays they fill, so no write here is outside.) *)
Fixpoint array_set {A : Type} (l : list A) (i : nat) (v : A) : list A :=
  match l, i with
  | [], _ => []
  | _ :: rest, O => v :: rest
  | x :: rest, S i' => x :: array_set rest i' v
  end.

(** [String(k)] for a natural number. *)
Definition nat_toString (k : nat) : string :=
  NilEmpty.string_of_uint (Nat.to_uint k).

(** [new Array(len)] throws a [RangeError] unless [len] is an integer in
    [0, 2^32 - 1]; the result is the array length as a [nat]. *)
Definition new_Array (len : float) : outcome nat :=
  if is_finite len && (0 <=? len) && (len <=? 4294967295) && (Z2F (F2Z len) =? len)
  then Return (Z.to_nat (F2Z len))
  else Throw "RangeError: Invalid array length".

End JS.
Export JS.

(** ** The runtime library *)

Class JSRuntime := {
  (** [Math.pow(base, exponent)] *)
  Math_pow : float -> float -> float;
  (** [Math.sin(x)] *)
  Math_sin : float -> float;
  (** [Number(text)]: the numeric value of a string, NaN if it has none *)
  Number_parse : string -> float;
  (** [String(number)], as in a template literal *)
  Number_toString : float -> string
}.

(** [Math.PI] *)
Definition Math_PI : float := 3.141592653589793.

(** ** Variant 1: [src/SmartEnergyROIApp.jsx] *)

Module V1.

(** The scenario record held by the form, a ledger row and the result. *)

Module Scenario.
Record t := {
  name : string;
  vida : value;
  tarifaBase : value;
  potencia : value;
  psh : value;
  pr : value;
  degrad : value;
  autoconsumo : value;
  capex : value;
  om : value;
  escTarifa : value;
  tasaDesc : value;
  tariffMode : string;
  tarifaLista : string;
  volatilidad : value;
  ciclo : value;
  incentivoId : string;
  ivaRate : value;
  arancelRate : value;
  ingresoGravableAnual : value;
  tasaImpuestoRenta : value;
  anosDeduccionRenta : value
}.
End Scenario.

Module Row.
Record t := {
  year : Z;
  tarifa : float;
  energia : float;
  ahorro : float;
  om : float;
  incentivoRenta : float;
  neto : float;
  acumulado : float
}.
End Row.

Module Model.
Record t := {
  vida : float;
  rows : list Row.t;
  vpn : float;
  tir : option float;
  payback : option nat;
  roi1 : option float;
  conclusions : list string;
  capexNeto : float
}.
End Model.

Section WithRuntime.
Context {rt : JSRuntime}.

(** [String(x).replace(",", ".")]: only the first comma is replaced. *)
Fixpoint replace_comma (s : string) : string :=
  match s with
  | EmptyString => EmptyString
  | String c rest =>
      if Ascii.eqb c ","%char then String "."%char rest
      else String c (replace_comma rest)
  end.

(** [n(x, fallback)].  For a number [x], [String(x)] has no comma and
    [Number(String(x))] is [x] again, except that [-0] prints as ["0"]. *)
Definition n (x : value) (fallback : float) : float :=
  let v := match x with
           | JNum v => if is_zero v then PrimFloat.zero else v
           | JStr s => Number_parse (replace_comma s)
           end in
  if Number_isFinite v then v else fallback.

Definition int (x : value) (fallback : float) : float :=
  let v := Math_round (n x fallback) in
  if Number_isFinite v then v else fallback.

Definition clamp (v min max : float) : float := Math_min max (Math_max min v).

(** *** Finance *)

Fixpoint npv_from (rate : float) (t : nat) (acc : float) (cashflows : list float) : float :=
  match cashflows with
  | [] => acc
  | cf :: rest =>
      npv_from rate (S t) (acc + cf / Math_pow (1 + rate) (Z2F (Z.of_nat t))) rest
  end.

(** [cashflows.reduce((acc, cf, t) => acc + cf / Math.pow(1 + rate, t), 0)] *)
Definition npv (rate : float) (cashflows : list float) : float :=
  npv_from rate 0 0 cashflows.

Definition irr_low : float := -0.95.
Definition irr_high : float := 3.0.
Definition irr_tol : float := 1e-7.
Definition irr_steps : nat := 90.

(** The body of the bisection loop, [i] iterations left. *)
Fixpoint irr_loop (f : float -> float) (fLow : float) (i : nat) (low high : float)
  : option float :=
  match i with
  | O => Some ((low + high) / 2)
  | S i' =>
      let mid := (low + high) / 2 in
      let fMid := f mid in
      if negb (Number_isFinite fMid) then None
      else if Math_abs fMid <? irr_tol then Some mid
      else if fLow * fMid <=? 0 then irr_loop f fLow i' low mid
      else irr_loop f fLow i' mid high
  end.

Definition irr (cashflows : list float) : option float :=
  let f := fun r => npv r cashflows in
  let fLow := f irr_low in
  let fHigh := f irr_high in
  if negb (Number_isFinite fLow) || negb (Number_isFinite fHigh) then None
  else if 0 <? fLow * fHigh then None
  else irr_loop f fLow irr_steps irr_low irr_high.

Fixpoint paybackYear_from (t : nat) (cum : float) (cashflows : list float) : option nat :=
  match cashflows with
  | [] => None
  | cf :: rest =>
      let cum := cum + cf in
      if 0 <=? cum then Some t else paybackYear_from (S t) cum rest
  end.

Definition paybackYear (cashflows : list float) : option nat :=
  paybackYear_from 0 0 cashflows.

(** *** Incentives *)

Record Incentivo := {
  id : string;
  nombre : string;
  aplicaIVA : bool;
  aplicaArancel : bool;
  aplicaDeduccionRenta : bool
}.

Definition incentivo_none : Incentivo :=
  {| id := "none"; nombre := "Ninguno";
     aplicaIVA := false; aplicaArancel := false; aplicaDeduccionRenta := false |}.

Definition INCENTIVOS_CO : list Incentivo :=
  [ incentivo_none;
    {| id := "co_full";
       nombre := "Colombia – Paquete completo (IVA + Arancel + Deducción renta)";
       aplicaIVA := true; aplicaArancel := true; aplicaDeduccionRenta := true |};
    {| id := "co_iva"; nombre := "Colombia – Exclusión de IVA";
       aplicaIVA := true; aplicaArancel := false; aplicaDeduccionRenta := false |};
    {| id := "co_arancel"; nombre := "Colombia – Exención de arancel";
       aplicaIVA := false; aplicaArancel := true; aplicaDeduccionRenta := false |};
    {| id := "co_renta";
       nombre := "Colombia – Deducción en renta (hasta 50% inversión, hasta 15 años)";
       aplicaIVA := false; aplicaArancel := false; aplicaDeduccionRenta := true |};
    {| id := "co_iva_renta"; nombre := "Colombia – IVA + Deducción renta";
       aplicaIVA := true; aplicaArancel := false; aplicaDeduccionRenta := true |} ].

(** [INCENTIVOS_CO.find((x) => x.id === incentivoId) || INCENTIVOS_CO[0]] *)
Definition find_incentivo (incentivoId : string) : Incentivo :=
  match find (fun x => String.eqb (id x) incentivoId) INCENTIVOS_CO with
  | Some inc => inc
  | None => incentivo_none
  end.

Definition calcularCapexNeto (capex ivaRate arancelRate : float)
    (aplicaIVA aplicaArancel : bool) : float :=
  let neto := Math_max 0 (n (JNum capex) 0) in
  let neto := if aplicaIVA then neto / (1 + clamp (n (JNum ivaRate) 0.19) 0 1) else neto in
  let neto := if aplicaArancel then neto / (1 + clamp (n (JNum arancelRate) 0.05) 0 1) else neto in
  neto.

(** The loop of [beneficioDeduccionRentaPorAno], [count] iterations left,
    about to run year [y]. *)
Fixpoint renta_loop (cuota topeAnual tasa anos : float) (count : nat) (y : Z)
    (restante : float) (out : list float) : list float :=
  match count with
  | O => out
  | S count' =>
      if (anos <? Z2F y) || (restante <=? 0) then out
      else
        let ded := Math_min3 cuota restante topeAnual in
        renta_loop cuota topeAnual tasa anos count' (y + 1) (restante - ded)
          (array_set out (Z.to_nat (y - 1)) (ded * tasa))
  end.

Definition beneficioDeduccionRentaPorAno (capexNeto vida : float) (aplica : bool)
    (anosAplicacion ingresoGravableAnual tasaImpuestoRenta : value)
  : outcome (list float) :=
  let vidaN := clamp (int (JNum vida) 25) 1 30 in
  if negb aplica then bind (new_Array vidaN) (fun len => Return (repeat 0 len))
  else
    let anos := clamp (int anosAplicacion 5) 1 15 in
    let capex := Math_max 0 (n (JNum capexNeto) 0) in
    let ingreso := Math_max 0 (n ingresoGravableAnual 0) in
    let tasa := clamp (n tasaImpuestoRenta 0.35) 0 1 in
    let totalDeducible := 0.5 * capex in
    let cuota := totalDeducible / anos in
    bind (new_Array vidaN) (fun len =>
      Return (renta_loop cuota (0.5 * ingreso) tasa anos
                (loop_count 1 vidaN) 1 totalDeducible (repeat 0 len))).

(** *** Variable tariff *)

Definition is_separator (c : ascii) : bool :=
  Ascii.eqb c "010"%char || Ascii.eqb c ","%char || Ascii.eqb c ";"%char.

(** White space of one byte: TAB, LF, VT, FF, CR and the space. *)
Definition is_space (c : ascii) : bool :=
  let k := nat_of_ascii c in
  ((9 <=? k) && (k <=? 13))%nat || (k =? 32)%nat.

(** The text after the white-space character that [s] starts with, if it
    starts with one.  Texts are held in UTF-8: besides the characters of one
    byte, [String.prototype.trim] removes U+00A0 (bytes C2 A0), U+1680
    (E1 9A 80), U+2000 to U+200A (E2 80 80 to E2 80 8A), U+2028, U+2029 and
    U+202F (E2 80 A8, A9, AF), U+205F (E2 81 9F), U+3000 (E3 80 80) and
    U+FEFF (EF BB BF). *)
Definition skip_space (s : string) : option string :=
  match s with
  | EmptyString => None
  | String c rest =>
      if is_space c then Some rest
      else
        let k := nat_of_ascii c in
        match rest with
        | String d rest1 =>
            let d := nat_of_ascii d in
            if ((k =? 194) && (d =? 160))%nat then Some rest1
            else
              match rest1 with
              | String e rest2 =>
                  let e := nat_of_ascii e in
                  if (((k =? 225) && (d =? 154) && (e =? 128))
                      || ((k =? 226) && (d =? 128)
                          && (((128 <=? e) && (e <=? 138))
                              || (e =? 168) || (e =? 169) || (e =? 175)))
                      || ((k =? 226) && (d =? 129) && (e =? 159))
                      || ((k =? 227) && (d =? 128) && (e =? 128))
                      || ((k =? 239) && (d =? 187) && (e =? 191)))%nat
                  then Some rest2 else None
              | EmptyString => None
              end
        | EmptyString => None
        end
  end.

(** The text without its leading white space; every character removed takes
    at least one byte, so [fuel] is the length of the text. *)
Fixpoint trim_start_from (fuel : nat) (s : string) : string :=
  match fuel with
  | O => s
  | S fuel' =>
      match skip_space s with
      | Some rest => trim_start_from fuel' rest
      | None => s
      end
  end.

Definition trim_start (s : string) : string := trim_start_from (String.length s) s.

(** Whether the text is white space only. *)
Fixpoint all_space_from (fuel : nat) (s : string) : bool :=
  match s, fuel with
  | EmptyString, _ => true
  | _, O => false
  | _, S fuel' =>
      match skip_space s with
      | Some rest => all_space_from fuel' rest
      | None => false
      end
  end.

(** The text up to its trailing white space. *)
Fixpoint trim_end (s : string) : string :=
  match s with
  | EmptyString => EmptyString
  | String c rest =>
      if all_space_from (String.length s) s then EmptyString
      else String c (trim_end rest)
  end.

Definition trim (s : string) : string := trim_end (trim_start s).

(** The pieces of [text] between separators; runs of separators, which the
    source's pattern takes as one, leave empty pieces that the caller drops. *)
Fixpoint split (text : string) : list string :=
  match text with
  | EmptyString => [EmptyString]
  | String c rest =>
      if is_separator c then EmptyString :: split rest
      else match split rest with
           | piece :: pieces => String c piece :: pieces
           | [] => [String c EmptyString]
           end
  end.

Definition nonempty (s : string) : bool :=
  match s with EmptyString => false | _ => true end.

Definition parseTariffList (text : string) : list float :=
  let raw := filter nonempty (map trim (split text)) in
  filter Number_isFinite (map (fun s => n (JStr s) 0) raw).

Definition tariffForYear (mode : string) (baseTariff escTarifa : float)
    (manualList : list float) (volatility cycleYears : float) (year : Z) : float :=
  if (year <=? 0)%Z then baseTariff
  else if String.eqb mode "manual" then
    if (year <=? Z.of_nat (List.length manualList))%Z
    then nth (Z.to_nat (year - 1)) manualList nan
    else
      let last := match manualList with
                  | [] => baseTariff
                  | _ => List.last manualList baseTariff
                  end in
      let extraYears := (year - Z.of_nat (List.length manualList))%Z in
      last * Math_pow (1 + escTarifa) (Z2F extraYears)
  else if String.eqb mode "ciclico" then
    let cyc := clamp cycleYears 2 10 in
    let vol := clamp volatility 0 0.5 in
    let base := baseTariff * Math_pow (1 + escTarifa) (Z2F (year - 1)) in
    let mult := 1 + vol * Math_sin ((2 * Math_PI * Z2F (year - 1)) / cyc) in
    base * mult
  else baseTariff * Math_pow (1 + escTarifa) (Z2F (year - 1)).

(** *** Model per scenario *)
(** The sanitised inputs of the yearly loop. *)
Record Inputs := {
  in_potencia : float;
  in_psh : float;
  in_pr : float;
  in_degrad : float;
  in_autoconsumo : float;
  in_om : float;
  in_tarifaBase : float;
  in_escTarifa : float;
  in_tariffMode : string;
  in_list : list float;
  in_vol : float;
  in_cyc : float;
  in_capexNeto : float;
  in_beneficiosRenta : list float
}.

(** [beneficiosRenta[y - 1] || 0] *)
Definition benefit_or_0 (beneficiosRenta : list float) (y : Z) : float :=
  match nth_error beneficiosRenta (Z.to_nat (y - 1)) with
  | Some b => if truthy b then b else 0
  | None => 0
  end.

(** One pass through the body of [for (let y = 0; y <= vida; y++)]:
    the row pushed for year [y], given the running total [cum]. *)
Definition row_for (i : Inputs) (y : Z) (cum : float) : Row.t :=
  if (y =? 0)%Z then
    let neto0 := - in_capexNeto i in
    {| Row.year := 0; Row.tarifa := 0; Row.energia := 0; Row.ahorro := 0; Row.om := 0;
       Row.incentivoRenta := 0; Row.neto := neto0; Row.acumulado := cum + neto0 |}
  else
    let energia := in_potencia i * in_psh i * 365 * in_pr i
                   * Math_pow (1 - in_degrad i) (Z2F (y - 1)) in
    let tarifaY := tariffForYear (in_tariffMode i) (in_tarifaBase i) (in_escTarifa i)
                     (in_list i) (in_vol i) (in_cyc i) y in
    let ahorro := energia * tarifaY * in_autoconsumo i in
    let omY := in_om i * Math_pow (1 + Math_max 0 (in_escTarifa i)) (Z2F (y - 1)) in
    let incentivoRenta := benefit_or_0 (in_beneficiosRenta i) y in
    let neto := ahorro - omY + incentivoRenta in
    {| Row.year := y; Row.tarifa := tarifaY; Row.energia := energia; Row.ahorro := ahorro;
       Row.om := omY; Row.incentivoRenta := incentivoRenta; Row.neto := neto;
       Row.acumulado := cum + neto |}.

Fixpoint rows_loop (i : Inputs) (count : nat) (y : Z) (cum : float) : list Row.t :=
  match count with
  | O => []
  | S count' =>
      let row := row_for i y cum in
      row :: rows_loop i count' (y + 1) (Row.acumulado row)
  end.

Definition conclusions_for (inc : Incentivo) (tariffMode : string) (vpn tasaDesc : float)
    (tir : option float) (payback : option nat) : list string :=
  let parts :=
    (if aplicaIVA inc then ["exclusión de IVA (CAPEX neto menor)"] else [])
    ++ (if aplicaArancel inc then ["exención de arancel (CAPEX neto menor)"] else [])
    ++ (if aplicaDeduccionRenta inc
        then ["deducción en renta (beneficio anual simulado)"] else []) in
  (if String.eqb (id inc) "none"
   then ["Incentivos tributarios: ninguno (simulación)."]
   else
     [ String.append "Incentivos tributarios: "
         (String.append (String.concat " + " parts) ".");
       "Nota: simulación simplificada; la elegibilidad real depende de requisitos y soportes." ])
  ++ (if String.eqb tariffMode "manual"
      then ["Precio de energía: variable por lista manual (año a año)."] else [])
  ++ (if String.eqb tariffMode "ciclico"
      then ["Precio de energía: variable (cíclico/mercado)."] else [])
  ++ (if String.eqb tariffMode "escalado"
      then ["Precio de energía: escalamiento fijo anual."] else [])
  ++ [ if 0 <? vpn then "Rentabilidad: VPN positivo (viable)."
       else "Rentabilidad: VPN negativo (ajusta supuestos)." ]
  ++ [ match tir with
       | Some r => if tasaDesc <? r then "La TIR supera la tasa de descuento: atractivo."
                   else "La TIR no supera la tasa de descuento: revisar."
       | None => "TIR no calculable (no converge o flujo no cambia de signo)."
       end ]
  ++ [ match payback with
       | Some t => String.append "Payback estimado: año " (String.append (nat_toString t) ".")
       | None => "No se recupera dentro del horizonte."
       end ].

Definition computeScenarioModel (s : Scenario.t) : outcome Model.t :=
  let vida := clamp (int (Scenario.vida s) 25) 1 30 in
  let potencia := Math_max 0 (n (Scenario.potencia s) 0) in
  let psh := clamp (n (Scenario.psh s) 4.5) 0 8 in
  let pr := clamp (n (Scenario.pr s) 0.8) 0 1 in
  let degrad := clamp (n (Scenario.degrad s) 0.006) 0 0.05 in
  let autoconsumo := clamp (n (Scenario.autoconsumo s) 1) 0 1 in
  let capexBruto := Math_max 0 (n (Scenario.capex s) 0) in
  let om := Math_max 0 (n (Scenario.om s) 0) in
  let tasaDesc := clamp (n (Scenario.tasaDesc s) 0.12) 0.000001 0.8 in
  let tarifaBase := Math_max 0 (n (Scenario.tarifaBase s) 0) in
  let escTarifa := clamp (n (Scenario.escTarifa s) 0.04) (-0.2) 0.8 in
  let tariffMode := if nonempty (Scenario.tariffMode s) then Scenario.tariffMode s
                    else "escalado"%string in
  let list := map (fun v => Math_max 0 v) (parseTariffList (Scenario.tarifaLista s)) in
  let vol := clamp (n (Scenario.volatilidad s) 0.1) 0 0.5 in
  let cyc := clamp (int (Scenario.ciclo s) 4) 2 10 in
  let inc := find_incentivo (Scenario.incentivoId s) in
  let ivaRate := clamp (n (Scenario.ivaRate s) 0.19) 0 1 in
  let arancelRate := clamp (n (Scenario.arancelRate s) 0.05) 0 1 in
  let capexNeto := calcularCapexNeto capexBruto ivaRate arancelRate
                     (aplicaIVA inc) (aplicaArancel inc) in
  bind (beneficioDeduccionRentaPorAno capexNeto vida (aplicaDeduccionRenta inc)
          (Scenario.anosDeduccionRenta s) (Scenario.ingresoGravableAnual s)
          (Scenario.tasaImpuestoRenta s))
    (fun beneficiosRenta =>
       let i := {| in_potencia := potencia; in_psh := psh; in_pr := pr;
                   in_degrad := degrad; in_autoconsumo := autoconsumo; in_om := om;
                   in_tarifaBase := tarifaBase; in_escTarifa := escTarifa;
                   in_tariffMode := tariffMode; in_list := list; in_vol := vol;
                   in_cyc := cyc; in_capexNeto := capexNeto;
                   in_beneficiosRenta := beneficiosRenta |} in
       let rows := rows_loop i (loop_count 0 vida) 0 0 in
       let cashflows := map Row.neto rows in
       let vpn := npv tasaDesc cashflows in
       let tir := irr cashflows in
       let payback := paybackYear cashflows in
       let roi1 := match nth_error rows 1 with
                   | Some row1 => if 0 <? capexNeto then Some (Row.neto row1 / capexNeto)
                                  else None
                   | None => None
                   end in
       Return {| Model.vida := vida; Model.rows := rows; Model.vpn := vpn;
                 Model.tir := tir; Model.payback := payback; Model.roi1 := roi1;
                 Model.conclusions :=
                   conclusions_for inc tariffMode vpn tasaDesc tir payback;
                 Model.capexNeto := capexNeto |}).

(** *** The comparison series of the three scenarios *)

Record ChartPoint := {
  chart_year : nat;
  chart_A : float;
  chart_B : float;
  chart_C : float
}.

(** [m.rows[y] || m.rows[m.rows.length - 1]]; [None] stands for [undefined]. *)
Definition row_or_last (m : Model.t) (y : nat) : option Row.t :=
  match nth_error (Model.rows m) y with
  | Some row => Some row
  | None => nth_error (Model.rows m) (List.length (Model.rows m) - 1)
  end.

Definition chart_point (mA mB mC : Model.t) (y : nat) : outcome ChartPoint :=
  match row_or_last mA y, row_or_last mB y, row_or_last mC y with
  | Some rowA, Some rowB, Some rowC =>
      Return {| chart_year := y;
                chart_A := Math_round (Row.acumulado rowA);
                chart_B := Math_round (Row.acumulado rowB);
                chart_C := Math_round (Row.acumulado rowC) |}
  | _, _, _ => Throw "TypeError: Cannot read properties of undefined"
  end.

Fixpoint chart_from (mA mB mC : Model.t) (count y : nat) : outcome (list ChartPoint) :=
  match count with
  | O => Return []
  | S count' =>
      bind (chart_point mA mB mC y) (fun point =>
      bind (chart_from mA mB mC count' (S y)) (fun points =>
      Return (point :: points)))
  end.

(** [Array.from({ length: Math.max(mA.vida, mB.vida, mC.vida) + 1 }, ...)] *)
Definition chart (mA mB mC : Model.t) : outcome (list ChartPoint) :=
  let len := Math_max3 (Model.vida mA) (Model.vida mB) (Model.vida mC) + 1 in
  chart_from mA mB mC (Z.to_nat (F2Z len)) 0.

(** [models]: the three scenarios and their chart. *)
Definition models (sA sB sC : Scenario.t)
  : outcome (Model.t * Model.t * Model.t * list ChartPoint) :=
  bind (computeScenarioModel sA) (fun mA =>
  bind (computeScenarioModel sB) (fun mB =>
  bind (computeScenarioModel sC) (fun mC =>
  bind (chart mA mB mC) (fun points =>
  Return (mA, mB, mC, points))))).

End WithRuntime.
End V1.

(** ** Variant 2: stable tariff noise ([stableNoise01]) *)

Module V2.

Record Scenario := {
  name : string;
  colorKey : string;
  kW : float;
  lifeYears : float;
  tariff : float;
  tariffEscalation : float;
  tariffVolatility : float;
  selfConsumption : float;
  capex : float;
  omAnnual : float;
  discountRate : float;
  psh : float;
  pr : float;
  degAnnual : float;
  exportFactor : float;
  incentiveScheme : string;
  ivaRate : float;
  arancelRate : float;
  taxRate : float;
  deductionYears : float
}.

Record Global := {
  includeTaxBenefit : bool;
  useVolatility : bool;
  includeExports : bool
}.

Module Annual.
Record t := {
  year : Z;
  tariff : float;
  generationKwh : float;
  selfKwh : float;
  expKwh : float;
  savingsSelf : float;
  revenueExp : float;
  savings : float;
  om : float;
  taxBenefit : float;
  net : float;
  cum : float
}.
End Annual.

Module Model.
Record t := {
  years : float;
  capexNeto : float;
  cashflows : list float;
  annuals : list Annual.t;
  NPV : float;
  IRR : option float;
  payback : option nat;
  roi1 : float;
  exportShareY1 : float
}.
End Model.

Inductive Key := A | B | C.

Section WithRuntime.
Context {rt : JSRuntime}.

Definition clamp (v a b : float) : float := Math_min b (Math_max a v).

Fixpoint npv_from (rate : float) (t : nat) (acc : float) (cashflows : list float) : float :=
  match cashflows with
  | [] => acc
  | cf :: rest =>
      npv_from rate (S t) (acc + cf / Math_pow (1 + rate) (Z2F (Z.of_nat t))) rest
  end.

Definition npv (rate : float) (cashflows : list float) : float :=
  npv_from rate 0 0 cashflows.

Definition irr_low : float := -0.99.
Definition irr_high : float := 5.0.
Definition irr_tol : float := 1e-4.
Definition irr_steps : nat := 140.

(** The bisection loop, [i] iterations left. *)
Fixpoint irr_loop (cashflows : list float) (i : nat) (low high : float) : option float :=
  match i with
  | O => Some ((low + high) / 2)
  | S i' =>
      let mid := (low + high) / 2 in
      let v := npv mid cashflows in
      if Math_abs v <? irr_tol then Some mid
      else if 0 <? v then irr_loop cashflows i' mid high
      else irr_loop cashflows i' low mid
  end.

(** [irr], for a loop of [steps] iterations (140 here, 120 in variant 3). *)
Definition irr_with (steps : nat) (cashflows : list float) : option float :=
  let hasNeg := existsb (fun x => x <? 0) cashflows in
  let hasPos := existsb (fun x => 0 <? x) cashflows in
  if negb hasNeg || negb hasPos then None
  else irr_loop cashflows steps irr_low irr_high.

Definition irr (cashflows : list float) : option float := irr_with irr_steps cashflows.

Fixpoint paybackYear_from (t : nat) (cum : float) (cashflows : list float) : option nat :=
  match cashflows with
  | [] => None
  | cf :: rest =>
      let cum := cum + cf in
      if 0 <=? cum then Some t else paybackYear_from (S t) cum rest
  end.

Definition paybackYear (cashflows : list float) : option nat :=
  paybackYear_from 0 0 cashflows.

Definition yearlyGenerationKwh (kW psh pr deg : float) (year : Z) : float :=
  let base := kW * psh * 365 * pr in
  let factor := Math_pow (1 - deg) (Z2F (year - 1)) in
  base * factor.

(** The FNV-1a loop: [h ^= code; h = Math.imul(h, 16777619)], on the 32 bits
    of [h] read as an unsigned integer. *)
Fixpoint noise_loop (h : Z) (seedStr : string) : Z :=
  match seedStr with
  | EmptyString => h
  | String c rest =>
      let h := Z.lxor h (Z.of_nat (nat_of_ascii c)) in
      let h := ((h * 16777619) mod 2 ^ 32)%Z in
      noise_loop h rest
  end.

Definition stableNoise01 (seedStr : string) : float :=
  let h := noise_loop 2166136261 seedStr in
  Z2F (h mod 100000) / 100000.

(** *** Incentives *)

Definition applyIncentives (capexBruto : float) (scheme : string)
    (ivaRate arancelRate taxRate deductionYears : float) : float * float :=
  let ivaRate := clamp ivaRate 0 0.3 in
  let arancelRate := clamp arancelRate 0 0.2 in
  let capexNeto := capexBruto in
  let capexNeto :=
    if String.eqb scheme "co_iva" || String.eqb scheme "co_iva_arancel"
       || String.eqb scheme "co_full"
    then capexNeto / (1 + ivaRate) else capexNeto in
  let capexNeto :=
    if String.eqb scheme "co_iva_arancel" || String.eqb scheme "co_full"
    then capexNeto * (1 - arancelRate) else capexNeto in
  let taxBenefitAnnual :=
    if String.eqb scheme "co_full" then
      let deductionBase := 0.5 * capexNeto in
      let deductionYears := Math_max 1 (Math_round deductionYears) in
      let taxRate := clamp taxRate 0 0.5 in
      (deductionBase / deductionYears) * taxRate
    else 0 in
  (capexNeto, taxBenefitAnnual).

(** *** Scenario model *)

(** The state of the yearly loop. *)
Record LoopState := {
  st_cashflows : list float;
  st_om : float;
  st_annuals : list Annual.t
}.

(** [annuals[y - 2]?.cum || cashflows[0]] *)
Definition previous_cum (annuals : list Annual.t) (cashflows : list float) (y : Z) : float :=
  let first := nth 0 cashflows nan in
  if (y <? 2)%Z then first
  else match nth_error annuals (Z.to_nat (y - 2)) with
       | Some a => if truthy (Annual.cum a) then Annual.cum a else first
       | None => first
       end.

(** The seed of the noise of year [y]:
    [`${seedTag}|${y}|${tariff0}|${esc}|${vol}`]. *)
Definition seed_string (seedTag : string) (y : Z) (tariff0 esc vol : float) : string :=
  String.concat "|"
    [seedTag; Number_toString (Z2F y); Number_toString tariff0;
     Number_toString esc; Number_toString vol].

(** The body of [for (let y = 1; y <= years; y++)]. *)
Definition year_step (s : Scenario) (global : Global) (seedTag : string)
    (tariff0 esc vol exportFactor selfFrac taxBenefitAnnual : float)
    (y : Z) (st : LoopState) : LoopState :=
  let baseTariff := tariff0 * Math_pow (1 + esc) (Z2F (y - 1)) in
  let tariffY :=
    if useVolatility global then
      let u := stableNoise01 (seed_string seedTag y tariff0 esc vol) in
      let jitter := 1 + (u * 2 - 1) * vol in
      Math_max 0 (baseTariff * jitter)
    else baseTariff in
  let gen := yearlyGenerationKwh (kW s) (psh s) (pr s) (degAnnual s) y in
  let selfKwh := gen * selfFrac in
  let expKwh := gen * (1 - selfFrac) in
  let exportPrice := tariffY * exportFactor in
  let savingsSelf := selfKwh * tariffY in
  let revenueExp := expKwh * exportPrice in
  let savings := savingsSelf + revenueExp in
  let om := if (1 <? y)%Z then st_om st * (1 + esc) else st_om st in
  let benefitTax := if includeTaxBenefit global then taxBenefitAnnual else 0 in
  let net := savings - om + benefitTax in
  let cashflows := array_set (st_cashflows st) (Z.to_nat y) net in
  {| st_cashflows := cashflows;
     st_om := om;
     st_annuals :=
       st_annuals st ++
       [ {| Annual.year := y; Annual.tariff := tariffY; Annual.generationKwh := gen;
            Annual.selfKwh := selfKwh; Annual.expKwh := expKwh;
            Annual.savingsSelf := savingsSelf; Annual.revenueExp := revenueExp;
            Annual.savings := savings; Annual.om := om; Annual.taxBenefit := benefitTax;
            Annual.net := net;
            Annual.cum := previous_cum (st_annuals st) cashflows y + net |} ] |}.

Fixpoint year_loop (step : Z -> LoopState -> LoopState) (count : nat) (y : Z)
    (st : LoopState) : LoopState :=
  match count with
  | O => st
  | S count' => year_loop step count' (y + 1) (step y st)
  end.

Definition computeScenario (s : Scenario) (global : Global) (seedTag : string)
  : outcome Model.t :=
  let years := Math_max 5 (Math_round (lifeYears s)) in
  let discount := clamp (discountRate s) 0.01 0.6 in
  let '(capexNeto, taxBenefitAnnual) :=
    applyIncentives (capex s) (incentiveScheme s) (ivaRate s) (arancelRate s)
      (taxRate s) (deductionYears s) in
  bind (new_Array (years + 1)) (fun len =>
    let cashflows := array_set (repeat 0 len) 0 (- capexNeto) in
    let tariff0 := Math_max 0 (tariff s) in
    let esc := clamp (tariffEscalation s) 0 0.35 in
    let vol := clamp (tariffVolatility s) 0 0.5 in
    let exportFactor := if includeExports global then clamp (exportFactor s) 0 1 else 0 in
    let selfFrac := clamp (selfConsumption s) 0 1 in
    let om := Math_max 0 (omAnnual s) in
    let st := year_loop
                (year_step s global seedTag tariff0 esc vol exportFactor selfFrac
                   taxBenefitAnnual)
                (loop_count 1 years) 1
                {| st_cashflows := cashflows; st_om := om; st_annuals := [] |} in
    let cashflows := st_cashflows st in
    let annuals := st_annuals st in
    let exportShareY1 :=
      match annuals with
      | y1 :: _ =>
          if 0 <? Annual.savings y1
          then clamp (Annual.revenueExp y1 / Annual.savings y1) 0 1 else 0
      | [] => 0
      end in
    Return {| Model.years := years; Model.capexNeto := capexNeto;
              Model.cashflows := cashflows; Model.annuals := annuals;
              Model.NPV := npv discount cashflows; Model.IRR := irr cashflows;
              Model.payback := paybackYear cashflows;
              Model.roi1 := nth 1 cashflows nan / capexNeto;
              Model.exportShareY1 := exportShareY1 |}).

(** *** The comparison series *)

Record ChartPoint := {
  chart_year : nat;
  chart_A : float;
  chart_B : float;
  chart_C : float
}.

(** [y === 0 ? cashflows[0] : cashflows.slice(0, y + 1).reduce((p, c) => p + c, 0)] *)
Definition cum_at (cashflows : list float) (y : nat) : float :=
  match y with
  | O => nth 0 cashflows nan
  | _ => fold_left (fun p c => p + c) (firstn (y + 1) cashflows) 0
  end.

Definition chartData_with (years : float) (cfA cfB cfC : list float) : list ChartPoint :=
  map (fun y => {| chart_year := y; chart_A := cum_at cfA y;
                   chart_B := cum_at cfB y; chart_C := cum_at cfC y |})
      (seq 0 (loop_count 0 years)).

Definition chartData (mA mB mC : Model.t) (active : Key) : list ChartPoint :=
  let activeModel := match active with A => mA | B => mB | C => mC end in
  chartData_with (Model.years activeModel)
    (Model.cashflows mA) (Model.cashflows mB) (Model.cashflows mC).

(** The three models, with their seed tags, and the chart of the active one. *)
Definition models (sA sB sC : Scenario) (global : Global) (active : Key)
  : outcome (Model.t * Model.t * Model.t * list ChartPoint) :=
  bind (computeScenario sA global "A") (fun mA =>
  bind (computeScenario sB global "B") (fun mB =>
  bind (computeScenario sC global "C") (fun mC =>
  Return (mA, mB, mC, chartData mA mB mC active)))).

End WithRuntime.
End V2.

(** ** Variant 3: tariff noise drawn from [Math.random]

    [clamp], [npv], [paybackYear], [yearlyGenerationKwh], [applyIncentives]
    and the scenario record are the same text as in variant 2; [irr] runs 120
    steps.  The values returned by the successive calls of [Math.random] are
    the tape [random]. *)

Module V3.

Record Global := {
  includeTaxBenefit : bool;
  useVolatility : bool
}.

Module Annual.
Record t := {
  year : Z;
  tariff : float;
  generationKwh : float;
  savings : float;
  om : float;
  taxBenefit : float;
  net : float;
  cum : float
}.
End Annual.

Module Model.
Record t := {
  years : float;
  capexNeto : float;
  cashflows : list float;
  annuals : list Annual.t;
  NPV : float;
  IRR : option float;
  payback : option nat;
  roi1 : float
}.
End Model.

Section WithRuntime.
Context {rt : JSRuntime}.

Definition irr_steps : nat := 120.

Definition irr (cashflows : list float) : option float :=
  V2.irr_with irr_steps cashflows.

Record LoopState := {
  st_cashflows : list float;
  st_om : float;
  st_annuals : list Annual.t;
  st_draws : nat  (** calls of [Math.random] so far *)
}.

Definition previous_cum (annuals : list Annual.t) (cashflows : list float) (y : Z) : float :=
  let first := nth 0 cashflows nan in
  if (y <? 2)%Z then first
  else match nth_error annuals (Z.to_nat (y - 2)) with
       | Some a => if truthy (Annual.cum a) then Annual.cum a else first
       | None => first
       end.

Definition year_step (random : nat -> float) (s : V2.Scenario) (global : Global)
    (tariff0 esc vol exportFactor selfFrac taxBenefitAnnual : float)
    (y : Z) (st : LoopState) : LoopState :=
  let baseTariff := tariff0 * Math_pow (1 + esc) (Z2F (y - 1)) in
  let jitter :=
    if useVolatility global then 1 + (random (st_draws st) * 2 - 1) * vol else 1 in
  let draws := if useVolatility global then S (st_draws st) else st_draws st in
  let tariffY := Math_max 0 (baseTariff * jitter) in
  let gen := V2.yearlyGenerationKwh (V2.kW s) (V2.psh s) (V2.pr s) (V2.degAnnual s) y in
  let selfKwh := gen * selfFrac in
  let expKwh := gen * (1 - selfFrac) in
  let exportPrice := tariffY * exportFactor in
  let savings := selfKwh * tariffY + expKwh * exportPrice in
  let om := if (1 <? y)%Z then st_om st * (1 + esc) else st_om st in
  let benefitTax := if includeTaxBenefit global then taxBenefitAnnual else 0 in
  let net := savings - om + benefitTax in
  let cashflows := array_set (st_cashflows st) (Z.to_nat y) net in
  {| st_cashflows := cashflows;
     st_om := om;
     st_annuals :=
       st_annuals st ++
       [ {| Annual.year := y; Annual.tariff := tariffY; Annual.generationKwh := gen;
            Annual.savings := savings; Annual.om := om; Annual.taxBenefit := benefitTax;
            Annual.net := net;
            Annual.cum := previous_cum (st_annuals st) cashflows y + net |} ];
     st_draws := draws |}.

Fixpoint year_loop (step : Z -> LoopState -> LoopState) (count : nat) (y : Z)
    (st : LoopState) : LoopState :=
  match count with
  | O => st
  | S count' => year_loop step count' (y + 1) (step y st)
  end.

Definition computeScenario (random : nat -> float) (s : V2.Scenario) (global : Global)
  : outcome Model.t :=
  let years := Math_max 5 (Math_round (V2.lifeYears s)) in
  let discount := V2.clamp (V2.discountRate s) 0.01 0.6 in
  let '(capexNeto, taxBenefitAnnual) :=
    V2.applyIncentives (V2.capex s) (V2.incentiveScheme s) (V2.ivaRate s)
      (V2.arancelRate s) (V2.taxRate s) (V2.deductionYears s) in
  bind (new_Array (years + 1)) (fun len =>
    let cashflows := array_set (repeat 0 len) 0 (- capexNeto) in
    let tariff0 := Math_max 0 (V2.tariff s) in
    let esc := V2.clamp (V2.tariffEscalation s) 0 0.35 in
    let vol := V2.clamp (V2.tariffVolatility s) 0 0.5 in
    let exportFactor := V2.clamp (V2.exportFactor s) 0 1 in
    let selfFrac := V2.clamp (V2.selfConsumption s) 0 1 in
    let om := Math_max 0 (V2.omAnnual s) in
    let st := year_loop
                (year_step random s global tariff0 esc vol exportFactor selfFrac
                   taxBenefitAnnual)
                (loop_count 1 years) 1
                {| st_cashflows := cashflows; st_om := om; st_annuals := [];
                   st_draws := 0 |} in
    let cashflows := st_cashflows st in
    Return {| Model.years := years; Model.capexNeto := capexNeto;
              Model.cashflows := cashflows; Model.annuals := st_annuals st;
              Model.NPV := V2.npv discount cashflows; Model.IRR := irr cashflows;
              Model.payback := V2.paybackYear cashflows;
              Model.roi1 := nth 1 cashflows nan / capexNeto |}).

Definition chartData (mA mB mC : Model.t) (active : V2.Key) : list V2.ChartPoint :=
  let activeModel := match active with V2.A => mA | V2.B => mB | V2.C => mC end in
  V2.chartData_with (Model.years activeModel)
    (Model.cashflows mA) (Model.cashflows mB) (Model.cashflows mC).

End WithRuntime.
End V3.

(** ** A reference runtime

    Used to run the model on concrete inputs.  [Math.pow] is exact for the
    exponents 0 and 1 and a repeated product for larger natural exponents;
    [Math.sin] is a Taylor polynomial after reduction to one period; the
    conversions between numbers and text handle plain decimal notation. *)

Module Ref.

Fixpoint pow_loop (fuel : nat) (base exponent : float) : float :=
  match fuel with
  | O => 1
  | S fuel' => if exponent <=? 0 then 1
               else if exponent =? 1 then base
               else base * pow_loop fuel' base (exponent - 1)
  end.

Definition pow (base exponent : float) : float := pow_loop 4096 base exponent.

Fixpoint sin_terms (k : nat) (i : float) (term x2 acc : float) : float :=
  match k with
  | O => acc
  | S k' =>
      let term := - term * x2 / ((i + 1) * (i + 2)) in
      sin_terms k' (i + 2) term x2 (acc + term)
  end.

Definition sin (x : float) : float :=
  let turns := Math_round (x / (2 * Math_PI)) in
  let r := x - turns * (2 * Math_PI) in
  sin_terms 14 1 r (r * r) r.

Definition digit_of (c : ascii) : option Z :=
  let k := nat_of_ascii c in
  if ((48 <=? k) && (k <=? 57))%nat then Some (Z.of_nat (k - 48)) else None.

(** Digits of a plain decimal numeral: the integer read so far, the number of
    digits after the point, and whether the point was seen. *)
Fixpoint parse_digits (s : string) (acc : Z) (frac : Z) (seen_point : bool)
  : option (Z * Z) :=
  match s with
  | EmptyString => Some (acc, frac)
  | String c rest =>
      match digit_of c with
      | Some d => parse_digits rest (10 * acc + d)
                    (if seen_point then frac + 1 else frac)%Z seen_point
      | None => if Ascii.eqb c "."%char && negb seen_point
                then parse_digits rest acc frac true else None
      end
  end.

Definition parse (text : string) : float :=
  let body := V1.trim text in
  let '(negative, digits) :=
    match body with
    | String c rest => if Ascii.eqb c "-"%char then (true, rest)
                       else if Ascii.eqb c "+"%char then (false, rest)
                       else (false, body)
    | EmptyString => (false, body)
    end in
  match body, digits with
  | EmptyString, _ => 0
  | _, EmptyString => nan
  | _, "." => nan
  | _, _ =>
      match parse_digits digits 0 0 false with
      | Some (m, frac) =>
          let v := Z2F m / Z2F (10 ^ frac) in if negative then - v else v
      | None => nan
      end
  end.

(** The decimal digits of [m] with [frac] of them after the point. *)
Definition decimal (m : Z) (frac : nat) : string :=
  let digits := NilEmpty.string_of_uint (N.to_uint (Z.to_N m)) in
  let pad := String.concat "" (repeat "0" (S frac - String.length digits)) in
  let digits := String.append pad digits in
  let cut := (String.length digits - frac)%nat in
  match frac with
  | O => digits
  | _ => String.append (substring 0 cut digits)
           (String.append "." (substring cut frac digits))
  end.

(** The shortest decimal with at most [fuel + frac] digits after the point
    that reads back as the number [m * 2^e]. *)
Fixpoint shortest (fuel : nat) (frac : nat) (v : float) (m e : Z) : string :=
  let scaled := (m * 10 ^ Z.of_nat frac)%Z in
  let q := if (0 <=? e)%Z then (scaled * 2 ^ e)%Z
           else ((2 * scaled + 2 ^ (- e)) / 2 ^ (1 - e))%Z in
  match fuel with
  | O => decimal q frac
  | S fuel' =>
      if Z2F q / Z2F (10 ^ Z.of_nat frac) =? v then decimal q frac
      else shortest fuel' (S frac) v m e
  end.

Definition toString (v : float) : string :=
  match Prim2SF v with
  | S754_nan => "NaN"
  | S754_zero _ => "0"
  | S754_infinity s => if s then "-Infinity" else "Infinity"
  | S754_finite s m e =>
      String.append (if s then "-" else "") (shortest 24 0 (abs v) (Zpos m) e)
  end.

Definition runtime : JSRuntime :=
  {| Math_pow := pow; Math_sin := sin; Number_parse := parse; Number_toString := toString |}.

End Ref.

(** ** Definitions used to state the properties *)

(** The three variants of the engine. *)
Inductive Variant := SmartEnergyROIApp | StableNoise | RandomNoise.

Section Solver.
Context {rt : JSRuntime}.

Definition irr_of (v : Variant) : list float -> option float :=
  match v with
  | SmartEnergyROIApp => V1.irr
  | StableNoise => V2.irr
  | RandomNoise => V3.irr
  end.



Definition bracket_low (v : Variant) : float :=
  match v with
  | SmartEnergyROIApp => V1.irr_low
  | _ => V2.irr_low
  end.

Definition bracket_high (v : Variant) : float :=
  match v with
  | SmartEnergyROIApp => V1.irr_high
  | _ => V2.irr_high
  end.




End Solver.

(** Inputs used in the examples. *)
Module Examples.

Definition num (v : float) : value := JNum v.

(** [DEFAULTS.A] of [SmartEnergyROIApp.jsx]. *)
Definition DEFAULTS_A : V1.Scenario.t :=
  {| V1.Scenario.name := "Conservador"; V1.Scenario.vida := num 25;
     V1.Scenario.tarifaBase := num 850; V1.Scenario.potencia := num 6;
     V1.Scenario.psh := num 4.2; V1.Scenario.pr := num 0.78;
     V1.Scenario.degrad := num 0.007; V1.Scenario.autoconsumo := num 0.8;
     V1.Scenario.capex := num 22000000; V1.Scenario.om := num 420000;
     V1.Scenario.escTarifa := num 0.03; V1.Scenario.tasaDesc := num 0.13;
     V1.Scenario.tariffMode := "escalado"; V1.Scenario.tarifaLista := "850, 880, 910, 940";
     V1.Scenario.volatilidad := num 0.1; V1.Scenario.ciclo := num 4;
     V1.Scenario.incentivoId := "none"; V1.Scenario.ivaRate := num 0.19;
     V1.Scenario.arancelRate := num 0.05; V1.Scenario.ingresoGravableAnual := num 60000000;
     V1.Scenario.tasaImpuestoRenta := num 0.35; V1.Scenario.anosDeduccionRenta := num 5 |}.

(** [DEFAULTS.A] with no plant, no capital cost and no operating cost. *)
Definition idle : V1.Scenario.t :=
  {| V1.Scenario.name := "Conservador"; V1.Scenario.vida := num 25;
     V1.Scenario.tarifaBase := num 850; V1.Scenario.potencia := num 0;
     V1.Scenario.psh := num 4.2; V1.Scenario.pr := num 0.78;
     V1.Scenario.degrad := num 0.007; V1.Scenario.autoconsumo := num 0.8;
     V1.Scenario.capex := num 0; V1.Scenario.om := num 0;
     V1.Scenario.escTarifa := num 0.03; V1.Scenario.tasaDesc := num 0.13;
     V1.Scenario.tariffMode := "escalado"; V1.Scenario.tarifaLista := "850, 880, 910, 940";
     V1.Scenario.volatilidad := num 0.1; V1.Scenario.ciclo := num 4;
     V1.Scenario.incentivoId := "none"; V1.Scenario.ivaRate := num 0.19;
     V1.Scenario.arancelRate := num 0.05; V1.Scenario.ingresoGravableAnual := num 60000000;
     V1.Scenario.tasaImpuestoRenta := num 0.35; V1.Scenario.anosDeduccionRenta := num 5 |}.

(** [DEFAULTS.A] with a plant of 1e308 kW, 8 peak sun hours and a base
    tariff of 0: the energy of year 1 overflows to [Infinity] and the
    savings, [Infinity * 0], are NaN. *)
Definition overflow : V1.Scenario.t :=
  {| V1.Scenario.name := "Conservador"; V1.Scenario.vida := num 25;
     V1.Scenario.tarifaBase := num 0; V1.Scenario.potencia := num 1e308;
     V1.Scenario.psh := num 8; V1.Scenario.pr := num 0.78;
     V1.Scenario.degrad := num 0.007; V1.Scenario.autoconsumo := num 0.8;
     V1.Scenario.capex := num 22000000; V1.Scenario.om := num 420000;
     V1.Scenario.escTarifa := num 0.03; V1.Scenario.tasaDesc := num 0.13;
     V1.Scenario.tariffMode := "escalado"; V1.Scenario.tarifaLista := "850, 880, 910, 940";
     V1.Scenario.volatilidad := num 0.1; V1.Scenario.ciclo := num 4;
     V1.Scenario.incentivoId := "none"; V1.Scenario.ivaRate := num 0.19;
     V1.Scenario.arancelRate := num 0.05; V1.Scenario.ingresoGravableAnual := num 60000000;
     V1.Scenario.tasaImpuestoRenta := num 0.35; V1.Scenario.anosDeduccionRenta := num 5 |}.

(** The text [850,<U+00A0>,900]: a no-break space between two commas. *)
Definition list_with_no_break_space : string :=
  String.append "850,"
    (String (ascii_of_nat 194) (String (ascii_of_nat 160) ",900")).

(** [defaultScenario("Base", "blue")] of variants 2 and 3, with the
    lifetime, the capital cost and the deduction years left open. *)
Definition base (lifeYears capex deductionYears : float) : V2.Scenario :=
  {| V2.name := "Base"; V2.colorKey := "blue"; V2.kW := 22.2; V2.lifeYears := lifeYears;
     V2.tariff := 1080; V2.tariffEscalation := 0.08; V2.tariffVolatility := 0.08;
     V2.selfConsumption := 0.65; V2.capex := capex; V2.omAnnual := 450000;
     V2.discountRate := 0.12; V2.psh := 4.1; V2.pr := 0.8; V2.degAnnual := 0.006;
     V2.exportFactor := 0.45; V2.incentiveScheme := "co_full"; V2.ivaRate := 0.19;
     V2.arancelRate := 0.05; V2.taxRate := 0.35; V2.deductionYears := deductionYears |}.

Definition defaultScenario : V2.Scenario := base 25 64727982 15.

(** The initial toggles of variant 2, and the same with the volatility on. *)
Definition global : V2.Global :=
  {| V2.includeTaxBenefit := true; V2.useVolatility := false; V2.includeExports := true |}.

Definition volatile : V3.Global :=
  {| V3.includeTaxBenefit := true; V3.useVolatility := true |}.

End Examples.

(** ** Definitions for the arithmetic of binary64 numbers

    Finite numbers are compared and bounded through their value, an integer
    in units of 2^-1074, the smallest positive number. *)

Section FloatDefinitions.
Local Open Scope Z_scope.

(** The value of a finite number in units of 2^-1074. *)
Definition val (x : spec_float) : Z :=
  match x with
  | S754_finite s m e => cond_Zopp s (Zpos m * 2 ^ (e + 1074))
  | _ => 0
  end.

Definition finite_SF (x : spec_float) : bool :=
  match x with
  | S754_zero _ | S754_finite _ _ _ => true
  | _ => false
  end.

(** A representable finite number. *)
Definition valid_finite (x : spec_float) : Prop :=
  valid_binary x = true /\ finite_SF x = true.

(** The value of a finite JavaScript number. *)
Definition value_of (x : float) : Z := val (Prim2SF x).

(** Whether bits were lost in a shift to the right. *)
Definition shr_inexact (mrs : shr_record) : bool := shr_r mrs || shr_s mrs.

(** Half of an integer, rounded to the nearest integer, ties to even. *)
Definition half_even (z : Z) : Z :=
  let q := z / 2 in
  if Z.even z then q else if Z.even q then q else q + 1.

(** The number 2. *)
Definition SF_two : spec_float := S754_finite false 4503599627370496 (-51).

(** A finite number between two finite bounds. *)
Definition between (L H x : float) : Prop :=
  is_finite x = true /\ value_of L <= value_of x <= value_of H.

(** A finite number whose value is an integer. *)
Definition integral (x : float) : Prop :=
  is_finite x = true /\ exists z : Z, value_of x = z * 2 ^ 1074.

(** A number that is not NaN and not negative. *)
Definition nonneg_SF (X : spec_float) : bool :=
  match X with
  | S754_zero _ | S754_finite false _ _ | S754_infinity false => true
  | _ => false
  end.

Definition nonneg (x : float) : Prop := nonneg_SF (Prim2SF x) = true.

End FloatDefinitions.

(** ** The deduction schedule, in the words of the specification

    Year by year: while the deduction window is open and some base remains,
    the benefit is the least of the evenly-spread share, the remaining base
    and the ceiling, times the tax rate, and the remaining base decreases by
    the deducted amount; once the window has closed or the base is
    exhausted, the benefit is zero. *)
Fixpoint deduction_schedule (share ceiling rate window : float) (years : nat)
    (y : Z) (remaining : float) (open : bool) : list float :=
  match years with
  | O => []
  | S years' =>
      if open && negb ((window <? Z2F y) || (remaining <=? 0)) then
        let deducted := Math_min3 share remaining ceiling in
        deducted * rate
        :: deduction_schedule share ceiling rate window years' (y + 1)
             (remaining - deducted) true
      else 0 :: deduction_schedule share ceiling rate window years' (y + 1) remaining false
  end.

(** ** The scenario store of the second program

    The interface holds three scenarios under the keys A, B and C, and the
    key of the active one. *)

Module V2App.

Record Scenarios := {
  A : V2.Scenario;
  B : V2.Scenario;
  C : V2.Scenario
}.

(** [sc[key]] *)
Definition get (sc : Scenarios) (key : V2.Key) : V2.Scenario :=
  match key with V2.A => A sc | V2.B => B sc | V2.C => C sc end.

(** [{ ...prev, [key]: s }] *)
Definition set (prev : Scenarios) (key : V2.Key) (s : V2.Scenario) : Scenarios :=
  match key with
  | V2.A => {| A := s; B := B prev; C := C prev |}
  | V2.B => {| A := A prev; B := s; C := C prev |}
  | V2.C => {| A := A prev; B := B prev; C := s |}
  end.

(** [{ ...s, name, colorKey }] *)
Definition renamed (s : V2.Scenario) (name colorKey : string) : V2.Scenario :=
  {| V2.name := name; V2.colorKey := colorKey; V2.kW := V2.kW s;
     V2.lifeYears := V2.lifeYears s; V2.tariff := V2.tariff s;
     V2.tariffEscalation := V2.tariffEscalation s;
     V2.tariffVolatility := V2.tariffVolatility s;
     V2.selfConsumption := V2.selfConsumption s; V2.capex := V2.capex s;
     V2.omAnnual := V2.omAnnual s; V2.discountRate := V2.discountRate s;
     V2.psh := V2.psh s; V2.pr := V2.pr s; V2.degAnnual := V2.degAnnual s;
     V2.exportFactor := V2.exportFactor s; V2.incentiveScheme := V2.incentiveScheme s;
     V2.ivaRate := V2.ivaRate s; V2.arancelRate := V2.arancelRate s;
     V2.taxRate := V2.taxRate s; V2.deductionYears := V2.deductionYears s |}.

(** [duplicateTo(targetKey)]: the active scenario under the target key, with
    the name and the colour the target had. *)
Definition duplicateTo (active targetKey : V2.Key) (prev : Scenarios) : Scenarios :=
  set prev targetKey
    (renamed (get prev active)
       (V2.name (get prev targetKey)) (V2.colorKey (get prev targetKey))).

(** The key as the seed tag of [models]. *)
Definition key_name (key : V2.Key) : string :=
  match key with V2.A => "A" | V2.B => "B" | V2.C => "C" end.

(** [{ ...global, includeExports }] *)
Definition with_exports (global : V2.Global) (includeExports : bool) : V2.Global :=
  {| V2.includeTaxBenefit := V2.includeTaxBenefit global;
     V2.useVolatility := V2.useVolatility global;
     V2.includeExports := includeExports |}.

Section WithRuntime.
Context {rt : JSRuntime}.

(** [models[active]], when the active scenario is computed. *)
Definition activeModel (sc : Scenarios) (global : V2.Global) (active : V2.Key)
  : outcome V2.Model.t :=
  V2.computeScenario (get sc active) global (key_name active).

Definition modelWithExports (sc : Scenarios) (global : V2.Global) (active : V2.Key)
  : outcome V2.Model.t :=
  V2.computeScenario (get sc active) (with_exports global true)
    (String.append (key_name active) "|with").

Definition modelNoExports (sc : Scenarios) (global : V2.Global) (active : V2.Key)
  : outcome V2.Model.t :=
  V2.computeScenario (get sc active) (with_exports global false)
    (String.append (key_name active) "|no").

End WithRuntime.
End V2App.

(** ** Cumulative cash flow

    The sum of the cash flows of the years 0 to [t], added from the left
    starting from 0, as the loops of the programs add them. *)
Definition cumulative (cashflows : list float) (t : nat) : float :=
  fold_left (fun p c => p + c) (firstn (S t) cashflows) 0.

(** The integers [start], [start + 1], ..., [count] of them. *)
Fixpoint Z_seq (start : Z) (count : nat) : list Z :=
  match count with
  | O => []
  | S count' => start :: Z_seq (start + 1) count'
  end.
(** * Properties *)

(** ** The arithmetic of binary64 numbers, from its specification *)

Section FloatSpecification.
Local Open Scope Z_scope.

Lemma digits2_bounds (p : positive) :
  2 ^ (Zpos (digits2_pos p) - 1) <= Zpos p < 2 ^ Zpos (digits2_pos p).
Proof.
  induction p as [p IH|p IH|]; cbn [digits2_pos].
  - rewrite Pos2Z.inj_succ, (Pos2Z.inj_xI p).
    replace (Z.succ (Zpos (digits2_pos p)) - 1) with (Z.succ (Zpos (digits2_pos p) - 1)) by lia.
    rewrite !Z.pow_succ_r by lia.
    set (a := 2 ^ (Zpos (digits2_pos p) - 1)) in *.
    set (b := 2 ^ Zpos (digits2_pos p)) in *. clearbody a b. lia.
  - rewrite Pos2Z.inj_succ, (Pos2Z.inj_xO p).
    replace (Z.succ (Zpos (digits2_pos p)) - 1) with (Z.succ (Zpos (digits2_pos p) - 1)) by lia.
    rewrite !Z.pow_succ_r by lia.
    set (a := 2 ^ (Zpos (digits2_pos p) - 1)) in *.
    set (b := 2 ^ Zpos (digits2_pos p)) in *. clearbody a b. lia.
  - cbn. lia.
Qed.

Lemma fexp_eq (x : Z) : fexp prec emax x = Z.max (x - 53) (-1074).
Proof. reflexivity. Qed.

Lemma bounded_inv (m : positive) (e : Z) :
  bounded prec emax m e = true ->
  -1074 <= e <= 971 /\ Zpos (digits2_pos m) <= 53 /\
  (-1074 < e -> Zpos (digits2_pos m) = 53).
Proof.
  unfold bounded, canonical_mantissa. rewrite fexp_eq.
  intros H. apply andb_prop in H. destruct H as [H1 H2].
  apply Z.eqb_eq in H1. apply Z.leb_le in H2. change (emax - prec) with 971 in H2. lia.
Qed.

Lemma bounded_intro (m : positive) (e : Z) :
  -1074 <= e <= 971 -> Zpos (digits2_pos m) <= 53 ->
  (-1074 < e -> Zpos (digits2_pos m) = 53) ->
  bounded prec emax m e = true.
Proof.
  intros H1 H2 H3. unfold bounded, canonical_mantissa. rewrite fexp_eq.
  apply andb_true_intro. split.
  - apply Z.eqb_eq. lia.
  - apply Z.leb_le. change (emax - prec) with 971. lia.
Qed.

Lemma pow2_pos (k : Z) : 0 <= k -> 0 < 2 ^ k.
Proof. intros. apply Z.pow_pos_nonneg; lia. Qed.

Lemma pow2_split (a b : Z) : 0 <= a -> 0 <= b -> 2 ^ (a + b) = 2 ^ a * 2 ^ b.
Proof. intros. apply Z.pow_add_r; lia. Qed.

(** Mantissas of numbers in canonical form compare like the numbers. *)
Lemma canonical_lt (m1 m2 : positive) (e1 e2 : Z) :
  bounded prec emax m1 e1 = true -> bounded prec emax m2 e2 = true ->
  e1 < e2 -> Zpos m1 * 2 ^ (e1 + 1074) < Zpos m2 * 2 ^ (e2 + 1074).
Proof.
  intros B1 B2 Hlt.
  apply bounded_inv in B1. apply bounded_inv in B2.
  destruct B1 as (R1 & D1 & _). destruct B2 as (R2 & _ & N2).
  specialize (N2 ltac:(lia)).
  pose proof (digits2_bounds m1) as [_ U1]. pose proof (digits2_bounds m2) as [L2 _].
  rewrite N2 in L2. change (2 ^ (53 - 1)) with (2 ^ 52) in L2.
  assert (U1' : Zpos m1 < 2 ^ 53).
  { eapply Z.lt_le_trans; [exact U1|]. apply Z.pow_le_mono_r; lia. }
  replace (e2 + 1074) with ((e1 + 1074) + (e2 - e1 - 1) + 1) by lia.
  rewrite (pow2_split (e1 + 1074 + (e2 - e1 - 1)) 1), (pow2_split (e1 + 1074) (e2 - e1 - 1)) by lia.
  pose proof (pow2_pos (e1 + 1074) ltac:(lia)).
  pose proof (pow2_pos (e2 - e1 - 1) ltac:(lia)).
  change (2 ^ 1) with 2. change (2 ^ 53) with (2 * 2 ^ 52) in U1'.
  set (A := 2 ^ (e1 + 1074)) in *. set (B := 2 ^ (e2 - e1 - 1)) in *.
  clearbody A B.
  assert (S1 : Zpos m1 + 1 <= 2 * Zpos m2) by lia.
  assert (S2 : (Zpos m1 + 1) * A <= 2 * Zpos m2 * A)
    by (apply Z.mul_le_mono_nonneg_r; lia).
  assert (S3 : 2 * Zpos m2 * A * 1 <= 2 * Zpos m2 * A * B)
    by (apply Z.mul_le_mono_nonneg_l; lia).
  lia.
Qed.

Lemma pos_compare_scale (m1 m2 : positive) (P : Z) :
  0 < P -> (Zpos m1 * P ?= Zpos m2 * P) = (m1 ?= m2)%positive.
Proof. intros HP. rewrite <- Zmult_compare_compat_r by lia. reflexivity. Qed.


Lemma val_compare (x y : spec_float) :
  valid_finite x -> valid_finite y ->
  SFcompare x y = Some (val x ?= val y).
Proof.
  intros [Vx Fx] [Vy Fy].
  destruct x as [sx|sx| |sx mx ex]; try discriminate;
  destruct y as [sy|sy| |sy my ey]; try discriminate; cbn [SFcompare val].
  - reflexivity.
  - pose proof (pow2_pos (ey + 1074) ltac:(apply bounded_inv in Vy; lia)).
    destruct sy; cbn [cond_Zopp]; f_equal; symmetry.
    + apply Z.compare_gt_iff. lia.
    + apply Z.compare_lt_iff. lia.
  - pose proof (pow2_pos (ex + 1074) ltac:(apply bounded_inv in Vx; lia)).
    destruct sx; cbn [cond_Zopp]; f_equal; symmetry.
    + apply Z.compare_lt_iff. lia.
    + apply Z.compare_gt_iff. lia.
  - cbn [valid_binary] in Vx, Vy.
    pose proof (pow2_pos (ex + 1074) ltac:(apply bounded_inv in Vx; lia)) as Px.
    pose proof (pow2_pos (ey + 1074) ltac:(apply bounded_inv in Vy; lia)) as Py.
    destruct sx, sy; cbn [cond_Zopp]; f_equal.
    + destruct (Z.compare_spec ex ey) as [->|Hlt|Hgt].
      * change (Pos.compare_cont Eq mx my) with (Pos.compare mx my).
        rewrite Z.compare_opp, pos_compare_scale by lia.
        symmetry. apply Pos.compare_antisym.
      * pose proof (canonical_lt _ _ _ _ Vx Vy Hlt). symmetry. apply Z.compare_gt_iff. lia.
      * pose proof (canonical_lt _ _ _ _ Vy Vx Hgt). symmetry. apply Z.compare_lt_iff. lia.
    + symmetry. apply Z.compare_lt_iff. lia.
    + symmetry. apply Z.compare_gt_iff. lia.
    + destruct (Z.compare_spec ex ey) as [->|Hlt|Hgt].
      * change (Pos.compare_cont Eq mx my) with (Pos.compare mx my).
        now rewrite pos_compare_scale by lia.
      * pose proof (canonical_lt _ _ _ _ Vx Vy Hlt). symmetry. apply Z.compare_lt_iff. lia.
      * pose proof (canonical_lt _ _ _ _ Vy Vx Hgt). symmetry. apply Z.compare_gt_iff. lia.
Qed.

Lemma iter_pos_nat {A : Type} (f : A -> A) (p : positive) :
  forall x, SpecFloat.iter_pos f p x = Nat.iter (Pos.to_nat p) f x.
Proof.
  induction p as [p IH|p IH|]; intros x; cbn [SpecFloat.iter_pos].
  - rewrite !IH, Pos2Nat.inj_xI.
    replace (S (2 * Pos.to_nat p)) with (Pos.to_nat p + S (Pos.to_nat p))%nat by lia.
    rewrite Nat.iter_add, Nat.iter_succ_r. reflexivity.
  - rewrite !IH, Pos2Nat.inj_xO.
    replace (2 * Pos.to_nat p)%nat with (Pos.to_nat p + Pos.to_nat p)%nat by lia.
    now rewrite Nat.iter_add.
  - reflexivity.
Qed.


Lemma shr_1_spec (mrs : shr_record) :
  0 <= shr_m mrs ->
  shr_m (shr_1 mrs) = shr_m mrs / 2 /\
  shr_inexact (shr_1 mrs) = Z.odd (shr_m mrs) || shr_inexact mrs.
Proof.
  destruct mrs as [m r s]. cbn [shr_m]. intros Hm.
  rewrite <- Z.div2_div.
  destruct m as [|[p|p|]|p]; try lia; cbn; split; try reflexivity.
Qed.

Lemma mod_pow2_succ (m : Z) (n : nat) :
  0 <= m ->
  (m mod 2 ^ Z.of_nat (S n) =? 0) =
  (m mod 2 ^ Z.of_nat n =? 0) && negb (Z.odd (m / 2 ^ Z.of_nat n)).
Proof.
  intros Hm. rewrite Nat2Z.inj_succ, Z.pow_succ_r by lia.
  assert (P : 0 < 2 ^ Z.of_nat n) by (apply pow2_pos; lia).
  rewrite (Z.mul_comm 2), Z.rem_mul_r by lia.
  pose proof (Z.mod_pos_bound m (2 ^ Z.of_nat n) P) as B1.
  pose proof (Z.mod_pos_bound (m / 2 ^ Z.of_nat n) 2 ltac:(lia)) as B2.
  rewrite (Zmod_odd (m / 2 ^ Z.of_nat n)) in *.
  destruct (Z.odd (m / 2 ^ Z.of_nat n)); cbn [negb].
  - rewrite andb_false_r. apply Z.eqb_neq. nia.
  - rewrite andb_true_r. f_equal. lia.
Qed.

Lemma shr_iter_spec (n : nat) (mrs : shr_record) :
  0 <= shr_m mrs ->
  shr_m (Nat.iter n shr_1 mrs) = shr_m mrs / 2 ^ Z.of_nat n /\
  shr_inexact (Nat.iter n shr_1 mrs) =
    negb (shr_m mrs mod 2 ^ Z.of_nat n =? 0) || shr_inexact mrs.
Proof.
  intros Hm. induction n as [|n [IHm IHi]].
  - change (Nat.iter 0 shr_1 mrs) with mrs. cbn [Z.of_nat].
    rewrite Z.pow_0_r, Z.div_1_r, Z.mod_1_r. now cbn.
  - rewrite Nat.iter_succ.
    assert (P : 0 < 2 ^ Z.of_nat n) by (apply pow2_pos; lia).
    assert (Hq : 0 <= shr_m (Nat.iter n shr_1 mrs)).
    { rewrite IHm. apply Z.div_pos; lia. }
    destruct (shr_1_spec _ Hq) as [S1 S2]. split.
    + rewrite S1, IHm, Z.div_div by lia.
      now rewrite Nat2Z.inj_succ, Z.pow_succ_r, (Z.mul_comm 2) by lia.
    + rewrite S2, IHi, IHm, mod_pow2_succ by lia.
      destruct (shr_m mrs mod 2 ^ Z.of_nat n =? 0), (Z.odd (shr_m mrs / 2 ^ Z.of_nat n)),
        (shr_inexact mrs); reflexivity.
Qed.

Lemma shr_spec (M e k : Z) :
  0 <= M ->
  shr_m (fst (shr (shr_record_of_loc M loc_Exact) e k)) = M / 2 ^ Z.max k 0 /\
  snd (shr (shr_record_of_loc M loc_Exact) e k) = e + Z.max k 0 /\
  shr_inexact (fst (shr (shr_record_of_loc M loc_Exact) e k))
  = negb (M mod 2 ^ Z.max k 0 =? 0).
Proof.
  intros HM. destruct k as [|p|p]; cbn [shr fst snd shr_record_of_loc].
  - cbn. rewrite Z.div_1_r, Z.mod_1_r. repeat split. lia.
  - rewrite iter_pos_nat.
    destruct (shr_iter_spec (Pos.to_nat p) (Build_shr_record M false false) HM) as [A B].
    rewrite positive_nat_Z in A, B. cbn [shr_m] in A, B.
    replace (Z.max (Zpos p) 0) with (Zpos p) by lia.
    rewrite A, B. repeat split. now rewrite orb_false_r.
  - cbn. rewrite Z.div_1_r, Z.mod_1_r. repeat split. lia.
Qed.

Lemma rne_spec (mrs : shr_record) :
  shr_m mrs <= round_nearest_even (shr_m mrs) (loc_of_shr_record mrs) <= shr_m mrs + 1 /\
  (shr_inexact mrs = false ->
   round_nearest_even (shr_m mrs) (loc_of_shr_record mrs) = shr_m mrs).
Proof.
  destruct mrs as [m [|] [|]]; cbn; try destruct (Z.even m); split; try lia; discriminate.
Qed.

Lemma digits_le (p : positive) (n : Z) :
  0 <= n -> Zpos p < 2 ^ n -> Zpos (digits2_pos p) <= n.
Proof.
  intros Hn Hlt. destruct (digits2_bounds p) as [L _].
  destruct (Z_le_gt_dec (Zpos (digits2_pos p)) n) as [|Hgt]; [assumption|].
  assert (2 ^ n <= 2 ^ (Zpos (digits2_pos p) - 1)) by (apply Z.pow_le_mono_r; lia).
  lia.
Qed.

Lemma digits_ge (p : positive) (n : Z) :
  0 <= n -> 2 ^ n <= Zpos p -> n + 1 <= Zpos (digits2_pos p).
Proof.
  intros Hn Hle. destruct (digits2_bounds p) as [_ U].
  destruct (Z_le_gt_dec (n + 1) (Zpos (digits2_pos p))) as [|Hgt]; [assumption|].
  assert (2 ^ Zpos (digits2_pos p) <= 2 ^ n) by (apply Z.pow_le_mono_r; lia).
  lia.
Qed.

(** Rounding an exact positive mantissa: the result is the truncated
    mantissa or its successor, in units of the exponent reached. *)
Lemma bra_spec (s : bool) (M e : Z) :
  0 < M ->
  let k := Z.max (fexp prec emax (Zdigits2 M + e) - e) 0 in
  exists q',
    M / 2 ^ k <= q' <= M / 2 ^ k + 1 /\
    (M mod 2 ^ k = 0 -> q' = M / 2 ^ k) /\
    (e + k + 1 <= 971 \/ (M mod 2 ^ k = 0 /\ e + k <= 971) ->
     finite_SF (binary_round_aux prec emax s M e loc_Exact) = true) /\
    (finite_SF (binary_round_aux prec emax s M e loc_Exact) = true ->
     val (binary_round_aux prec emax s M e loc_Exact)
     = cond_Zopp s (q' * 2 ^ (e + k + 1074))).
Proof.
  intros HM k.
  assert (Hk : 0 <= k) by (unfold k; lia).
  assert (P2k : 0 < 2 ^ k) by (apply pow2_pos; lia).
  unfold binary_round_aux, shr_fexp.
  destruct (shr_spec M e (fexp prec emax (Zdigits2 M + e) - e) ltac:(lia)) as (A1 & A2 & A3).
  fold k in A1, A2, A3.
  destruct (shr (shr_record_of_loc M loc_Exact) e (fexp prec emax (Zdigits2 M + e) - e))
    as [mrs' e1]. cbn [fst snd] in A1, A2, A3.
  destruct (rne_spec mrs') as [R1 R2].
  set (q' := round_nearest_even (shr_m mrs') (loc_of_shr_record mrs')) in *.
  rewrite A1 in R1, R2.
  assert (Hq : 0 <= M / 2 ^ k) by (apply Z.div_pos; lia).
  exists q'. split; [exact R1|]. split.
  { intros Hex. apply R2. rewrite A3, Hex. reflexivity. }
  destruct (shr_spec q' e1 (fexp prec emax (Zdigits2 q' + e1) - e1) ltac:(lia)) as (B1 & B2 & _).
  destruct (shr (shr_record_of_loc q' loc_Exact) e1 (fexp prec emax (Zdigits2 q' + e1) - e1))
    as [mrs'' e2]. cbn [fst snd] in B1, B2.
  set (k2 := Z.max (fexp prec emax (Zdigits2 q' + e1) - e1) 0) in *.
  (* the truncated mantissa has at most 53 bits *)
  assert (Hq53 : M / 2 ^ k < 2 ^ 53).
  { apply Z.div_lt_upper_bound; [lia|].
    destruct M as [|pM|pM]; try lia. cbn [Zdigits2] in k.
    destruct (digits2_bounds pM) as [_ U].
    eapply Z.lt_le_trans; [exact U|].
    rewrite <- Z.pow_add_r by lia. apply Z.pow_le_mono_r; [lia|].
    unfold k. rewrite fexp_eq. lia. }
  destruct q' as [|p'|p'] eqn:Eq'; [| |lia].
  - (* the mantissa rounds to zero *)
    rewrite B1, Z.div_0_l by (apply Z.pow_nonzero; unfold k2; lia).
    split; [reflexivity|]. intros _. cbn [val]. destruct s; reflexivity.
  - assert (Hd' : Zpos (digits2_pos p') <= 54).
    { apply digits_le; [lia|]. change (2 ^ 54) with (2 * 2 ^ 53). lia. }
    assert (He1 : -1074 <= e1).
    { rewrite A2. unfold k. rewrite fexp_eq. lia. }
    assert (Hk2 : k2 = 0 \/ (k2 = 1 /\ Zpos p' = 2 ^ 53)).
    { unfold k2. cbn [Zdigits2]. rewrite fexp_eq.
      destruct (Z.eq_dec (Zpos (digits2_pos p')) 54) as [E54|N54].
      - right. split; [lia|].
        destruct (digits2_bounds p') as [L _]. rewrite E54 in L.
        change (2 ^ (54 - 1)) with (2 ^ 53) in L. lia.
      - left. lia. }
    assert (Hm'' : Zpos p' = (Zpos p' / 2 ^ k2) * 2 ^ k2 /\ 0 < Zpos p' / 2 ^ k2).
    { destruct Hk2 as [->|[-> ->]].
      - rewrite Z.pow_0_r, Z.div_1_r. lia.
      - change (2 ^ 53 / 2 ^ 1) with (2 ^ 52). change (2 ^ 52 * 2 ^ 1) with (2 ^ 53).
        split; [reflexivity|]. apply pow2_pos. lia. }
    destruct Hm'' as [Hm1 Hm2].
    rewrite B1. destruct (Zpos p' / 2 ^ k2) as [|m''|m''] eqn:Em''; try lia.
    change (emax - prec) with 971. split.
    + intros Hover. assert (Hfin : (e2 <=? 971) = true); [|now rewrite Hfin].
      apply Z.leb_le. destruct Hover as [Hover|[Hex Hover]]; [lia|].
      specialize (R2 ltac:(rewrite A3, Hex; reflexivity)). lia.
    + destruct (e2 <=? 971); [|discriminate]. intros _. cbn [val]. f_equal.
      rewrite B2, A2, Hm1.
      replace (e + k + k2 + 1074) with (k2 + (e + k + 1074)) by lia.
      rewrite Z.pow_add_r by lia. ring.
Qed.

Lemma iter_xO_value (m d : positive) :
  Zpos (Pos.iter xO m d) = Zpos m * 2 ^ Zpos d /\
  Zpos (digits2_pos (Pos.iter xO m d)) = Zpos (digits2_pos m) + Zpos d.
Proof.
  induction d as [|d [IH1 IH2]] using Pos.peano_ind.
  - cbn [Pos.iter digits2_pos]. rewrite Pos2Z.inj_succ. split; [|lia].
    rewrite (Pos2Z.inj_xO m). change (2 ^ 1) with 2. lia.
  - rewrite Pos.iter_succ. cbn [digits2_pos].
    rewrite !Pos2Z.inj_succ, (Pos2Z.inj_xO (Pos.iter xO m d)), IH1, IH2.
    rewrite Z.pow_succ_r by lia. split; lia.
Qed.

(** Rounding of [m * 2^e]: with [u] the unit of the result, the mantissa is
    the quotient of the value by [u] or its successor, and the quotient when
    the division is exact. *)
Lemma br_spec (s : bool) (m : positive) (e : Z) :
  -1074 <= e ->
  let f := fexp prec emax (Zpos (digits2_pos m) + e) in
  let u := 2 ^ (f + 1074) in
  let V := Zpos m * 2 ^ (e + 1074) in
  exists q',
    V / u <= q' <= V / u + 1 /\ (V mod u = 0 -> q' = V / u) /\
    (f + 1 <= 971 -> finite_SF (binary_round prec emax s m e) = true) /\
    (finite_SF (binary_round prec emax s m e) = true ->
     val (binary_round prec emax s m e) = cond_Zopp s (q' * u)).
Proof.
  intros He f u V.
  assert (Hf : -1074 <= f) by (unfold f; rewrite fexp_eq; lia).
  assert (Pe : 0 < 2 ^ (e + 1074)) by (apply pow2_pos; lia).
  unfold binary_round, shl_align. fold f.
  destruct (f - e) as [|d|d] eqn:Ed; cbv beta iota.
  - (* the mantissa is already aligned *)
    destruct (bra_spec s (Zpos m) e ltac:(lia)) as (q' & Q1 & Q2 & Q3 & Q4).
    cbn [Zdigits2] in Q1, Q2, Q3, Q4. fold f in Q1, Q2, Q3, Q4.
    replace (Z.max (f - e) 0) with 0 in * by lia.
    rewrite Z.pow_0_r, Z.div_1_r in Q1, Q2.
    assert (Hu : u = 2 ^ (e + 1074)) by (unfold u; f_equal; lia).
    assert (HV : V / u = Zpos m /\ V mod u = 0).
    { unfold V. rewrite Hu. split; [apply Z.div_mul; lia|apply Z.mod_mul; lia]. }
    destruct HV as [HV1 HV2].
    exists q'. rewrite HV1. split; [lia|]. split.
    { intros _. apply Q2, Z.mod_1_r. }
    split; [intros Hover; apply Q3; lia|]. intros Hfin. rewrite (Q4 Hfin), Hu.
    now replace (e + 0 + 1074) with (e + 1074) by lia.
  - (* the mantissa has more than 53 bits *)
    destruct (bra_spec s (Zpos m) e ltac:(lia)) as (q' & Q1 & Q2 & Q3 & Q4).
    cbn [Zdigits2] in Q1, Q2, Q3, Q4. fold f in Q1, Q2, Q3, Q4.
    replace (Z.max (f - e) 0) with (f - e) in * by lia.
    assert (Pk : 0 < 2 ^ (f - e)) by (apply pow2_pos; lia).
    assert (Hu : u = 2 ^ (f - e) * 2 ^ (e + 1074)).
    { unfold u. rewrite <- Z.pow_add_r by lia. f_equal. lia. }
    assert (HV1 : V / u = Zpos m / 2 ^ (f - e)).
    { unfold V. rewrite Hu. apply Z.div_mul_cancel_r; lia. }
    assert (HV2 : V mod u = (Zpos m mod 2 ^ (f - e)) * 2 ^ (e + 1074)).
    { unfold V. rewrite Hu. apply Z.mul_mod_distr_r; lia. }
    exists q'. rewrite HV1. split; [exact Q1|]. split.
    { intros H0. apply Q2. rewrite HV2 in H0. nia. }
    split; [intros Hover; apply Q3; lia|]. intros Hfin. rewrite (Q4 Hfin). unfold u.
    now replace (e + (f - e) + 1074) with (f + 1074) by lia.
  - (* the mantissa is shifted to the left: the result is exact *)
    destruct (iter_xO_value m d) as [I1 I2].
    assert (Hk0 : fexp prec emax (Zdigits2 (Zpos (Pos.iter xO m d)) + f) - f = 0).
    { cbn [Zdigits2]. rewrite I2.
      replace (Zpos (digits2_pos m) + Zpos d + f) with (Zpos (digits2_pos m) + e) by lia.
      fold f. lia. }
    destruct (bra_spec s (Zpos (Pos.iter xO m d)) f ltac:(lia)) as (q' & Q1 & Q2 & Q3 & Q4).
    rewrite Hk0 in Q1, Q2, Q3, Q4. change (Z.max 0 0) with 0 in Q1, Q2, Q3, Q4.
    rewrite Z.pow_0_r, Z.div_1_r in Q1, Q2.
    specialize (Q2 (Z.mod_1_r _)).
    assert (HV : V = Zpos (Pos.iter xO m d) * u).
    { unfold V, u. rewrite I1, <- Z.mul_assoc, <- Z.pow_add_r by lia.
      do 2 f_equal. lia. }
    assert (Pu : 0 < u) by (apply pow2_pos; lia).
    exists q'. rewrite HV, Z.div_mul, Z.mod_mul by lia.
    split; [lia|]. split; [intros _; exact Q2|].
    split; [intros Hover; apply Q3; lia|]. intros Hfin.
    rewrite (Q4 Hfin), Q2. unfold u.
    now replace (f + 0 + 1074) with (f + 1074) by lia.
Qed.

Lemma pow2_le (a b : Z) : 0 <= a <= b -> 2 ^ a <= 2 ^ b.
Proof. intros. apply Z.pow_le_mono_r; lia. Qed.

(** A positive representable number is a multiple of the unit of every
    exponent up to its own, and is small when its exponent is smaller. *)
Lemma repr_multiple (mT : positive) (eT f : Z) :
  bounded prec emax mT eT = true -> -1074 <= f ->
  (f <= eT -> exists j, Zpos mT * 2 ^ (eT + 1074) = j * 2 ^ (f + 1074)) /\
  (eT < f -> Zpos mT * 2 ^ (eT + 1074) < 2 ^ 52 * 2 ^ (f + 1074)).
Proof.
  intros B Hf. apply bounded_inv in B. destruct B as (R & D & _). split.
  - intros Hle. exists (Zpos mT * 2 ^ (eT - f)).
    rewrite <- Z.mul_assoc, <- Z.pow_add_r by lia. do 2 f_equal. lia.
  - intros Hlt. destruct (digits2_bounds mT) as [_ U].
    assert (U' : Zpos mT < 2 ^ 53).
    { eapply Z.lt_le_trans; [exact U|]. apply pow2_le. lia. }
    assert (P : 0 < 2 ^ (eT + 1074)) by (apply pow2_pos; lia).
    assert (L : 2 * 2 ^ (eT + 1074) <= 2 ^ (f + 1074)).
    { rewrite <- Z.pow_succ_r by lia. apply pow2_le. lia. }
    change (2 ^ 53) with (2 ^ 52 * 2) in U'. nia.
Qed.

Lemma val_pos_inv (w : spec_float) :
  valid_finite w -> 0 < val w ->
  exists mT eT, w = S754_finite false mT eT /\ bounded prec emax mT eT = true.
Proof.
  intros [V F] Hpos. destruct w as [s|s| |s mT eT]; cbn [val] in Hpos; try lia.
  assert (P : 0 < 2 ^ (eT + 1074)).
  { apply pow2_pos. cbn [valid_binary] in V. apply bounded_inv in V. lia. }
  destruct s; cbn [cond_Zopp] in Hpos; [lia|]. now exists mT, eT.
Qed.

(** Rounding does not step over a representable number. *)
Lemma round_no_cross (m : positive) (e q' : Z) (w : spec_float) :
  -1074 <= e ->
  let f := fexp prec emax (Zpos (digits2_pos m) + e) in
  let u := 2 ^ (f + 1074) in
  let V := Zpos m * 2 ^ (e + 1074) in
  V / u <= q' <= V / u + 1 -> (V mod u = 0 -> q' = V / u) ->
  valid_finite w ->
  (V <= val w -> q' * u <= val w) /\ (val w <= V -> val w <= q' * u).
Proof.
  intros He f u V Hq Hex Hw.
  assert (Hf : -1074 <= f) by (unfold f; rewrite fexp_eq; lia).
  assert (Pu : 0 < u) by (apply pow2_pos; lia).
  assert (Pe : 0 < 2 ^ (e + 1074)) by (apply pow2_pos; lia).
  pose proof (Z.div_mod V u ltac:(lia)) as Hdm.
  pose proof (Z.mod_pos_bound V u Pu) as Hr.
  destruct (Z.eq_dec (V mod u) 0) as [E0|N0].
  { specialize (Hex E0). rewrite Hex. split; nia. }
  (* inexact: the value has more than 53 bits *)
  assert (Hfe : e < f).
  { destruct (Z_lt_le_dec e f) as [|Hle]; [assumption|]. exfalso. apply N0.
    unfold V, u. replace (e + 1074) with ((e - f) + (f + 1074)) by lia.
    rewrite Z.pow_add_r, Z.mul_assoc by lia. apply Z.mod_mul. lia. }
  assert (Hfd : f = Zpos (digits2_pos m) + e - 53) by (unfold f in *; rewrite fexp_eq in *; lia).
  assert (HV52 : 2 ^ 52 * u <= V).
  { unfold V, u. destruct (digits2_bounds m) as [L _].
    replace (f + 1074) with ((Zpos (digits2_pos m) - 1 - 52) + (e + 1074)) by lia.
    assert (Hd : 53 < Zpos (digits2_pos m)) by lia.
    rewrite Z.pow_add_r, Z.mul_assoc, <- Z.pow_add_r by lia.
    replace (52 + (Zpos (digits2_pos m) - 1 - 52)) with (Zpos (digits2_pos m) - 1) by lia.
    apply Z.mul_le_mono_nonneg_r; lia. }
  assert (Hq52 : 2 ^ 52 <= V / u).
  { apply Z.div_le_lower_bound; [lia|]. rewrite Z.mul_comm. exact HV52. }
  assert (P52 : 0 < 2 ^ 52) by (apply pow2_pos; lia).
  split; intros HT.
  - destruct (val_pos_inv w Hw ltac:(nia)) as (mT & eT & -> & B).
    cbn [val cond_Zopp] in *.
    destruct (repr_multiple mT eT f B Hf) as [Mul Small].
    destruct (Z_lt_le_dec eT f) as [Hlt|Hle]; [specialize (Small Hlt); fold u in Small; lia|].
    destruct (Mul Hle) as [j Hj]. fold u in Hj. rewrite Hj in *.
    assert (Hqj : V / u < j) by (apply (Z.mul_lt_mono_pos_r u); lia).
    apply Z.mul_le_mono_nonneg_r; lia.
  - destruct (Z_le_gt_dec (val w) (V / u * u)) as [|Hgt]; [nia|].
    destruct (val_pos_inv w Hw ltac:(nia)) as (mT & eT & -> & B).
    cbn [val cond_Zopp] in *.
    destruct (repr_multiple mT eT f B Hf) as [Mul Small].
    destruct (Z_lt_le_dec eT f) as [Hlt|Hle]; [specialize (Small Hlt); fold u in Small; nia|].
    destruct (Mul Hle) as [j Hj]. fold u in Hj. rewrite Hj in *.
    assert (Hqj : V / u < j) by (apply (Z.mul_lt_mono_pos_r u); lia).
    assert (Hjq : j < V / u + 1) by (apply (Z.mul_lt_mono_pos_r u); lia).
    lia.
Qed.

Lemma valid_finite_opp (w : spec_float) :
  valid_finite w -> valid_finite (SFopp w) /\ val (SFopp w) = - val w.
Proof.
  intros [V F]. destruct w as [s|s| |s m e]; try discriminate; cbn; repeat split; trivial.
  destruct s; cbn; lia.
Qed.

(** Normalisation of an exact sum [M * 2^e]. *)
Lemma normalize_spec (M e : Z) :
  -1074 <= e ->
  (Z.abs M * 2 ^ (e + 1074) < 2 ^ 2097 ->
   finite_SF (binary_normalize prec emax M e false) = true) /\
  (finite_SF (binary_normalize prec emax M e false) = true ->
   forall w, valid_finite w ->
     (M * 2 ^ (e + 1074) <= val w -> val (binary_normalize prec emax M e false) <= val w) /\
     (val w <= M * 2 ^ (e + 1074) -> val w <= val (binary_normalize prec emax M e false))).
Proof.
  intros He.
  assert (Pe : 0 < 2 ^ (e + 1074)) by (apply pow2_pos; lia).
  assert (Hover : forall m : positive,
            Zpos m * 2 ^ (e + 1074) < 2 ^ 2097 ->
            fexp prec emax (Zpos (digits2_pos m) + e) + 1 <= 971).
  { intros m Hbound. destruct (digits2_bounds m) as [L _]. rewrite fexp_eq.
    assert (2 ^ (Zpos (digits2_pos m) - 1 + (e + 1074)) < 2 ^ 2097).
    { rewrite Z.pow_add_r by lia. nia. }
    apply Z.pow_lt_mono_r_iff in H; lia. }
  destruct M as [|m|m]; cbn [binary_normalize].
  - split; [reflexivity|]. intros _ w _. cbn [val]. lia.
  - destruct (br_spec false m e He) as (q' & Q1 & Q2 & Q3 & Q4).
    split; [intros Hbound; apply Q3, Hover, Hbound|].
    intros Hfin w Hw. rewrite (Q4 Hfin). cbn [cond_Zopp].
    exact (round_no_cross m e q' w He Q1 Q2 Hw).
  - destruct (br_spec true m e He) as (q' & Q1 & Q2 & Q3 & Q4).
    split; [intros Hbound; apply Q3, Hover, Hbound|].
    intros Hfin w Hw. rewrite (Q4 Hfin). cbn [cond_Zopp].
    destruct (valid_finite_opp w Hw) as [Hw' Hv'].
    destruct (round_no_cross m e q' (SFopp w) He Q1 Q2 Hw') as [C1 C2].
    rewrite Hv' in C1, C2. change (Zneg m) with (- Zpos m). split; intros HT.
    + assert (- val w <= Zpos m * 2 ^ (e + 1074)) by lia. specialize (C2 H). lia.
    + assert (Zpos m * 2 ^ (e + 1074) <= - val w) by lia. specialize (C1 H). lia.
Qed.

Lemma shl_align_fst (m : positive) (e ez : Z) :
  ez <= e -> Zpos (fst (shl_align m e ez)) = Zpos m * 2 ^ (e - ez).
Proof.
  intros Hle. unfold shl_align.
  destruct (ez - e) as [|d|d] eqn:Ed; cbn [fst]; try lia.
  - replace (e - ez) with 0 by lia. cbn. lia.
  - destruct (iter_xO_value m d) as [I _]. rewrite I. do 2 f_equal. lia.
Qed.

Lemma signed_scale (s : bool) (m : positive) (e ez : Z) :
  -1074 <= ez <= e ->
  cond_Zopp s (Zpos m * 2 ^ (e - ez)) * 2 ^ (ez + 1074) = cond_Zopp s (Zpos m * 2 ^ (e + 1074)).
Proof.
  intros H. replace (e + 1074) with ((e - ez) + (ez + 1074)) by lia.
  rewrite (Z.pow_add_r 2 (e - ez) (ez + 1074)) by lia.
  destruct s; cbn [cond_Zopp]; ring.
Qed.

(** Addition of finite numbers whose sum does not overflow: the result is
    finite and not separated from the exact sum by a representable number. *)
Lemma SFadd_spec (x y : spec_float) :
  valid_finite x -> valid_finite y ->
  (Z.abs (val x + val y) < 2 ^ 2097 -> finite_SF (SFadd prec emax x y) = true) /\
  (finite_SF (SFadd prec emax x y) = true ->
   forall w, valid_finite w ->
     (val x + val y <= val w -> val (SFadd prec emax x y) <= val w) /\
     (val w <= val x + val y -> val w <= val (SFadd prec emax x y))).
Proof.
  intros [Vx Fx] [Vy Fy].
  destruct x as [sx|sx| |sx mx ex]; try discriminate;
  destruct y as [sy|sy| |sy my ey]; try discriminate; cbn [SFadd].
  - split; [now destruct sx, sy|]. intros _ w _. destruct sx, sy; cbn [val]; lia.
  - split; [reflexivity|]. intros _ w _. cbn [val]. lia.
  - split; [reflexivity|]. intros _ w _. cbn [val]. lia.
  - cbn [valid_binary] in Vx, Vy.
    pose proof (bounded_inv _ _ Vx) as (Rx & _ & _).
    pose proof (bounded_inv _ _ Vy) as (Ry & _ & _).
    set (ez := Z.min ex ey).
    rewrite !shl_align_fst by (unfold ez; lia).
    set (M := cond_Zopp sx (Zpos mx * 2 ^ (ex - ez)) + cond_Zopp sy (Zpos my * 2 ^ (ey - ez))).
    assert (HM : M * 2 ^ (ez + 1074) = val (S754_finite sx mx ex) + val (S754_finite sy my ey)).
    { unfold M. cbn [val]. rewrite Z.mul_add_distr_r, !signed_scale by (unfold ez; lia).
      reflexivity. }
    assert (Pz : 0 < 2 ^ (ez + 1074)) by (apply pow2_pos; unfold ez; lia).
    destruct (normalize_spec M ez ltac:(unfold ez; lia)) as [N1 N2]. split.
    + intros Hbound. apply N1. rewrite <- HM in Hbound. rewrite Z.abs_mul in Hbound.
      now rewrite (Z.abs_eq (2 ^ (ez + 1074))) in Hbound by lia.
    + intros Hfin w Hw. rewrite <- HM. exact (N2 Hfin w Hw).
Qed.

Lemma half_even_double (z : Z) : half_even (2 * z) = z.
Proof.
  unfold half_even. rewrite Z.even_mul. cbn [Z.even orb].
  rewrite Z.mul_comm. apply Z.div_mul. lia.
Qed.

Lemma half_even_bounds (z : Z) : 2 * half_even z - 1 <= z <= 2 * half_even z + 1.
Proof.
  unfold half_even. pose proof (Z.div_mod z 2 ltac:(lia)).
  pose proof (Z.mod_pos_bound z 2 ltac:(lia)).
  rewrite (Zeven_mod z). destruct (Z.eqb_spec (z mod 2) 0); [lia|].
  destruct (Z.even (z / 2)); lia.
Qed.

Lemma half_even_mono (a b : Z) : a <= b -> half_even a <= half_even b.
Proof.
  intros Hab. destruct (Z.eq_dec a b) as [->|Hne]; [lia|].
  assert (Hlt : a < b) by lia. clear Hab Hne.
  unfold half_even.
  pose proof (Z.div_mod a 2 ltac:(lia)). pose proof (Z.mod_pos_bound a 2 ltac:(lia)).
  pose proof (Z.div_mod b 2 ltac:(lia)). pose proof (Z.mod_pos_bound b 2 ltac:(lia)).
  rewrite (Zeven_mod a), (Zeven_mod b), (Zeven_mod (a / 2)), (Zeven_mod (b / 2)).
  pose proof (Z.div_mod (a / 2) 2 ltac:(lia)). pose proof (Z.mod_pos_bound (a / 2) 2 ltac:(lia)).
  pose proof (Z.div_mod (b / 2) 2 ltac:(lia)). pose proof (Z.mod_pos_bound (b / 2) 2 ltac:(lia)).
  destruct (Z.eqb_spec (a mod 2) 0), (Z.eqb_spec (b mod 2) 0),
    (Z.eqb_spec (a / 2 mod 2) 0), (Z.eqb_spec (b / 2 mod 2) 0); lia.
Qed.

Lemma half_even_opp (z : Z) : half_even (- z) = - half_even z.
Proof.
  unfold half_even.
  pose proof (Z.div_mod z 2 ltac:(lia)). pose proof (Z.mod_pos_bound z 2 ltac:(lia)).
  pose proof (Z.div_mod (- z) 2 ltac:(lia)). pose proof (Z.mod_pos_bound (- z) 2 ltac:(lia)).
  rewrite (Zeven_mod z), (Zeven_mod (- z)), (Zeven_mod (z / 2)), (Zeven_mod (- z / 2)).
  pose proof (Z.div_mod (z / 2) 2 ltac:(lia)). pose proof (Z.mod_pos_bound (z / 2) 2 ltac:(lia)).
  pose proof (Z.div_mod (- z / 2) 2 ltac:(lia)).
  pose proof (Z.mod_pos_bound (- z / 2) 2 ltac:(lia)).
  destruct (Z.eqb_spec (z mod 2) 0), (Z.eqb_spec (- z mod 2) 0),
    (Z.eqb_spec (z / 2 mod 2) 0), (Z.eqb_spec (- z / 2 mod 2) 0); lia.
Qed.


Lemma div_eucl_eq (a b : Z) : Z.div_eucl a b = (a / b, a mod b).
Proof. unfold Z.div, Z.modulo. now destruct (Z.div_eucl a b). Qed.

Lemma cond_Zopp_half (s : bool) (z : Z) :
  cond_Zopp s (half_even z) = half_even (cond_Zopp s z).
Proof. destruct s; cbn [cond_Zopp]; [now rewrite half_even_opp|reflexivity]. Qed.

(** Division by two: exact above the smallest exponent, and rounded to even
    in the last place at the smallest exponent. *)
Lemma SFdiv2_spec (x : spec_float) :
  valid_finite x ->
  finite_SF (SFdiv prec emax x SF_two) = true /\
  val (SFdiv prec emax x SF_two) = half_even (val x).
Proof.
  intros [V F]. destruct x as [s|s| |s m e]; try discriminate.
  - cbn. now destruct s.
  - cbn [valid_binary] in V. pose proof (bounded_inv _ _ V) as (R & D & N).
    cbn [val]. rewrite <- cond_Zopp_half.
    unfold SF_two. cbn [SFdiv]. unfold SFdiv_core_binary.
    change (Zdigits2 4503599627370496) with 53. cbn [Zdigits2].
    rewrite fexp_eq. rewrite xorb_false_r.
    destruct (Z_lt_le_dec (-1074) e) as [Hn|Hs].
    + (* normal numbers: the exponent goes down by one *)
      specialize (N Hn). rewrite N.
      assert (Hhalf : half_even (Zpos m * 2 ^ (e + 1074)) = Zpos m * 2 ^ (e + 1073)).
      { replace (e + 1074) with (Z.succ (e + 1073)) by lia.
        rewrite Z.pow_succ_r by lia.
        replace (Zpos m * (2 * 2 ^ (e + 1073))) with (2 * (Zpos m * 2 ^ (e + 1073))) by ring.
        apply half_even_double. }
      rewrite Hhalf.
      destruct (Z_lt_le_dec e (-1072)) as [H73|H72].
      * assert (e = -1073) by lia. subst e.
        change (Z.min (Z.max (53 + -1073 - (53 + -51) - 53) (-1074)) (-1073 - -51))
          with (-1074).
        change (-1073 - -51 - -1074) with 52. cbv beta iota.
        rewrite Z.shiftl_mul_pow2, div_eucl_eq by lia.
        rewrite Z.div_mul, Z.mod_mul by lia.
        change (new_location 4503599627370496 0) with loc_Exact.
        destruct (bra_spec s (Zpos m) (-1074) ltac:(lia)) as (q' & Q1 & Q2 & Q3 & Q4).
        cbn [Zdigits2] in Q1, Q2, Q3, Q4. rewrite N in Q1, Q2, Q3, Q4.
        change (Z.max (fexp prec emax (53 + -1074) - -1074) 0) with 0 in Q1, Q2, Q3, Q4.
        rewrite Z.pow_0_r, Z.div_1_r in Q1, Q2. specialize (Q2 (Z.mod_1_r _)).
        specialize (Q3 ltac:(lia)). specialize (Q4 Q3).
        split; [exact Q3|]. rewrite Q4, Q2. reflexivity.
      * assert (He' : Z.min (Z.max (53 + e - (53 + -51) - 53) (-1074)) (e - -51) = e - 2) by lia.
        rewrite He'. replace (e - -51 - (e - 2)) with 53 by lia. cbv beta iota.
        rewrite Z.shiftl_mul_pow2, div_eucl_eq by lia.
        replace (Zpos m * 2 ^ 53) with (2 * Zpos m * 4503599627370496) by (change (2 ^ 53) with (2 * 4503599627370496); ring).
        rewrite Z.div_mul, Z.mod_mul by lia.
        change (new_location 4503599627370496 0) with loc_Exact.
        assert (Hd2 : Zdigits2 (2 * Zpos m) = 54).
        { change (2 * Zpos m) with (Zpos m~0). cbn [Zdigits2 digits2_pos].
          rewrite Pos2Z.inj_succ, N. reflexivity. }
        destruct (bra_spec s (2 * Zpos m) (e - 2) ltac:(lia)) as (q' & Q1 & Q2 & Q3 & Q4).
        rewrite Hd2, fexp_eq in Q1, Q2, Q3, Q4.
        replace (Z.max (Z.max (54 + (e - 2) - 53) (-1074) - (e - 2)) 0) with 1 in * by lia.
        change (2 ^ 1) with 2 in Q1, Q2.
        rewrite (Z.mul_comm 2) in Q1, Q2. rewrite Z.div_mul in Q1, Q2 by lia.
        specialize (Q2 (Z.mod_mul (Zpos m) 2 ltac:(lia))).
        specialize (Q3 ltac:(lia)). specialize (Q4 Q3).
        split; [exact Q3|]. rewrite Q4, Q2. do 2 f_equal. f_equal. lia.
    + (* the smallest exponent: the last bit is rounded away *)
      assert (e = -1074) by lia. subst e.
      assert (He' : Z.min (Z.max (Zpos (digits2_pos m) + -1074 - (53 + -51) - 53) (-1074))
                      (-1074 - -51) = -1074) by lia.
      rewrite He'. change (-1074 - -51 - -1074) with 51. cbv beta iota.
      rewrite Z.shiftl_mul_pow2, div_eucl_eq by lia.
      change (-1074 + 1074) with 0. rewrite Z.pow_0_r, Z.mul_1_r.
      assert (Hq : Zpos m * 2 ^ 51 / 4503599627370496 = Zpos m / 2).
      { change 4503599627370496 with (2 * 2 ^ 51). apply Z.div_mul_cancel_r; lia. }
      assert (Hr : Zpos m * 2 ^ 51 mod 4503599627370496 = (Zpos m mod 2) * 2 ^ 51).
      { change 4503599627370496 with (2 * 2 ^ 51). apply Z.mul_mod_distr_r; lia. }
      rewrite Hq, Hr.
      pose proof (Z.div_mod (Zpos m) 2 ltac:(lia)) as Hdm.
      pose proof (Z.mod_pos_bound (Zpos m) 2 ltac:(lia)) as Hmb.
      assert (Hq52 : Zpos m / 2 < 2 ^ 52).
      { apply Z.div_lt_upper_bound; [lia|]. destruct (digits2_bounds m) as [_ U].
        assert (2 ^ Zpos (digits2_pos m) <= 2 ^ 53) by (apply pow2_le; lia).
        change (2 * 2 ^ 52) with (2 ^ 53). lia. }
      assert (Hq0 : 0 <= Zpos m / 2) by (apply Z.div_pos; lia).
      unfold half_even. rewrite (Zeven_mod (Zpos m)).
      destruct (Z.eqb_spec (Zpos m mod 2) 0) as [Ev|Od].
      * (* even mantissa: exact *)
        rewrite Ev. change (0 * 2 ^ 51) with 0.
        change (new_location 4503599627370496 0) with loc_Exact.
        destruct (Zpos m / 2) as [|q|q] eqn:Eq; try lia.
        assert (Hdq : Zpos (digits2_pos q) <= 52) by (apply digits_le; lia).
        destruct (bra_spec s (Zpos q) (-1074) ltac:(lia)) as (q' & Q1 & Q2 & Q3 & Q4).
        cbn [Zdigits2] in Q1, Q2, Q3, Q4. rewrite fexp_eq in Q1, Q2, Q3, Q4.
        replace (Z.max (Z.max (Zpos (digits2_pos q) + -1074 - 53) (-1074) - -1074) 0)
          with 0 in * by lia.
        rewrite Z.pow_0_r, Z.div_1_r in Q1, Q2. specialize (Q2 (Z.mod_1_r _)).
        specialize (Q3 ltac:(lia)). specialize (Q4 Q3).
        split; [exact Q3|]. rewrite Q4, Q2. cbn. now rewrite Pos.mul_1_r.
      * (* odd mantissa: a tie, rounded to even *)
        assert (Hm1 : Zpos m mod 2 = 1) by lia. rewrite Hm1.
        change (new_location 4503599627370496 (1 * 2 ^ 51)) with (loc_Inexact Eq).
        unfold binary_round_aux, shr_fexp.
        assert (Hk : forall q, 0 <= q <= 2 ^ 52 ->
                       fexp prec emax (Zdigits2 q + -1074) - -1074 = 0).
        { intros q Hq'. rewrite fexp_eq. destruct q as [|q|q]; cbn [Zdigits2]; try lia.
          assert (Zpos (digits2_pos q) <= 53).
          { apply digits_le; [lia|]. change (2 ^ 53) with (2 * 2 ^ 52). lia. }
          lia. }
        rewrite (Hk (Zpos m / 2)) by lia. cbn [shr shr_record_of_loc shr_m loc_of_shr_record].
        cbn [round_nearest_even].
        set (q'' := if Z.even (Zpos m / 2) then Zpos m / 2 else Zpos m / 2 + 1).
        assert (Hq'' : 0 <= q'' <= 2 ^ 52) by (unfold q''; destruct (Z.even (Zpos m / 2)); lia).
        rewrite (Hk q'') by lia. cbn [shr shr_record_of_loc shr_m].
        destruct q'' as [|p|p] eqn:E''; try lia.
        -- split; [reflexivity|]. cbn [val]. now destruct s.
        -- change (-1074 <=? emax - prec) with true. cbv iota.
           split; [reflexivity|]. cbn [val]. change (-1074 + 1074) with 0.
           now rewrite Z.pow_0_r, Z.mul_1_r.
Qed.

Lemma SFcompare_refl (X : spec_float) :
  X <> S754_nan -> SFcompare X X = Some Eq.
Proof.
  destruct X as [s|s| |s m e]; intros H; try congruence; cbn.
  - reflexivity.
  - now destruct s.
  - destruct s; rewrite Z.compare_refl;
      change (Pos.compare_cont Eq m m) with (Pos.compare m m);
      now rewrite Pos.compare_refl.
Qed.

Lemma is_nan_spec (x : float) :
  is_nan x = match Prim2SF x with S754_nan => true | _ => false end.
Proof.
  unfold is_nan. rewrite FloatAxioms.eqb_spec. unfold SFeqb.
  destruct (Prim2SF x) as [s|s| |s m e] eqn:E; try reflexivity;
    now rewrite SFcompare_refl.
Qed.

Lemma is_finite_spec (x : float) : is_finite x = finite_SF (Prim2SF x).
Proof.
  unfold is_finite, is_infinity. rewrite is_nan_spec, FloatAxioms.eqb_spec, abs_spec.
  change (Prim2SF infinity) with (S754_infinity false).
  destruct (Prim2SF x) as [s|s| |s m e]; reflexivity.
Qed.

Lemma finite_valid (x : float) :
  is_finite x = true -> valid_finite (Prim2SF x).
Proof. intros H. split; [apply Prim2SF_valid|now rewrite <- is_finite_spec]. Qed.

Lemma leb_value (x y : float) :
  is_finite x = true -> is_finite y = true ->
  (x <=? y)%float = (value_of x <=? value_of y).
Proof.
  intros Fx Fy. rewrite FloatAxioms.leb_spec. unfold SFleb, value_of.
  rewrite (val_compare _ _ (finite_valid x Fx) (finite_valid y Fy)).
  unfold Z.leb. now destruct (Z.compare (val (Prim2SF x)) (val (Prim2SF y))).
Qed.

Lemma ltb_value (x y : float) :
  is_finite x = true -> is_finite y = true ->
  (x <? y)%float = (value_of x <? value_of y).
Proof.
  intros Fx Fy. rewrite FloatAxioms.ltb_spec. unfold SFltb, value_of.
  rewrite (val_compare _ _ (finite_valid x Fx) (finite_valid y Fy)).
  reflexivity.
Qed.

Lemma eqb_value (x y : float) :
  is_finite x = true -> is_finite y = true ->
  (x =? y)%float = (value_of x =? value_of y).
Proof.
  intros Fx Fy. rewrite FloatAxioms.eqb_spec. unfold SFeqb, value_of.
  rewrite (val_compare _ _ (finite_valid x Fx) (finite_valid y Fy)).
  destruct (Z.compare_spec (val (Prim2SF x)) (val (Prim2SF y))) as [E|L|G].
  - rewrite E. symmetry. apply Z.eqb_refl.
  - symmetry. apply Z.eqb_neq. lia.
  - symmetry. apply Z.eqb_neq. lia.
Qed.

(** The double of a representable number that is not too large is
    representable. *)
Lemma double_repr (X : spec_float) :
  valid_finite X -> Z.abs (val X) < 2 ^ 2096 ->
  exists w, valid_finite w /\ val w = 2 * val X.
Proof.
  intros [V F] Hb. destruct X as [s|s| |s m e]; try discriminate.
  - exists (S754_zero s). repeat split.
  - cbn [valid_binary] in V. pose proof (bounded_inv _ _ V) as (R & D & N).
    assert (P : 0 < 2 ^ (e + 1074)) by (apply pow2_pos; lia).
    assert (Hv : Z.abs (val (S754_finite s m e)) = Zpos m * 2 ^ (e + 1074)).
    { cbn [val]. destruct s; cbn [cond_Zopp]; lia. }
    rewrite Hv in Hb. destruct (digits2_bounds m) as [L U].
    destruct (Z.eq_dec (Zpos (digits2_pos m)) 53) as [E53|N53].
    + (* 53 bits: the exponent goes up *)
      assert (He : e + 1 <= 971).
      { rewrite E53 in L. change (2 ^ (53 - 1)) with (2 ^ 52) in L.
        assert (2 ^ (52 + (e + 1074)) < 2 ^ 2096).
        { rewrite Z.pow_add_r by lia. nia. }
        apply Z.pow_lt_mono_r_iff in H; lia. }
      exists (S754_finite s m (e + 1)). split; [split|].
      * cbn [valid_binary]. apply bounded_intro; lia.
      * reflexivity.
      * cbn [val]. replace (e + 1 + 1074) with (Z.succ (e + 1074)) by lia.
        rewrite Z.pow_succ_r by lia. destruct s; cbn [cond_Zopp]; ring.
    + (* fewer bits: the mantissa doubles *)
      assert (e = -1074) by lia. subst e.
      exists (S754_finite s m~0 (-1074)). split; [split|].
      * cbn [valid_binary]. apply bounded_intro; cbn [digits2_pos];
          rewrite ?Pos2Z.inj_succ; lia.
      * reflexivity.
      * cbn [val]. rewrite (Pos2Z.inj_xO m). destruct s; cbn [cond_Zopp]; ring.
Qed.

Lemma SF_two_eq : Prim2SF 2 = SF_two.
Proof. reflexivity. Qed.

(** The midpoint of a bracket, as the solver computes it, lies in the
    bracket. *)
Lemma midpoint_between (lo hi : float) :
  is_finite lo = true -> is_finite hi = true ->
  value_of lo <= value_of hi ->
  Z.abs (value_of lo) < 2 ^ 2096 -> Z.abs (value_of hi) < 2 ^ 2096 ->
  is_finite ((lo + hi) / 2) = true /\
  value_of lo <= value_of ((lo + hi) / 2) <= value_of hi.
Proof.
  intros Flo Fhi Hle Blo Bhi. unfold value_of in *.
  pose proof (finite_valid lo Flo) as Vlo. pose proof (finite_valid hi Fhi) as Vhi.
  destruct (SFadd_spec _ _ Vlo Vhi) as [Fsum Hsum].
  specialize (Fsum ltac:(lia)). specialize (Hsum Fsum).
  destruct (double_repr _ Vlo Blo) as (wlo & Hwlo & Elo).
  destruct (double_repr _ Vhi Bhi) as (whi & Hwhi & Ehi).
  destruct (Hsum wlo Hwlo) as [_ Lo]. destruct (Hsum whi Hwhi) as [Hi _].
  specialize (Lo ltac:(lia)). specialize (Hi ltac:(lia)).
  assert (Vsum : valid_finite (Prim2SF (lo + hi))).
  { split; [apply Prim2SF_valid|]. rewrite add_spec. exact Fsum. }
  destruct (SFdiv2_spec _ Vsum) as [Fmid Hmid].
  rewrite is_finite_spec, div_spec, SF_two_eq. split; [exact Fmid|].
  unfold SF64div. rewrite Hmid, add_spec.
  rewrite Elo in Lo. rewrite Ehi in Hi.
  apply half_even_mono in Lo. apply half_even_mono in Hi.
  rewrite half_even_double in Lo, Hi. unfold SF64add. lia.
Qed.

(** Equal non-zero values have equal representations. *)
Lemma valid_val_inj (A B : spec_float) :
  valid_finite A -> valid_finite B -> val A = val B -> val A <> 0 -> A = B.
Proof.
  intros HA HB Heq Hnz.
  pose proof (val_compare A B HA HB) as Hc. rewrite Heq, Z.compare_refl in Hc.
  destruct HA as [VA FA], HB as [VB FB].
  destruct A as [sA|sA| |sA mA eA]; try discriminate; cbn [val] in Hnz; try lia.
  destruct B as [sB|sB| |sB mB eB]; try discriminate; cbn [val] in Heq.
  - rewrite <- Heq in Hnz. cbn [val] in Hnz. lia.
  - cbn [SFcompare] in Hc.
    destruct sA, sB; try discriminate Hc; injection Hc as Hc;
      destruct (Z.compare_spec eA eB) as [->|L|G]; try discriminate Hc;
      change (Pos.compare_cont Eq mA mB) with (Pos.compare mA mB) in Hc.
    + destruct (Pos.compare_spec mA mB) as [->|L|G]; [reflexivity|discriminate..].
    + apply Pos.compare_eq in Hc. now subst.
Qed.

Lemma digits_mul_pow2 (m : positive) (n : Z) (P : positive) :
  0 <= n -> Zpos P = Zpos m * 2 ^ n ->
  Zpos (digits2_pos P) = Zpos (digits2_pos m) + n.
Proof.
  intros Hn HP. destruct (digits2_bounds m) as [L U].
  assert (Pn : 0 < 2 ^ n) by (apply pow2_pos; lia).
  assert (L' : 2 ^ (Zpos (digits2_pos m) - 1 + n) <= Zpos P).
  { rewrite Z.pow_add_r, HP by lia. apply Z.mul_le_mono_nonneg_r; lia. }
  assert (U' : Zpos P < 2 ^ (Zpos (digits2_pos m) + n)).
  { rewrite Z.pow_add_r, HP by lia. apply Z.mul_lt_mono_pos_r; lia. }
  apply digits_ge in L'; [|lia]. apply digits_le in U'; [|lia]. lia.
Qed.

End FloatSpecification.
(** ** Facts on JavaScript numbers *)

(** Multiplying by one changes nothing. *)
Lemma mul_1_r (x : float) : x * 1 = x.
Proof.
  apply Prim2SF_inj.
  pose proof (Prim2SF_valid (x * 1)) as Vr. pose proof (Prim2SF_valid x) as Vx.
  rewrite mul_spec in *.
  change (Prim2SF 1) with (S754_finite false 4503599627370496 (-52)) in *.
  destruct (Prim2SF x) as [s|s| |s m e]; cbn [SF64mul SFmul] in *;
    rewrite ?xorb_false_r in *; try reflexivity.
  cbn [valid_binary] in Vx. pose proof (bounded_inv _ _ Vx) as (R & D & N).
  assert (HP : Zpos (m * 4503599627370496) = (Zpos m * 2 ^ 52)%Z) by (now rewrite Pos2Z.inj_mul).
  pose proof (digits_mul_pow2 m 52 _ ltac:(lia) HP) as Hd.
  destruct (bra_spec s (Zpos (m * 4503599627370496)) (e + -52) ltac:(lia))
    as (q' & Q1 & Q2 & Q3 & Q4).
  cbn [Zdigits2] in Q1, Q2, Q3, Q4. rewrite Hd, fexp_eq in Q1, Q2, Q3, Q4.
  replace (Z.max (Z.max (Zpos (digits2_pos m) + 52 + (e + -52) - 53) (-1074) - (e + -52)) 0)
    with 52%Z in * by lia.
  rewrite HP in Q1, Q2, Q3.
  rewrite Z.div_mul in Q1, Q2 by lia. specialize (Q2 (Z.mod_mul (Zpos m) (2 ^ 52) ltac:(lia))).
  specialize (Q3 ltac:(right; split; [apply Z.mod_mul|]; lia)). specialize (Q4 Q3).
  apply valid_val_inj.
  - split; assumption.
  - split; [exact Vx|reflexivity].
  - rewrite Q4, Q2. cbn [val]. do 2 f_equal. f_equal. lia.
  - rewrite Q4, Q2. assert (0 < 2 ^ (e + -52 + 52 + 1074))%Z by (apply pow2_pos; lia).
    destruct s; cbn [cond_Zopp]; lia.
Qed.

Lemma eqb_zero_inv (x : float) :
  (x =? 0) = true -> x = 0 \/ x = -0.
Proof.
  rewrite FloatAxioms.eqb_spec. change (Prim2SF 0) with (S754_zero false).
  intros H. rewrite <- (SF2Prim_Prim2SF x).
  destruct (Prim2SF x) as [[|]|[|]| |[|] m e]; cbn in H; try discriminate; auto.
Qed.

(** Zero times a finite number is a zero, and adding a zero to one gives one. *)
Lemma one_plus_zero_times (s : float) :
  is_finite s = true -> 1 + 0 * s = 1.
Proof.
  intros Fs. apply Prim2SF_inj. rewrite add_spec, mul_spec.
  rewrite is_finite_spec in Fs.
  change (Prim2SF 0) with (S754_zero false).
  change (Prim2SF 1) with (S754_finite false 4503599627370496 (-52)).
  destruct (Prim2SF s) as [[|]|[|]| |[|] m e]; try discriminate; reflexivity.
Qed.

Lemma finite_not_nan (x : float) : is_finite x = true -> is_nan x = false.
Proof.
  unfold is_finite. destruct (is_nan x); [discriminate|reflexivity].
Qed.

(** [Math.max] and [Math.min] of finite numbers. *)
Lemma Math_max_finite (x y : float) :
  is_finite x = true -> is_finite y = true ->
  (Math_max x y = x \/ Math_max x y = y) /\
  value_of (Math_max x y) = Z.max (value_of x) (value_of y).
Proof.
  intros Fx Fy. unfold Math_max.
  rewrite (finite_not_nan x Fx), (finite_not_nan y Fy). cbn [orb].
  rewrite !ltb_value by assumption.
  destruct (Z.ltb_spec (value_of x) (value_of y)).
  - split; [now right|lia].
  - destruct (Z.ltb_spec (value_of y) (value_of x)).
    + split; [now left|lia].
    + destruct (get_sign x); split; auto; lia.
Qed.

Lemma Math_min_finite (x y : float) :
  is_finite x = true -> is_finite y = true ->
  (Math_min x y = x \/ Math_min x y = y) /\
  value_of (Math_min x y) = Z.min (value_of x) (value_of y).
Proof.
  intros Fx Fy. unfold Math_min.
  rewrite (finite_not_nan x Fx), (finite_not_nan y Fy). cbn [orb].
  rewrite !ltb_value by assumption.
  destruct (Z.ltb_spec (value_of x) (value_of y)).
  - split; [now left|lia].
  - destruct (Z.ltb_spec (value_of y) (value_of x)).
    + split; [now right|lia].
    + destruct (get_sign x); split; auto; lia.
Qed.

(** [clamp] of finite numbers is one of its arguments, within the bounds. *)
Lemma clamp_finite (v a b : float) :
  is_finite v = true -> is_finite a = true -> is_finite b = true ->
  (value_of a <= value_of b)%Z ->
  (V1.clamp v a b = v \/ V1.clamp v a b = a \/ V1.clamp v a b = b) /\
  is_finite (V1.clamp v a b) = true /\
  (value_of a <= value_of (V1.clamp v a b) <= value_of b)%Z.
Proof.
  intros Fv Fa Fb Hab. unfold V1.clamp.
  destruct (Math_max_finite a v Fa Fv) as [Hmax Vmax].
  assert (Fmax : is_finite (Math_max a v) = true) by (destruct Hmax as [-> | ->]; assumption).
  destruct (Math_min_finite b (Math_max a v) Fb Fmax) as [Hmin Vmin].
  split; [|split].
  - destruct Hmin as [-> | ->]; [tauto|]. destruct Hmax as [-> | ->]; tauto.
  - destruct Hmin as [-> | ->]; assumption.
  - rewrite Vmin, Vmax. lia.
Qed.

Lemma V2_clamp_eq (v a b : float) : V2.clamp v a b = V1.clamp v a b.
Proof. reflexivity. Qed.

(** ** Integers *)


Lemma Z2F_value (z : Z) :
  (Z.abs z < 2 ^ 53)%Z ->
  is_finite (Z2F z) = true /\ value_of (Z2F z) = (z * 2 ^ 1074)%Z.
Proof.
  assert (Hpos : forall p, (Zpos p < 2 ^ 53)%Z ->
            finite_SF (Prim2SF (of_uint63 (Uint63.of_Z (Zpos p)))) = true /\
            val (Prim2SF (of_uint63 (Uint63.of_Z (Zpos p)))) = (Zpos p * 2 ^ 1074)%Z).
  { intros p Hp. rewrite of_uint63_spec, Uint63.of_Z_spec.
    rewrite Z.mod_small by (change Uint63.wB with (2 ^ 63)%Z; lia).
    cbn [binary_normalize].
    assert (Hd : (Zpos (digits2_pos p) <= 53)%Z) by (apply digits_le; lia).
    destruct (digits2_bounds p) as [_ U].
    destruct (br_spec false p 0 ltac:(lia)) as (q' & Q1 & Q2 & Q3 & Q4).
    rewrite fexp_eq in Q1, Q2, Q3, Q4. cbn [cond_Zopp] in Q4.
    specialize (Q3 ltac:(lia)). specialize (Q4 Q3).
    change (0 + 1074)%Z with 1074%Z in Q1, Q2, Q4.
    set (f := Z.max (Zpos (digits2_pos p) + 0 - 53) (-1074)) in *.
    assert (Hf : (-1074 <= f <= 0)%Z) by (unfold f; lia).
    assert (Pu : (0 < 2 ^ (f + 1074))%Z) by (apply pow2_pos; lia).
    assert (HV : (Zpos p * 2 ^ 1074 = Zpos p * 2 ^ (- f) * 2 ^ (f + 1074))%Z).
    { rewrite <- Z.mul_assoc, <- Z.pow_add_r by lia. do 2 f_equal. lia. }
    rewrite HV in Q1, Q2. rewrite Z.div_mul in Q1, Q2 by lia.
    specialize (Q2 (Z.mod_mul (Zpos p * 2 ^ (- f)) (2 ^ (f + 1074)) ltac:(lia))).
    split; [exact Q3|]. rewrite Q4, Q2. lia. }
  intros Hz. unfold value_of. rewrite is_finite_spec.
  destruct z as [|p|p]; cbn [Z2F].
  - split; reflexivity.
  - apply Hpos. lia.
  - rewrite opp_spec. destruct (Hpos p ltac:(lia)) as [F V].
    destruct (valid_finite_opp (Prim2SF (of_uint63 (Uint63.of_Z (Zpos p)))))
      as [[_ F'] V'].
    { split; [apply Prim2SF_valid|exact F]. }
    split; [exact F'|]. rewrite V', V. lia.
Qed.

Lemma Z2F_integral (z : Z) : (Z.abs z < 2 ^ 53)%Z -> integral (Z2F z).
Proof. intros H. destruct (Z2F_value z H) as [F V]. split; [exact F|now exists z]. Qed.

(** [Math.round] of a finite number is an integer. *)
Lemma Math_round_integral (v : float) : is_finite v = true -> integral (Math_round v).
Proof.
  intros Fv. unfold Math_round.
  pose proof (Prim2SF_valid v) as Vv.
  destruct (Prim2SF v) as [s|s| |s m e] eqn:E.
  - split; [exact Fv|]. exists 0%Z. unfold value_of. now rewrite E.
  - rewrite is_finite_spec, E in Fv. discriminate.
  - rewrite is_finite_spec, E in Fv. discriminate.
  - cbn [valid_binary] in Vv. pose proof (bounded_inv _ _ Vv) as (R & D & N).
    destruct (Z.leb_spec 0 e) as [Hpos|Hneg].
    + split; [exact Fv|]. exists (cond_Zopp s (Zpos m * 2 ^ e)).
      unfold value_of. rewrite E. cbn [val].
      rewrite Z.pow_add_r by lia. destruct s; cbn [cond_Zopp]; ring.
    + set (z := ((cond_Zopp s (2 * Zpos m) + 2 ^ (- e)) / 2 ^ (1 - e))%Z).
      assert (Hz : (Z.abs z < 2 ^ 53)%Z).
      { destruct (digits2_bounds m) as [_ U].
        assert (Hm : (Zpos m < 2 ^ 53)%Z).
        { eapply Z.lt_le_trans; [exact U|]. apply pow2_le. lia. }
        assert (Hden : (2 <= 2 ^ (- e))%Z).
        { change 2%Z with (2 ^ 1)%Z at 1. apply pow2_le. lia. }
        assert (H2 : (2 ^ (1 - e) = 2 * 2 ^ (- e))%Z).
        { replace (1 - e)%Z with (Z.succ (- e)) by lia. apply Z.pow_succ_r. lia. }
        assert (Hup : (z < 2 ^ 53)%Z).
        { unfold z. apply Z.div_lt_upper_bound; [lia|]. rewrite H2.
          destruct s; cbn [cond_Zopp]; nia. }
        assert (Hlo : (- 2 ^ 53 < z)%Z).
        { unfold z. apply Z.lt_le_trans with (- 2 ^ 53 + 1)%Z; [lia|].
          apply Z.div_le_lower_bound; [lia|]. rewrite H2.
          destruct s; cbn [cond_Zopp]; nia. }
        lia. }
      fold z. destruct z as [|p|p] eqn:Ez.
      * destruct s; split; try reflexivity; exists 0%Z; reflexivity.
      * apply Z2F_integral. exact Hz.
      * apply Z2F_integral. exact Hz.
Qed.

Lemma n_finite {rt : JSRuntime} (x : value) (fallback : float) :
  is_finite fallback = true -> is_finite (V1.n x fallback) = true.
Proof.
  intros Ff. unfold V1.n, Number_isFinite.
  destruct x as [v|s].
  - destruct (is_finite (if is_zero v then PrimFloat.zero else v)) eqn:E; assumption.
  - destruct (is_finite (Number_parse (V1.replace_comma s))) eqn:E; assumption.
Qed.

Lemma int_integral {rt : JSRuntime} (x : value) (fallback : float) :
  integral fallback -> integral (V1.int x fallback).
Proof.
  intros Hf. unfold V1.int, Number_isFinite.
  destruct (is_finite (Math_round (V1.n x fallback))) eqn:E; [|exact Hf].
  apply Math_round_integral, n_finite. apply Hf.
Qed.

(** An integer between [lo] and [hi], themselves small integers, is the
    image of an integer between them. *)
Lemma integral_range (y : float) (lo hi : Z) :
  (0 < lo <= hi)%Z -> (hi < 2 ^ 53)%Z ->
  integral y -> (value_of (Z2F lo) <= value_of y <= value_of (Z2F hi))%Z ->
  exists k : Z, (lo <= k <= hi)%Z /\ y = Z2F k.
Proof.
  intros Hlo Hhi [Fy [z Hz]] Hr.
  destruct (Z2F_value lo ltac:(lia)) as [_ Vlo].
  destruct (Z2F_value hi ltac:(lia)) as [_ Vhi].
  rewrite Vlo, Vhi, Hz in Hr.
  assert (P : (0 < 2 ^ 1074)%Z) by (apply pow2_pos; lia).
  assert (Hk : (lo <= z <= hi)%Z) by nia.
  exists z. split; [exact Hk|].
  destruct (Z2F_value z ltac:(lia)) as [Fz Vz].
  apply Prim2SF_inj. apply valid_val_inj.
  - now apply finite_valid.
  - now apply finite_valid.
  - fold (value_of y). fold (value_of (Z2F z)). lia.
  - fold (value_of y). rewrite Hz. nia.
Qed.

Lemma clamp_integral (v a b : float) :
  integral v -> integral a -> integral b -> (value_of a <= value_of b)%Z ->
  integral (V1.clamp v a b) /\ (value_of a <= value_of (V1.clamp v a b) <= value_of b)%Z.
Proof.
  intros Hv Ha Hb Hab.
  destruct (clamp_finite v a b (proj1 Hv) (proj1 Ha) (proj1 Hb) Hab) as (Hc & _ & Hr).
  split; [|exact Hr]. destruct Hc as [-> | [-> | ->]]; assumption.
Qed.

Lemma shr_record_of_loc_m (m : Z) (l : location) : shr_m (shr_record_of_loc m l) = m.
Proof. now destruct l as [|[| |]]. Qed.

Lemma shr_m_nonneg (mrs : shr_record) (e k : Z) :
  (0 <= shr_m mrs)%Z -> (0 <= shr_m (fst (shr mrs e k)))%Z.
Proof.
  intros Hm. destruct k as [|p|p]; cbn [shr fst]; try assumption.
  rewrite iter_pos_nat. destruct (shr_iter_spec (Pos.to_nat p) mrs Hm) as [-> _].
  apply Z.div_pos; [assumption|]. apply pow2_pos. lia.
Qed.

(** Rounding a mantissa that is not negative gives a number of the sign asked
    for, never NaN. *)
Lemma bra_sign (s : bool) (mx ex : Z) (lx : location) :
  (0 <= mx)%Z ->
  match binary_round_aux prec emax s mx ex lx with
  | S754_zero s' | S754_finite s' _ _ | S754_infinity s' => s' = s
  | S754_nan => False
  end.
Proof.
  intros Hm. unfold binary_round_aux, shr_fexp.
  pose proof (shr_m_nonneg (shr_record_of_loc mx lx) ex
                (fexp prec emax (Zdigits2 mx + ex) - ex)) as H1.
  rewrite shr_record_of_loc_m in H1. specialize (H1 Hm).
  destruct (shr (shr_record_of_loc mx lx) ex (fexp prec emax (Zdigits2 mx + ex) - ex))
    as [mrs' e']. cbn [fst] in H1.
  destruct (rne_spec mrs') as [[R _] _].
  set (q' := round_nearest_even (shr_m mrs') (loc_of_shr_record mrs')) in *.
  pose proof (shr_m_nonneg (shr_record_of_loc q' loc_Exact) e'
                (fexp prec emax (Zdigits2 q' + e') - e')) as H2.
  rewrite shr_record_of_loc_m in H2. specialize (H2 ltac:(lia)).
  destruct (shr (shr_record_of_loc q' loc_Exact) e' (fexp prec emax (Zdigits2 q' + e') - e'))
    as [mrs'' e'']. cbn [fst] in H2.
  destruct (shr_m mrs'') as [|p|p]; [reflexivity| |lia].
  now destruct (e'' <=? emax - prec)%Z.
Qed.

Lemma SFdiv_nonneg (X : spec_float) (md : positive) (ed : Z) :
  nonneg_SF X = true ->
  nonneg_SF (SFdiv prec emax X (S754_finite false md ed)) = true.
Proof.
  intros HX. destruct X as [s|[|]| |[|] mx ex]; try discriminate; cbn [SFdiv xorb].
  - reflexivity.
  - reflexivity.
  - unfold SFdiv_core_binary.
    set (e' := Z.min _ _). set (m' := match (ex - ed - e')%Z with
                                    | Z0 => Zpos mx
                                    | Zpos _ => Z.shiftl (Zpos mx) (ex - ed - e')
                                    | Zneg _ => 0%Z
                                    end).
    assert (Hm' : (0 <= m')%Z).
    { unfold m'. destruct (ex - ed - e')%Z eqn:E; try lia.
      apply Z.shiftl_nonneg. lia. }
    rewrite div_eucl_eq.
    pose proof (bra_sign false (m' / Zpos md) e' (new_location (Zpos md) (m' mod Zpos md))
                  ltac:(apply Z.div_pos; lia)) as Hs.
    destruct (binary_round_aux prec emax false (m' / Zpos md) e'
                (new_location (Zpos md) (m' mod Zpos md))) as [s|s| |s m e];
      try subst s; try reflexivity. contradiction.
Qed.

Lemma finite_nonneg (x : float) :
  is_finite x = true -> (0 <= value_of x)%Z -> nonneg x.
Proof.
  intros Fx Hv. unfold nonneg, value_of in *. rewrite is_finite_spec in Fx.
  pose proof (Prim2SF_valid x) as V.
  destruct (Prim2SF x) as [s|s| |[|] m e]; try discriminate; try reflexivity.
  cbn [val cond_Zopp valid_binary] in *. apply bounded_inv in V.
  assert (0 < 2 ^ (e + 1074))%Z by (apply pow2_pos; lia). lia.
Qed.

Lemma value_of_1 : value_of 1 = (2 ^ 1074)%Z.
Proof. reflexivity. Qed.

Lemma one_plus_positive (c : float) :
  is_finite c = true -> (0 <= value_of c <= value_of 1)%Z ->
  exists m e, Prim2SF (1 + c) = S754_finite false m e.
Proof.
  intros Fc Hc. rewrite value_of_1 in Hc.
  pose proof (finite_valid 1 eq_refl) as V1. pose proof (finite_valid c Fc) as Vc.
  assert (P : (0 < 2 ^ 1074)%Z) by (apply pow2_pos; lia).
  assert (L : (2 * 2 ^ 1074 < 2 ^ 2097)%Z).
  { rewrite <- Z.pow_succ_r by lia. apply Z.pow_lt_mono_r; lia. }
  fold (value_of 1) in *. unfold value_of in Hc.
  destruct (SFadd_spec _ _ V1 Vc) as [Fs Hs].
  specialize (Fs ltac:(change (val (Prim2SF 1)) with (2 ^ 1074)%Z; lia)).
  specialize (Hs Fs).
  destruct (Hs _ V1) as [_ Lo].
  change (val (Prim2SF 1)) with (2 ^ 1074)%Z in Lo. specialize (Lo ltac:(lia)).
  destruct (val_pos_inv (SFadd prec emax (Prim2SF 1) (Prim2SF c))) as (m & e & Heq & _).
  - split; [|exact Fs]. rewrite <- add_spec. apply Prim2SF_valid.
  - lia.
  - exists m, e. now rewrite add_spec.
Qed.

Lemma nonneg_not_nan (x : float) : nonneg x -> is_nan (- x) = false.
Proof.
  unfold nonneg. rewrite is_nan_spec, opp_spec.
  now destruct (Prim2SF x) as [s|[|]| |[|] m e].
Qed.

(** Adding a number to zero gives a number equal to it. *)
Lemma add_0_l_eqb (x : float) : is_nan x = false -> (0 + x =? x) = true.
Proof.
  rewrite is_nan_spec, FloatAxioms.eqb_spec, add_spec.
  change (Prim2SF 0) with (S754_zero false). unfold SFeqb.
  destruct (Prim2SF x) as [[|]|[|]| |s m e] eqn:E; intros H; try discriminate;
    try reflexivity.
  cbn [SF64add SFadd]. now rewrite SFcompare_refl.
Qed.

(** ** The net capital cost is a number *)

Section CapexFacts.
Context {rt : JSRuntime}.

Lemma rate_divisor (r : float) :
  exists m e, Prim2SF (1 + V1.clamp (V1.n (JNum r) 0.19) 0 1) = S754_finite false m e.
Proof.
  destruct (clamp_finite (V1.n (JNum r) 0.19) 0 1) as (_ & F & R);
    try reflexivity; try (apply n_finite; reflexivity).
  - vm_compute. discriminate.
  - apply one_plus_positive; [exact F|]. exact R.
Qed.

Lemma rate_divisor' (r : float) :
  exists m e, Prim2SF (1 + V1.clamp (V1.n (JNum r) 0.05) 0 1) = S754_finite false m e.
Proof.
  destruct (clamp_finite (V1.n (JNum r) 0.05) 0 1) as (_ & F & R);
    try reflexivity; try (apply n_finite; reflexivity).
  - vm_compute. discriminate.
  - apply one_plus_positive; [exact F|]. exact R.
Qed.

Lemma div_nonneg (x d : float) :
  nonneg x -> (exists m e, Prim2SF d = S754_finite false m e) -> nonneg (x / d).
Proof.
  intros Hx (m & e & Hd). unfold nonneg. rewrite div_spec, Hd.
  now apply SFdiv_nonneg.
Qed.

Lemma calcularCapexNeto_nonneg (capex ivaRate arancelRate : float) (iva arancel : bool) :
  nonneg (V1.calcularCapexNeto capex ivaRate arancelRate iva arancel).
Proof.
  unfold V1.calcularCapexNeto.
  assert (H0 : nonneg (Math_max 0 (V1.n (JNum capex) 0))).
  { destruct (Math_max_finite 0 (V1.n (JNum capex) 0) eq_refl) as [Hm Hv].
    { apply n_finite. reflexivity. }
    apply finite_nonneg.
    - destruct Hm as [-> | ->]; [reflexivity|apply n_finite; reflexivity].
    - rewrite Hv. change (value_of 0) with 0%Z. lia. }
  destruct iva, arancel; repeat apply div_nonneg; auto using rate_divisor, rate_divisor'.
Qed.

End CapexFacts.

(** ** Lifetimes: the integers from 1 to 30 *)

Lemma small_range (P : Z -> Prop) (lo : nat) (len : nat) :
  Forall P (map Z.of_nat (seq lo len)) ->
  forall k : Z, (Z.of_nat lo <= k < Z.of_nat (lo + len))%Z -> P k.
Proof.
  intros HF k Hk. rewrite Forall_forall in HF. apply HF.
  rewrite <- (Z2Nat.id k) by lia. apply in_map, in_seq. lia.
Qed.

Lemma lifetime_facts {rt : JSRuntime} (k : Z) :
  (1 <= k <= 30)%Z ->
  loop_count 0 (Z2F k) = S (Z.to_nat k) /\
  loop_count 1 (Z2F k) = Z.to_nat k /\
  new_Array (Z2F k) = Return (Z.to_nat k) /\
  V1.clamp (V1.int (JNum (Z2F k)) 25) 1 30 = Z2F k /\
  Z.to_nat (F2Z (Z2F k + 1)) = S (Z.to_nat k).
Proof.
  intros Hk. pattern k. apply (small_range _ 1 30); [|lia].
  repeat (apply Forall_cons; [vm_compute; auto|]). apply Forall_nil.
Qed.
(** ** The bisection solver *)

Section SolverFacts.
Context {rt : JSRuntime}.



Lemma V2_irr_with_loop (steps : nat) (cashflows : list float) (r : float) :
  V2.irr_with steps cashflows = Some r ->
  V2.irr_loop cashflows steps V2.irr_low V2.irr_high = Some r.
Proof.
  unfold V2.irr_with.
  destruct (negb (existsb (fun x => x <? 0) cashflows)
            || negb (existsb (fun x => 0 <? x) cashflows)); [discriminate|trivial].
Qed.

Lemma V1_irr_loop_of_irr (cashflows : list float) (r : float) :
  V1.irr cashflows = Some r ->
  V1.irr_loop (fun r => V1.npv r cashflows) (V1.npv V1.irr_low cashflows)
    V1.irr_steps V1.irr_low V1.irr_high = Some r.
Proof.
  unfold V1.irr.
  destruct (negb (Number_isFinite (V1.npv V1.irr_low cashflows))
            || negb (Number_isFinite (V1.npv V1.irr_high cashflows))); [discriminate|].
  destruct (0 <? V1.npv V1.irr_low cashflows * V1.npv V1.irr_high cashflows);
    [discriminate|trivial].
Qed.


(** Variants 2 and 3 test the signs of the entries before anything else. *)
Lemma V2_irr_one_sign (steps : nat) (cashflows : list float) :
  existsb (fun x => x <? 0) cashflows = false \/
  existsb (fun x => 0 <? x) cashflows = false ->
  V2.irr_with steps cashflows = None.
Proof.
  unfold V2.irr_with. intros [-> | ->]; simpl; [reflexivity|].
  now rewrite orb_true_r.
Qed.

End SolverFacts.



(** C3: variant 1 has no test of the signs.  On cash flows that are all
    zero, or all positive and tiny, the product [fLow * fHigh] is 0, the
    bracket test passes, the first midpoint meets the tolerance and the
    solver returns 1.025 instead of [null]; the scenario with no plant and
    no costs reports that rate. *)
Lemma V1_irr_without_sign_change :
  let mid := (V1.irr_low + V1.irr_high) / 2 in
  V1.irr (rt := Ref.runtime) [0; 0] = Some mid /\
  V1.irr (rt := Ref.runtime) [1e-200] = Some mid /\
  match V1.computeScenarioModel (rt := Ref.runtime) Examples.idle with
  | Return m =>
      existsb (fun x => (x <? 0) || (0 <? x)) (map V1.Row.neto (V1.Model.rows m)) = false
      /\ V1.Model.tir m = Some mid
  | Throw _ => False
  end.
Proof. vm_compute. auto. Qed.

(** ** Determinism *)

(** C4: with the volatility on, variant 3 draws the tariff noise from
    [Math.random]: two runs on the same scenario and toggles that see
    different draws differ (here in the NPV). *)
Lemma V3_runs_on_same_input_differ :
  let run random :=
    V3.computeScenario (rt := Ref.runtime) random Examples.defaultScenario
      Examples.volatile in
  run (fun _ => 0.25) <> run (fun _ => 0.75).
Proof.
  intros run H.
  apply (f_equal (fun o => match o with
                           | Return m => V3.Model.NPV m <? 270000000
                           | Throw _ => false
                           end)) in H.
  vm_compute in H. discriminate.
Qed.

(** ** Totality *)

(** C5: variants 2 and 3 have no fallback for the lifetime: when it is not a
    number, or is too large for an array length, [new Array(years + 1)]
    throws. *)
Lemma V2_lifetime_unchecked_throws :
  forall rt : JSRuntime,
    V2.computeScenario (rt := rt) (Examples.base nan 64727982 15) Examples.global "A"
    = Throw "RangeError: Invalid array length" /\
    V2.computeScenario (rt := rt) (Examples.base 5000000000 64727982 15) Examples.global "A"
    = Throw "RangeError: Invalid array length" /\
    V3.computeScenario (rt := rt) (fun _ => 0.5) (Examples.base nan 64727982 15)
      Examples.volatile
    = Throw "RangeError: Invalid array length".
Proof. intros rt. repeat split; lazy; reflexivity. Qed.

(** ** First-year return *)

(** C7: variants 2 and 3 divide by the net capital cost without a guard: with
    a capital cost of 0 the first-year return is [Infinity]. *)
Lemma V2_roi1_unguarded :
  match V2.computeScenario (rt := Ref.runtime) (Examples.base 25 0 15)
          Examples.global "B" with
  | Return m => (V2.Model.capexNeto m =? 0) = true /\ V2.Model.roi1 m = infinity
  | Throw _ => False
  end /\
  match V3.computeScenario (rt := Ref.runtime) (fun _ => 0.5) (Examples.base 25 0 15)
          Examples.volatile with
  | Return m => (V3.Model.capexNeto m =? 0) = true /\ V3.Model.roi1 m = infinity
  | Throw _ => False
  end.
Proof. vm_compute. auto. Qed.

(** ** Income-tax deduction *)

(** C8: variants 2 and 3 pay the same benefit in every year of the
    lifetime: with 5 deduction years and a lifetime of 25 years, the years 6
    to 25 carry the benefit of year 1. *)
Lemma V2_tax_benefit_after_window :
  match V2.computeScenario (rt := Ref.runtime) (Examples.base 25 64727982 5)
          Examples.global "B" with
  | Return m =>
      exists b, (0 <? b) = true /\
                map V2.Annual.taxBenefit (V2.Model.annuals m) = repeat b 25
  | Throw _ => False
  end.
Proof. vm_compute. eexists. split; [|reflexivity]. reflexivity. Qed.
(** ** The bracket of the solver *)

Section BracketFacts.
Context {rt : JSRuntime}.


Lemma between_midpoint (L H low high : float) :
  (- 2 ^ 2096 < value_of L)%Z -> (value_of H < 2 ^ 2096)%Z ->
  between L H low -> between L H high -> (value_of low <= value_of high)%Z ->
  between L H ((low + high) / 2) /\
  (value_of low <= value_of ((low + high) / 2) <= value_of high)%Z.
Proof.
  intros BL BH [Flow Rlow] [Fhigh Rhigh] Hle.
  destruct (midpoint_between low high Flow Fhigh Hle ltac:(lia) ltac:(lia)) as [Fmid Rmid].
  split; [split|]; [assumption|lia|assumption].
Qed.

Lemma V1_loop_between (f : float -> float) (fLow : float) (i : nat) :
  forall low high r,
    between V1.irr_low V1.irr_high low -> between V1.irr_low V1.irr_high high ->
    (value_of low <= value_of high)%Z ->
    V1.irr_loop f fLow i low high = Some r ->
    between V1.irr_low V1.irr_high r.
Proof.
  assert (BL : (- 2 ^ 2096 < value_of V1.irr_low)%Z) by (vm_compute; reflexivity).
  assert (BH : (value_of V1.irr_high < 2 ^ 2096)%Z) by (vm_compute; reflexivity).
  induction i as [|i IH]; cbn [V1.irr_loop]; intros low high r Blow Bhigh Hle Hr.
  - injection Hr as <-. now apply between_midpoint.
  - destruct (between_midpoint _ _ _ _ BL BH Blow Bhigh Hle) as [Bmid Rmid].
    destruct (negb (Number_isFinite (f ((low + high) / 2)))); [discriminate|].
    destruct (Math_abs (f ((low + high) / 2)) <? V1.irr_tol).
    + injection Hr as <-. exact Bmid.
    + destruct (fLow * f ((low + high) / 2) <=? 0).
      * apply (IH low ((low + high) / 2)); tauto.
      * apply (IH ((low + high) / 2) high); tauto.
Qed.

Lemma V2_loop_between (cashflows : list float) (i : nat) :
  forall low high r,
    between V2.irr_low V2.irr_high low -> between V2.irr_low V2.irr_high high ->
    (value_of low <= value_of high)%Z ->
    V2.irr_loop cashflows i low high = Some r ->
    between V2.irr_low V2.irr_high r.
Proof.
  assert (BL : (- 2 ^ 2096 < value_of V2.irr_low)%Z) by (vm_compute; reflexivity).
  assert (BH : (value_of V2.irr_high < 2 ^ 2096)%Z) by (vm_compute; reflexivity).
  induction i as [|i IH]; cbn [V2.irr_loop]; intros low high r Blow Bhigh Hle Hr.
  - injection Hr as <-. now apply between_midpoint.
  - destruct (between_midpoint _ _ _ _ BL BH Blow Bhigh Hle) as [Bmid Rmid].
    destruct (Math_abs (V2.npv ((low + high) / 2) cashflows) <? V2.irr_tol).
    + injection Hr as <-. exact Bmid.
    + destruct (0 <? V2.npv ((low + high) / 2) cashflows).
      * apply (IH ((low + high) / 2) high); tauto.
      * apply (IH low ((low + high) / 2)); tauto.
Qed.

Lemma between_leb (L H x : float) :
  is_finite L = true -> is_finite H = true -> between L H x ->
  (L <=? x) = true /\ (x <=? H) = true.
Proof.
  intros FL FH [Fx Rx]. rewrite !leb_value by assumption.
  split; apply Z.leb_le; lia.
Qed.

(** C10 (as amended): a rate returned by the IRR solver lies in the closed
    initial bracket of its variant: it may be an end of the bracket, and is
    never above the upper end. *)
Theorem irr_within_bracket (v : Variant) (cashflows : list float) (r : float) :
  irr_of v cashflows = Some r ->
  (bracket_low v <=? r) = true /\ (r <=? bracket_high v) = true.
Proof.
  destruct v; unfold irr_of, bracket_low, bracket_high; intros H.
  - apply V1_irr_loop_of_irr in H. apply between_leb; try reflexivity.
    apply V1_loop_between in H; [exact H| | |];
      try (split; [reflexivity|vm_compute; split; discriminate]).
    vm_compute. discriminate.
  - apply V2_irr_with_loop in H. apply between_leb; try reflexivity.
    apply V2_loop_between in H; [exact H| | |];
      try (split; [reflexivity|vm_compute; split; discriminate]).
    vm_compute. discriminate.
  - apply V2_irr_with_loop in H. apply between_leb; try reflexivity.
    apply V2_loop_between in H; [exact H| | |];
      try (split; [reflexivity|vm_compute; split; discriminate]).
    vm_compute. discriminate.
Qed.

End BracketFacts.

Lemma irr_within_bracket_witness :
  exists r, irr_of (rt := Ref.runtime) StableNoise [-100; 60; 70] = Some r /\
            (bracket_low StableNoise <=? r) = true /\ (r <=? bracket_high StableNoise) = true.
Proof.
  eexists. split.
  - vm_compute. reflexivity.
  - apply (irr_within_bracket (rt := Ref.runtime) StableNoise [-100; 60; 70]).
    vm_compute. reflexivity.
Defined.

(** C10 (as stated) fails: on the cash flows [-1e12, 4e12] the NPV vanishes
    at the upper end of the bracket of variant 1; the midpoints reach that
    end and the solver returns exactly 3. *)
Lemma irr_reaches_bracket_end :
  irr_of (rt := Ref.runtime) SmartEnergyROIApp [-1000000000000; 4000000000000] = Some 3 /\
  (3 <? bracket_high SmartEnergyROIApp) = false.
Proof. vm_compute. auto. Qed.
(** ** The tariff projector *)

Lemma clamp_zero_volatility (volatility : float) :
  (volatility =? 0) = true -> V1.clamp volatility 0 0.5 = 0.
Proof. intros H. destruct (eqb_zero_inv _ H) as [-> | ->]; reflexivity. Qed.

Section TariffFacts.
Context {rt : JSRuntime}.

(** C9: with a volatility of zero, and a finite sine of the phase of the
    year (as [Math.sin] gives for every cycle length that is a number), the
    cyclical tariff of a year is the escalated tariff of that year; and for
    every parameter set, whatever the volatility, the cycle and the list, a
    year up to 0 has the base tariff in every mode. *)
Theorem tariff_cyclical_without_volatility
    (baseTariff escTarifa : float) (manualList : list float)
    (volatility cycleYears : float) (year : Z) :
  ((volatility =? 0) = true ->
   is_finite (Math_sin ((2 * Math_PI * Z2F (year - 1)) / V1.clamp cycleYears 2 10)) = true ->
   V1.tariffForYear "ciclico" baseTariff escTarifa manualList volatility cycleYears year
   = V1.tariffForYear "escalado" baseTariff escTarifa manualList volatility cycleYears year)
  /\
  forall (mode : string) (base esc : float) (list : list float) (vol cyc : float) (y : Z),
    (y <= 0)%Z -> V1.tariffForYear mode base esc list vol cyc y = base.
Proof.
  split.
  - intros Hvol Hsin.
    unfold V1.tariffForYear. destruct (year <=? 0)%Z; [reflexivity|].
    cbn [String.eqb Ascii.eqb Bool.eqb andb].
    rewrite (clamp_zero_volatility _ Hvol), (one_plus_zero_times _ Hsin).
    apply mul_1_r.
  - intros mode base esc list vol cyc y Hy. unfold V1.tariffForYear.
    apply Z.leb_le in Hy. now rewrite Hy.
Qed.

End TariffFacts.

Lemma tariff_cyclical_without_volatility_witness :
  V1.tariffForYear (rt := Ref.runtime) "ciclico" 850 0.03 [] 0 4 7
  = V1.tariffForYear (rt := Ref.runtime) "escalado" 850 0.03 [] 0 4 7
  /\
  forall (mode : string) (base esc : float) (list : list float) (vol cyc : float) (y : Z),
    (y <= 0)%Z -> V1.tariffForYear (rt := Ref.runtime) mode base esc list vol cyc y = base.
Proof.
  destruct (tariff_cyclical_without_volatility (rt := Ref.runtime) 850 0.03 [] 0 4 7)
    as [Hcyclical Hbefore].
  split; [apply Hcyclical; reflexivity|exact Hbefore].
Defined.
(** ** The ledger *)

Section LedgerFacts.
Context {rt : JSRuntime}.

(** The lifetime is an integer from 1 to 30, whatever the form holds. *)
Lemma vida_range (x : value) :
  exists k : Z, (1 <= k <= 30)%Z /\ V1.clamp (V1.int x 25) 1 30 = Z2F k.
Proof.
  assert (I25 : integral 25) by (apply (Z2F_integral 25); vm_compute; reflexivity).
  assert (I1 : integral 1) by (apply (Z2F_integral 1); vm_compute; reflexivity).
  assert (I30 : integral 30) by (apply (Z2F_integral 30); vm_compute; reflexivity).
  assert (Hab : (value_of 1 <= value_of 30)%Z) by (vm_compute; discriminate).
  destruct (clamp_integral (V1.int x 25) 1 30 (int_integral x 25 I25) I1 I30 Hab) as [Hi Hr].
  apply (integral_range _ 1 30); try lia; assumption.
Qed.

Lemma array_set_length {A : Type} (l : list A) (i : nat) (v : A) :
  List.length (array_set l i v) = List.length l.
Proof.
  revert i. induction l as [|x l IH]; intros [|i]; cbn; auto.
Qed.

Lemma renta_loop_length (cuota topeAnual tasa anos : float) (count : nat) :
  forall y restante out,
    List.length (V1.renta_loop cuota topeAnual tasa anos count y restante out)
    = List.length out.
Proof.
  induction count as [|count IH]; intros y restante out; cbn [V1.renta_loop].
  - reflexivity.
  - destruct ((anos <? Z2F y) || (restante <=? 0)); [reflexivity|].
    now rewrite IH, array_set_length.
Qed.

(** The deduction schedule is computed for every lifetime from 1 to 30. *)
Lemma beneficio_returns (capexNeto : float) (k : Z) (aplica : bool)
    (anosAplicacion ingresoGravableAnual tasaImpuestoRenta : value) :
  (1 <= k <= 30)%Z ->
  exists out,
    V1.beneficioDeduccionRentaPorAno capexNeto (Z2F k) aplica anosAplicacion
      ingresoGravableAnual tasaImpuestoRenta = Return out
    /\ List.length out = Z.to_nat k.
Proof.
  intros Hk. destruct (lifetime_facts k Hk) as (_ & _ & Harr & Hint & _).
  unfold V1.beneficioDeduccionRentaPorAno. rewrite Hint, Harr. cbn [bind].
  destruct aplica; cbn [negb]; eexists; split; try reflexivity.
  - now rewrite renta_loop_length, repeat_length.
  - apply repeat_length.
Qed.

Lemma row_for_acumulado (i : V1.Inputs) (y : Z) (cum : float) :
  V1.Row.acumulado (V1.row_for i y cum) = cum + V1.Row.neto (V1.row_for i y cum).
Proof. unfold V1.row_for. now destruct (y =? 0)%Z. Qed.

Lemma row_for_year (i : V1.Inputs) (y : Z) (cum : float) :
  V1.Row.year (V1.row_for i y cum) = y.
Proof.
  unfold V1.row_for. destruct (Z.eqb_spec y 0) as [->|]; reflexivity.
Qed.

Lemma rows_loop_length (i : V1.Inputs) (count : nat) :
  forall y cum, List.length (V1.rows_loop i count y cum) = count.
Proof.
  induction count as [|count IH]; intros y cum; cbn [V1.rows_loop List.length]; auto.
Qed.

Lemma rows_loop_year (i : V1.Inputs) (count : nat) :
  forall y cum j row,
    nth_error (V1.rows_loop i count y cum) j = Some row ->
    V1.Row.year row = (y + Z.of_nat j)%Z.
Proof.
  induction count as [|count IH]; intros y cum j row H; cbn [V1.rows_loop] in H.
  - now destruct j.
  - destruct j as [|j]; cbn [nth_error] in H.
    + injection H as <-. rewrite row_for_year. cbn. lia.
    + apply IH in H. rewrite H. lia.
Qed.

Lemma rows_loop_chain (i : V1.Inputs) (count : nat) :
  forall y cum j prev row,
    nth_error (V1.rows_loop i count y cum) j = Some prev ->
    nth_error (V1.rows_loop i count y cum) (S j) = Some row ->
    V1.Row.acumulado row = V1.Row.acumulado prev + V1.Row.neto row.
Proof.
  induction count as [|count IH]; intros y cum j prev row Hp Hr; cbn [V1.rows_loop] in *.
  - now destruct j.
  - destruct j as [|j]; cbn [nth_error] in Hp, Hr.
    + injection Hp as <-. destruct count as [|count]; cbn [V1.rows_loop nth_error] in Hr.
      * discriminate.
      * injection Hr as <-. apply row_for_acumulado.
    + exact (IH _ _ _ _ _ Hp Hr).
Qed.

(** Small integers are distinct numbers. *)
Lemma Z2F_inj (a b : Z) :
  (Z.abs a < 2 ^ 53)%Z -> (Z.abs b < 2 ^ 53)%Z -> Z2F a = Z2F b -> a = b.
Proof.
  intros Ha Hb E.
  destruct (Z2F_value a Ha) as [_ Va], (Z2F_value b Hb) as [_ Vb].
  rewrite E, Vb in Va.
  apply Z.mul_reg_r in Va; [congruence|]. apply Z.pow_nonzero; lia.
Qed.

(** A number is [===] to itself unless it is NaN. *)
Lemma eqb_self (x : float) : (x =? x) = negb (is_nan x).
Proof. unfold is_nan. now rewrite negb_involutive. Qed.

(** C1, as the program has it: the scenario computation of
    [SmartEnergyROIApp.jsx] returns, for every scenario record, a ledger of
    lifetime + 1 rows whose years are 0..lifetime, where the lifetime is
    [clamp(int(vida, 25), 1, 30)] of the record (the lifetime given, when it
    is an integer from 1 to 30).  Row 0 has net cash flow minus the net
    capital cost and a cumulative, [0 + neto], equal to it as numbers
    ([===]).  The cumulative of every later row is the cumulative of the row
    before plus its net cash flow, as computed; the two are equal as numbers
    ([===]) exactly when that cumulative is not NaN. *)
Theorem ledger_invariant (s : V1.Scenario.t) :
  exists (m : V1.Model.t) (lifetime : Z),
    V1.computeScenarioModel s = Return m /\
    (1 <= lifetime <= 30)%Z /\
    V1.clamp (V1.int (V1.Scenario.vida s) 25) 1 30 = Z2F lifetime /\
    (forall k : Z, (1 <= k <= 30)%Z -> V1.Scenario.vida s = JNum (Z2F k) -> lifetime = k) /\
    V1.Model.vida m = Z2F lifetime /\
    List.length (V1.Model.rows m) = S (Z.to_nat lifetime) /\
    (forall y row, nth_error (V1.Model.rows m) y = Some row ->
                   V1.Row.year row = Z.of_nat y) /\
    (exists row0,
        nth_error (V1.Model.rows m) 0 = Some row0 /\
        V1.Row.neto row0 = - V1.Model.capexNeto m /\
        V1.Row.acumulado row0 = 0 + V1.Row.neto row0 /\
        (V1.Row.acumulado row0 =? V1.Row.neto row0) = true) /\
    (forall y prev row,
        nth_error (V1.Model.rows m) y = Some prev ->
        nth_error (V1.Model.rows m) (S y) = Some row ->
        V1.Row.acumulado row = V1.Row.acumulado prev + V1.Row.neto row /\
        (V1.Row.acumulado row =? V1.Row.acumulado prev + V1.Row.neto row)
        = negb (is_nan (V1.Row.acumulado row))).
Proof.
  unfold V1.computeScenarioModel.
  destruct (vida_range (V1.Scenario.vida s)) as (k & Hk & Ek). rewrite Ek.
  set (inc := V1.find_incentivo (V1.Scenario.incentivoId s)).
  set (capexNeto := V1.calcularCapexNeto _ _ _ _ _).
  destruct (beneficio_returns capexNeto k (V1.aplicaDeduccionRenta inc)
              (V1.Scenario.anosDeduccionRenta s) (V1.Scenario.ingresoGravableAnual s)
              (V1.Scenario.tasaImpuestoRenta s) Hk) as (ben & -> & _).
  cbn [bind]. destruct (lifetime_facts k Hk) as (-> & _).
  eexists. exists k. split; [reflexivity|]. cbn [V1.Model.vida V1.Model.rows V1.Model.capexNeto].
  split; [exact Hk|]. split; [reflexivity|]. split.
  { intros k' Hk' Evida. rewrite Evida in Ek.
    destruct (lifetime_facts k' Hk') as (_ & _ & _ & Hint & _). rewrite Hint in Ek.
    symmetry. apply Z2F_inj; [lia|lia|exact Ek]. }
  split; [reflexivity|]. split; [apply rows_loop_length|].
  split; [|split].
  - intros y row H. apply rows_loop_year in H. rewrite H. lia.
  - eexists. split; [reflexivity|]. cbn [V1.row_for Z.eqb V1.Row.neto V1.Row.acumulado V1.in_capexNeto].
    split; [reflexivity|]. split; [reflexivity|]. apply add_0_l_eqb, nonneg_not_nan.
    apply calcularCapexNeto_nonneg.
  - intros y prev row Hp Hr.
    pose proof (rows_loop_chain _ _ _ _ _ _ _ Hp Hr) as E.
    split; [exact E|]. rewrite <- E. apply eqb_self.
Qed.

End LedgerFacts.

(** C1 (as stated) fails: with a plant of 1e308 kW and a base tariff of 0
    the energy of year 1 is [Infinity], the savings [Infinity * 0] are NaN,
    and so are the net cash flow and the cumulative of year 1: the
    cumulative is not equal ([===]) to the cumulative of year 0 plus the
    net. *)
Lemma ledger_chain_not_a_number :
  match V1.computeScenarioModel (rt := Ref.runtime) Examples.overflow with
  | Return m =>
      match V1.Model.rows m with
      | row0 :: row1 :: _ =>
          is_nan (V1.Row.acumulado row1) = true /\
          (V1.Row.acumulado row1 =? V1.Row.acumulado row0 + V1.Row.neto row1) = false
      | _ => False
      end
  | Throw _ => False
  end.
Proof. vm_compute. auto. Qed.
(** ** The comparison series *)

(** *** Integers as numbers *)

(** The integer part in terms of the value. *)
Lemma F2Z_value (v : float) : F2Z v = (value_of v / 2 ^ 1074)%Z.
Proof.
  unfold F2Z, value_of. pose proof (Prim2SF_valid v) as Vv.
  destruct (Prim2SF v) as [s|s| |s m e]; try reflexivity.
  cbn [valid_binary] in Vv. pose proof (bounded_inv _ _ Vv) as (R & D & N).
  cbn [val]. assert (P : (0 < 2 ^ 1074)%Z) by (apply pow2_pos; lia).
  destruct (Z.leb_spec 0 e) as [Hpos|Hneg].
  - rewrite Z.pow_add_r by lia.
    replace (cond_Zopp s (Zpos m * (2 ^ e * 2 ^ 1074)))
      with (cond_Zopp s (Zpos m * 2 ^ e) * 2 ^ 1074)%Z
      by (destruct s; cbn [cond_Zopp]; ring).
    now rewrite Z.div_mul by lia.
  - assert (P1 : (0 < 2 ^ (e + 1074))%Z) by (apply pow2_pos; lia).
    assert (P2 : (0 < 2 ^ (- e))%Z) by (apply pow2_pos; lia).
    replace (2 ^ 1074)%Z with (2 ^ (- e) * 2 ^ (e + 1074))%Z
      by (rewrite <- Z.pow_add_r by lia; f_equal; lia).
    replace (cond_Zopp s (Zpos m * 2 ^ (e + 1074)))
      with (cond_Zopp s (Zpos m) * 2 ^ (e + 1074))%Z
      by (destruct s; cbn [cond_Zopp]; ring).
    rewrite Z.div_mul_cancel_r by lia. reflexivity.
Qed.

Lemma F2Z_Z2F (z : Z) : (Z.abs z < 2 ^ 53)%Z -> F2Z (Z2F z) = z.
Proof.
  intros Hz. destruct (Z2F_value z Hz) as [_ V].
  rewrite F2Z_value, V. apply Z.div_mul. apply Z.pow_nonzero; lia.
Qed.

(** A finite sum has finite terms. *)
Lemma add_finite_inv (x y : float) :
  is_finite (x + y) = true -> is_finite x = true /\ is_finite y = true.
Proof.
  rewrite !is_finite_spec, add_spec.
  destruct (Prim2SF x) as [sx|sx| |sx mx ex], (Prim2SF y) as [sy|sy| |sy my ey];
    unfold SF64add; cbn [SFadd finite_SF]; auto; try discriminate.
  destruct sx, sy; simpl; intros H; discriminate H.
Qed.

(** Two finite numbers of the same value, not zero, are the same number. *)
Lemma value_inj (x y : float) :
  is_finite x = true -> is_finite y = true ->
  value_of x = value_of y -> value_of x <> 0%Z -> x = y.
Proof.
  intros Fx Fy E NZ. apply Prim2SF_inj.
  apply valid_val_inj; auto using finite_valid.
Qed.

(** Sums of integers below 2^53 are exact. *)
Lemma Z2F_add (a b : Z) :
  (Z.abs a < 2 ^ 53)%Z -> (Z.abs b < 2 ^ 53)%Z -> (Z.abs (a + b) < 2 ^ 53)%Z ->
  (a + b <> 0)%Z -> Z2F a + Z2F b = Z2F (a + b).
Proof.
  intros Ha Hb Hab NZ.
  destruct (Z2F_value a Ha) as [Fa Va], (Z2F_value b Hb) as [Fb Vb].
  destruct (Z2F_value (a + b) Hab) as [Fs Vs].
  assert (P : (0 < 2 ^ 1074)%Z) by (apply pow2_pos; lia).
  assert (P53 : (2 ^ 53 * 2 ^ 1074 < 2 ^ 2097)%Z).
  { rewrite <- Z.pow_add_r by lia. apply Z.pow_lt_mono_r; lia. }
  destruct (SFadd_spec _ _ (finite_valid _ Fa) (finite_valid _ Fb)) as [Fin Hno].
  fold (value_of (Z2F a)) in Fin, Hno. fold (value_of (Z2F b)) in Fin, Hno.
  rewrite Va, Vb in Fin, Hno. rewrite <- add_spec in Fin, Hno.
  replace (a * 2 ^ 1074 + b * 2 ^ 1074)%Z with ((a + b) * 2 ^ 1074)%Z in * by ring.
  assert (Fsum : is_finite (Z2F a + Z2F b) = true).
  { rewrite is_finite_spec. apply Fin. rewrite Z.abs_mul, (Z.abs_eq (2 ^ 1074)) by lia. nia. }
  rewrite is_finite_spec in Fsum.
  destruct (Hno Fsum _ (finite_valid _ Fs)) as [U L].
  fold (value_of (Z2F (a + b))) in U, L. fold (value_of (Z2F a + Z2F b)) in U, L.
  rewrite Vs in U, L. rewrite <- is_finite_spec in Fsum.
  apply value_inj; auto; [rewrite Vs|]; nia.
Qed.

(** Adding 1 does not lower a number. *)
Lemma add_1_lower (x : float) :
  is_finite x = true -> is_finite (x + 1) = true ->
  (value_of x <= value_of (x + 1))%Z.
Proof.
  intros Fx Fs.
  assert (F1 : is_finite 1 = true) by reflexivity.
  destruct (SFadd_spec _ _ (finite_valid _ Fx) (finite_valid _ F1)) as [_ Hno].
  rewrite <- add_spec in Hno. rewrite is_finite_spec in Fs.
  destruct (Hno Fs _ (finite_valid _ Fx)) as [_ L]. apply L.
  change (val (Prim2SF 1)) with (2 ^ 1074)%Z.
  assert (P : (0 < 2 ^ 1074)%Z) by (apply pow2_pos; lia). lia.
Qed.

(** [Math.max] of two small integers. *)
Lemma Math_max_Z2F (a b : Z) :
  (Z.abs a < 2 ^ 53)%Z -> (Z.abs b < 2 ^ 53)%Z -> (0 < a)%Z -> (0 < b)%Z ->
  Math_max (Z2F a) (Z2F b) = Z2F (Z.max a b).
Proof.
  intros Ha Hb Pa Pb.
  destruct (Z2F_value a Ha) as [Fa Va], (Z2F_value b Hb) as [Fb Vb].
  destruct (Math_max_finite _ _ Fa Fb) as [_ V]. rewrite Va, Vb in V.
  assert (P : (0 < 2 ^ 1074)%Z) by (apply pow2_pos; lia).
  unfold Math_max in *. rewrite (finite_not_nan _ Fa), (finite_not_nan _ Fb) in *.
  cbn [orb] in *. rewrite !ltb_value in * by assumption. rewrite Va, Vb in *.
  destruct (Z.ltb_spec (a * 2 ^ 1074) (b * 2 ^ 1074)).
  - f_equal. nia.
  - destruct (Z.ltb_spec (b * 2 ^ 1074) (a * 2 ^ 1074)).
    + f_equal. nia.
    + assert (a = b) by nia. subst b. rewrite Z.max_id. now destruct (get_sign (Z2F a)).
Qed.

(** *** Variant 1: [chart] *)

Section SeriesFacts.
Context {rt : JSRuntime}.

(** The scenario computation returns a ledger of lifetime + 1 rows. *)
Lemma computeScenarioModel_returns (s : V1.Scenario.t) :
  exists (m : V1.Model.t) (k : Z),
    V1.computeScenarioModel s = Return m /\ (1 <= k <= 30)%Z /\
    V1.Model.vida m = Z2F k /\ List.length (V1.Model.rows m) = S (Z.to_nat k).
Proof.
  unfold V1.computeScenarioModel.
  destruct (vida_range (V1.Scenario.vida s)) as (k & Hk & ->).
  set (inc := V1.find_incentivo (V1.Scenario.incentivoId s)).
  set (capexNeto := V1.calcularCapexNeto _ _ _ _ _).
  destruct (beneficio_returns capexNeto k (V1.aplicaDeduccionRenta inc)
              (V1.Scenario.anosDeduccionRenta s) (V1.Scenario.ingresoGravableAnual s)
              (V1.Scenario.tasaImpuestoRenta s) Hk) as (ben & -> & _).
  cbn [bind]. destruct (lifetime_facts k Hk) as (-> & _).
  eexists. exists k. split; [reflexivity|]. cbn [V1.Model.vida V1.Model.rows].
  split; [exact Hk|]. split; [reflexivity|]. apply rows_loop_length.
Qed.

(** [m.rows[y] || m.rows[m.rows.length - 1]] is row [y] up to the lifetime
    and the last row after it. *)
Lemma row_or_last_spec (m : V1.Model.t) (k y : nat) :
  List.length (V1.Model.rows m) = S k ->
  exists row, V1.row_or_last m y = Some row /\
              nth_error (V1.Model.rows m) (Nat.min y k) = Some row.
Proof.
  intros Hlen. unfold V1.row_or_last. rewrite Hlen.
  destruct (nth_error (V1.Model.rows m) y) as [row|] eqn:E.
  - exists row. split; [reflexivity|].
    assert (y < S k)%nat by (rewrite <- Hlen; apply nth_error_Some; congruence).
    now replace (Nat.min y k) with y by lia.
  - apply nth_error_None in E. rewrite Hlen in E.
    replace (S k - 1)%nat with k by lia. replace (Nat.min y k) with k by lia.
    destruct (nth_error (V1.Model.rows m) k) as [row|] eqn:E'.
    + now exists row.
    + apply nth_error_None in E'. lia.
Qed.

Lemma chart_from_spec (mA mB mC : V1.Model.t) (kA kB kC : nat) :
  List.length (V1.Model.rows mA) = S kA ->
  List.length (V1.Model.rows mB) = S kB ->
  List.length (V1.Model.rows mC) = S kC ->
  forall count y, exists points,
    V1.chart_from mA mB mC count y = Return points /\
    List.length points = count /\
    forall j p, nth_error points j = Some p ->
                V1.chart_point mA mB mC (y + j) = Return p.
Proof.
  intros HA HB HC. induction count as [|count IH]; intros y; cbn [V1.chart_from].
  - exists []. split; [reflexivity|]. split; [reflexivity|]. now intros [|j].
  - destruct (IH (S y)) as (points & -> & Hlen & Hnth).
    unfold V1.chart_point at 1.
    destruct (row_or_last_spec mA kA y HA) as (rowA & EA & _).
    destruct (row_or_last_spec mB kB y HB) as (rowB & EB & _).
    destruct (row_or_last_spec mC kC y HC) as (rowC & EC & _).
    rewrite EA, EB, EC. cbn [bind]. eexists. split; [reflexivity|].
    split; [cbn [List.length]; now rewrite Hlen|].
    intros [|j] p Hp; cbn [nth_error] in Hp.
    + injection Hp as <-. rewrite Nat.add_0_r. unfold V1.chart_point.
      now rewrite EA, EB, EC.
    + apply Hnth in Hp. now replace (y + S j)%nat with (S y + j)%nat by lia.
Qed.

(** *** Variant 2: [chartData] *)

Lemma year_loop_length (step : Z -> V2.LoopState -> V2.LoopState) :
  (forall y st, List.length (V2.st_cashflows (step y st)) = List.length (V2.st_cashflows st)) ->
  forall count y st,
    List.length (V2.st_cashflows (V2.year_loop step count y st))
    = List.length (V2.st_cashflows st).
Proof.
  intros Hstep. induction count as [|count IH]; intros y st; cbn [V2.year_loop].
  - reflexivity.
  - now rewrite IH, Hstep.
Qed.

(** [Math.max(5, r)] is finite when [r] is, and also when [r] is
    [-Infinity]. *)
Lemma Math_max_5 (r : float) :
  is_finite (Math_max 5 r) = true -> is_finite r = true \/ Math_max 5 r = 5.
Proof.
  unfold Math_max. rewrite (is_nan_spec r), !FloatAxioms.ltb_spec.
  change (is_nan 5) with false. cbn [orb].
  destruct (Prim2SF r) as [s|[|]| |s m e] eqn:P.
  - intros _. left. now rewrite is_finite_spec, P.
  - change (SFltb (Prim2SF 5) (S754_infinity true)) with false.
    change (SFltb (S754_infinity true) (Prim2SF 5)) with true. auto.
  - change (SFltb (Prim2SF 5) (S754_infinity false)) with true. auto.
  - intros H. vm_compute in H. discriminate.
  - intros _. left. now rewrite is_finite_spec, P.
Qed.

(** [Math.round] leaves what is not finite as it is. *)
Lemma Math_round_finite_inv (v : float) :
  is_finite (Math_round v) = true -> is_finite v = true.
Proof.
  destruct (is_finite v) eqn:E; [reflexivity|]. rewrite is_finite_spec in E.
  unfold Math_round. destruct (Prim2SF v) as [s|s| |s m e] eqn:P; try discriminate;
    now rewrite is_finite_spec, P.
Qed.

(** When [new Array(years + 1)] returns, the lifetime is an integer from 5
    to 2^32 - 2, and the array has lifetime + 1 entries. *)
Lemma years_range (lifeYears : float) (len : nat) :
  new_Array (Math_max 5 (Math_round lifeYears) + 1) = Return len ->
  exists k : nat,
    (5 <= k)%nat /\ Math_max 5 (Math_round lifeYears) = Z2F (Z.of_nat k) /\
    len = S k /\ loop_count 0 (Z2F (Z.of_nat k)) = S k /\
    (Z.of_nat k < 4294967295)%Z /\ loop_count 1 (Z2F (Z.of_nat k)) = k.
Proof.
  set (years := Math_max 5 (Math_round lifeYears)). unfold new_Array.
  destruct (is_finite (years + 1)) eqn:Fs; [|discriminate]. cbn [andb].
  destruct (0 <=? years + 1) eqn:L0; [|discriminate]. cbn [andb].
  destruct (years + 1 <=? 4294967295) eqn:L1; [|discriminate]. cbn [andb].
  destruct (Z2F (F2Z (years + 1)) =? years + 1); [|discriminate].
  intros H. injection H as <-.
  destruct (add_finite_inv _ _ Fs) as [Fy _].
  assert (F5 : is_finite 5 = true) by reflexivity.
  assert (I5 : integral 5) by (apply (Z2F_integral 5); vm_compute; reflexivity).
  assert (Iy : integral years /\ (value_of 5 <= value_of years)%Z).
  { destruct (Math_max_5 _ Fy) as [Fr | E].
    - destruct (Math_max_finite 5 _ F5 Fr) as [[E|E] V]; fold years in E, V.
      + rewrite E. split; [exact I5|lia].
      + split; [|lia]. rewrite E. apply Math_round_integral, Math_round_finite_inv, Fr.
    - fold years in E. rewrite E. split; [exact I5|lia]. }
  destruct Iy as [Iy Hlo].
  assert (P : (0 < 2 ^ 1074)%Z) by (apply pow2_pos; lia).
  assert (V5 : value_of 5 = (5 * 2 ^ 1074)%Z) by (vm_compute; reflexivity).
  assert (Vhi : value_of 4294967295 = (4294967295 * 2 ^ 1074)%Z) by (vm_compute; reflexivity).
  assert (Hhi : (value_of (years + 1) <= value_of 4294967295)%Z).
  { rewrite leb_value in L1 by auto. now apply Z.leb_le. }
  pose proof (add_1_lower years Fy Fs) as Hstep.
  destruct (integral_range years 5 4294967295 ltac:(lia) ltac:(lia) Iy) as (k & Hk & Ek).
  { change (Z2F 5) with 5. change (Z2F 4294967295) with 4294967295. lia. }
  assert (Es : years + 1 = Z2F (k + 1)).
  { rewrite Ek. change 1 with (Z2F 1) at 1. apply Z2F_add; lia. }
  rewrite Es in Hhi. destruct (Z2F_value (k + 1) ltac:(lia)) as [_ Vs].
  rewrite Vs, Vhi in Hhi. assert (Hk1 : (k + 1 <= 4294967295)%Z) by nia.
  exists (Z.to_nat k). rewrite Z2Nat.id by lia.
  split; [lia|]. split; [exact Ek|]. rewrite Es, F2Z_Z2F by lia.
  split; [lia|]. unfold loop_count.
  change (Z2F 0) with 0. change (Z2F 1) with 1.
  destruct (Z2F_value k ltac:(lia)) as [Fk Vk].
  rewrite !leb_value by auto. rewrite Vk.
  change (value_of 0) with 0%Z. change (value_of 1) with (1 * 2 ^ 1074)%Z.
  destruct (Z.leb_spec 0 (k * 2 ^ 1074)); [|nia].
  destruct (Z.leb_spec (1 * 2 ^ 1074) (k * 2 ^ 1074)); [|nia].
  rewrite F2Z_Z2F by lia. repeat split; lia.
Qed.

(** The model of variant 2 has lifetime + 1 cash flows. *)
Lemma computeScenario_shape (s : V2.Scenario) (global : V2.Global) (seedTag : string)
    (m : V2.Model.t) :
  V2.computeScenario s global seedTag = Return m ->
  exists k : nat,
    (5 <= k)%nat /\ V2.Model.years m = Z2F (Z.of_nat k) /\
    List.length (V2.Model.cashflows m) = S k /\
    loop_count 0 (V2.Model.years m) = S k.
Proof.
  unfold V2.computeScenario.
  destruct (V2.applyIncentives _ _ _ _ _ _) as [capexNeto taxBenefitAnnual].
  destruct (new_Array _) as [len|e] eqn:E; cbn [bind]; [|discriminate].
  intros H. injection H as <-. cbn [V2.Model.years V2.Model.cashflows].
  destruct (years_range _ _ E) as (k & Hk & Ey & -> & Hc & _).
  exists k. rewrite Ey. split; [exact Hk|]. split; [reflexivity|]. split; [|exact Hc].
  rewrite year_loop_length.
  - cbn [V2.st_cashflows]. now rewrite array_set_length, repeat_length.
  - intros y st. cbn [V2.year_step V2.st_cashflows]. apply array_set_length.
Qed.

(** After the lifetime, [cashflows.slice(0, y + 1)] is the whole array. *)
Lemma cum_at_hold (cashflows : list float) (k y : nat) :
  List.length cashflows = S k -> (0 < k)%nat ->
  V2.cum_at cashflows y = V2.cum_at cashflows (Nat.min y k).
Proof.
  intros Hlen Hk. destruct (Nat.le_gt_cases y k) as [Hy|Hy].
  - now replace (Nat.min y k) with y by lia.
  - replace (Nat.min y k) with k by lia.
    destruct y as [|y]; [lia|]. destruct k as [|k]; [lia|]. unfold V2.cum_at.
    now rewrite !firstn_all2 by lia.
Qed.

Lemma map_seq_nth_error {A : Type} (f : nat -> A) (count : nat) :
  forall start j p,
    nth_error (map f (seq start count)) j = Some p -> p = f (start + j)%nat.
Proof.
  induction count as [|count IH]; intros start j p H; cbn [seq map] in H.
  - now destruct j.
  - destruct j as [|j]; cbn [nth_error] in H.
    + injection H as <-. now rewrite Nat.add_0_r.
    + apply IH in H. now replace (start + S j)%nat with (S start + j)%nat by lia.
Qed.

(** C6, as the two programs have it.  In [SmartEnergyROIApp.jsx] the
    comparison series is computed for every triple of scenarios; it has
    max(lifetime A, lifetime B, lifetime C) + 1 entries, and entry [y] of a
    scenario is the rounded cumulative of its ledger row [y], or of its last
    row when [y] is beyond its lifetime.  In the second program the series
    has the lifetime of the active scenario plus 1 entries, whatever the
    lifetimes of the other two; entry [y] of a scenario is its cumulative
    cash flow of year [y], or of its last year when [y] is beyond its
    lifetime. *)
Theorem comparison_series :
  (forall sA sB sC : V1.Scenario.t,
     exists mA mB mC points (kA kB kC : nat),
       V1.models sA sB sC = Return (mA, mB, mC, points) /\
       (V1.Model.vida mA = Z2F (Z.of_nat kA) /\ List.length (V1.Model.rows mA) = S kA) /\
       (V1.Model.vida mB = Z2F (Z.of_nat kB) /\ List.length (V1.Model.rows mB) = S kB) /\
       (V1.Model.vida mC = Z2F (Z.of_nat kC) /\ List.length (V1.Model.rows mC) = S kC) /\
       List.length points = S (Nat.max (Nat.max kA kB) kC) /\
       forall y p, nth_error points y = Some p ->
         V1.chart_year p = y /\
         (exists row, nth_error (V1.Model.rows mA) (Nat.min y kA) = Some row /\
                      V1.chart_A p = Math_round (V1.Row.acumulado row)) /\
         (exists row, nth_error (V1.Model.rows mB) (Nat.min y kB) = Some row /\
                      V1.chart_B p = Math_round (V1.Row.acumulado row)) /\
         (exists row, nth_error (V1.Model.rows mC) (Nat.min y kC) = Some row /\
                      V1.chart_C p = Math_round (V1.Row.acumulado row))) /\
  (forall (sA sB sC : V2.Scenario) (global : V2.Global) (active : V2.Key)
          mA mB mC points,
     V2.models sA sB sC global active = Return (mA, mB, mC, points) ->
     exists kA kB kC : nat,
       (V2.Model.years mA = Z2F (Z.of_nat kA) /\
        List.length (V2.Model.cashflows mA) = S kA) /\
       (V2.Model.years mB = Z2F (Z.of_nat kB) /\
        List.length (V2.Model.cashflows mB) = S kB) /\
       (V2.Model.years mC = Z2F (Z.of_nat kC) /\
        List.length (V2.Model.cashflows mC) = S kC) /\
       List.length points
       = S (match active with V2.A => kA | V2.B => kB | V2.C => kC end) /\
       forall y p, nth_error points y = Some p ->
         V2.chart_year p = y /\
         V2.chart_A p = V2.cum_at (V2.Model.cashflows mA) (Nat.min y kA) /\
         V2.chart_B p = V2.cum_at (V2.Model.cashflows mB) (Nat.min y kB) /\
         V2.chart_C p = V2.cum_at (V2.Model.cashflows mC) (Nat.min y kC)).
Proof.
  split.
  - intros sA sB sC. unfold V1.models.
    destruct (computeScenarioModel_returns sA) as (mA & kA & -> & HkA & VA & LA).
    destruct (computeScenarioModel_returns sB) as (mB & kB & -> & HkB & VB & LB).
    destruct (computeScenarioModel_returns sC) as (mC & kC & -> & HkC & VC & LC).
    cbn [bind]. unfold V1.chart, Math_max3. rewrite VA, VB, VC.
    rewrite !Math_max_Z2F by lia.
    destruct (lifetime_facts (Z.max (Z.max kA kB) kC) ltac:(lia)) as (_ & _ & _ & _ & ->).
    destruct (chart_from_spec mA mB mC _ _ _ LA LB LC
                (S (Z.to_nat (Z.max (Z.max kA kB) kC))) 0) as (points & -> & Hlen & Hnth).
    cbn [bind]. exists mA, mB, mC, points, (Z.to_nat kA), (Z.to_nat kB), (Z.to_nat kC).
    rewrite !Z2Nat.id by lia.
    split; [reflexivity|]. repeat (split; [now split|]).
    split; [rewrite Hlen; f_equal; lia|].
    intros y p Hp. apply Hnth in Hp. cbn [Nat.add] in Hp. unfold V1.chart_point in Hp.
    destruct (row_or_last_spec mA _ y LA) as (rowA & EA & NA).
    destruct (row_or_last_spec mB _ y LB) as (rowB & EB & NB).
    destruct (row_or_last_spec mC _ y LC) as (rowC & EC & NC).
    rewrite EA, EB, EC in Hp. injection Hp as <-.
    cbn [V1.chart_year V1.chart_A V1.chart_B V1.chart_C].
    split; [reflexivity|]. repeat split; eexists; split; eauto.
  - intros sA sB sC global active mA mB mC points. unfold V2.models.
    destruct (V2.computeScenario sA global "A") as [mA'|e] eqn:EA; [|discriminate].
    destruct (V2.computeScenario sB global "B") as [mB'|e] eqn:EB; [|discriminate].
    destruct (V2.computeScenario sC global "C") as [mC'|e] eqn:EC; [|discriminate].
    cbn [bind]. intros H. injection H as <- <- <- <-.
    destruct (computeScenario_shape _ _ _ _ EA) as (kA & HkA & YA & LA & CA).
    destruct (computeScenario_shape _ _ _ _ EB) as (kB & HkB & YB & LB & CB).
    destruct (computeScenario_shape _ _ _ _ EC) as (kC & HkC & YC & LC & CC).
    exists kA, kB, kC. repeat (split; [now split|]).
    unfold V2.chartData, V2.chartData_with. split.
    + rewrite length_map, length_seq. now destruct active.
    + intros y p Hp. apply map_seq_nth_error in Hp. subst p.
      cbn [Nat.add V2.chart_year V2.chart_A V2.chart_B V2.chart_C].
      split; [reflexivity|]. repeat split; apply cum_at_hold; auto; lia.
Qed.

End SeriesFacts.

Lemma comparison_series_witness :
  exists mA mB mC points,
    V2.models (rt := Ref.runtime) (Examples.base 5 64727982 15)
      (Examples.base 25 64727982 15) (Examples.base 10 64727982 15)
      Examples.global V2.B = Return (mA, mB, mC, points) /\
    exists kA kB kC : nat,
      (V2.Model.years mA = Z2F (Z.of_nat kA) /\
       List.length (V2.Model.cashflows mA) = S kA) /\
      (V2.Model.years mB = Z2F (Z.of_nat kB) /\
       List.length (V2.Model.cashflows mB) = S kB) /\
      (V2.Model.years mC = Z2F (Z.of_nat kC) /\
       List.length (V2.Model.cashflows mC) = S kC) /\
      List.length points = S kB /\
      forall y p, nth_error points y = Some p ->
        V2.chart_year p = y /\
        V2.chart_A p = V2.cum_at (V2.Model.cashflows mA) (Nat.min y kA) /\
        V2.chart_B p = V2.cum_at (V2.Model.cashflows mB) (Nat.min y kB) /\
        V2.chart_C p = V2.cum_at (V2.Model.cashflows mC) (Nat.min y kC).
Proof.
  eexists _, _, _, _. split.
  - vm_compute. reflexivity.
  - apply (proj2 (comparison_series (rt := Ref.runtime))
             (Examples.base 5 64727982 15) (Examples.base 25 64727982 15)
             (Examples.base 10 64727982 15) Examples.global V2.B).
    vm_compute. reflexivity.
Defined.

(** C6 (as stated) fails for the second program: with lifetimes 5, 25 and
    25 and the first scenario active, the series has 6 entries, not 26. *)
Lemma V2_series_follows_active_scenario :
  match V2.models (rt := Ref.runtime) (Examples.base 5 64727982 15)
          (Examples.base 25 64727982 15) (Examples.base 25 64727982 15)
          Examples.global V2.A with
  | Return (mA, mB, mC, points) =>
      V2.Model.years mA = 5 /\ V2.Model.years mB = 25 /\ V2.Model.years mC = 25 /\
      List.length points = 6%nat
  | Throw _ => False
  end.
Proof. vm_compute. auto. Qed.

(** ** The first program against the specification

    What the second program misses, [SmartEnergyROIApp.jsx] does. *)

Section Conformance.
Context {rt : JSRuntime}.

(** The first-year return is guarded: [null] without a positive net capital
    cost, and otherwise the net cash flow of year 1 over the net capital
    cost. *)
Lemma V1_roi1_guarded (s : V1.Scenario.t) :
  exists m row1,
    V1.computeScenarioModel s = Return m /\
    nth_error (V1.Model.rows m) 1 = Some row1 /\
    V1.Model.roi1 m
    = if 0 <? V1.Model.capexNeto m
      then Some (V1.Row.neto row1 / V1.Model.capexNeto m) else None.
Proof.
  unfold V1.computeScenarioModel.
  destruct (vida_range (V1.Scenario.vida s)) as (k & Hk & ->).
  set (inc := V1.find_incentivo (V1.Scenario.incentivoId s)).
  set (capexNeto := V1.calcularCapexNeto _ _ _ _ _).
  destruct (beneficio_returns capexNeto k (V1.aplicaDeduccionRenta inc)
              (V1.Scenario.anosDeduccionRenta s) (V1.Scenario.ingresoGravableAnual s)
              (V1.Scenario.tasaImpuestoRenta s) Hk) as (ben & -> & _).
  cbn [bind]. destruct (lifetime_facts k Hk) as (-> & _).
  set (rows := V1.rows_loop _ _ _ _).
  assert (Hlen : List.length rows = S (Z.to_nat k)) by apply rows_loop_length.
  destruct (nth_error rows 1) as [row1|] eqn:E.
  - eexists. exists row1. split; [reflexivity|].
    cbn [V1.Model.rows V1.Model.roi1 V1.Model.capexNeto]. now rewrite E.
  - apply nth_error_None in E. lia.
Qed.

Lemma array_set_app {A : Type} (prefix rest : list A) (x v : A) :
  array_set (prefix ++ x :: rest) (List.length prefix) v = prefix ++ v :: rest.
Proof. induction prefix as [|p prefix IH]; cbn; [reflexivity|]. now rewrite IH. Qed.

Lemma deduction_schedule_closed (share ceiling rate window : float) (years : nat) :
  forall y remaining,
    deduction_schedule share ceiling rate window years y remaining false
    = repeat 0 years.
Proof.
  induction years as [|years IH]; intros y remaining; cbn [deduction_schedule repeat andb].
  - reflexivity.
  - now rewrite IH.
Qed.

(** The loop that fills the array and breaks computes the schedule. *)
Lemma renta_loop_schedule (cuota topeAnual tasa anos : float) (count : nat) :
  forall (y : Z) restante (prefix : list float),
    (1 <= y)%Z -> Z.to_nat (y - 1) = List.length prefix ->
    V1.renta_loop cuota topeAnual tasa anos count y restante (prefix ++ repeat 0 count)
    = prefix ++ deduction_schedule cuota topeAnual tasa anos count y restante true.
Proof.
  induction count as [|count IH]; intros y restante prefix Hy1 Hy;
    cbn [V1.renta_loop deduction_schedule repeat andb].
  - reflexivity.
  - destruct ((anos <? Z2F y) || (restante <=? 0)); cbn [negb].
    + now rewrite deduction_schedule_closed.
    + rewrite Hy, array_set_app.
      replace (prefix ++ Math_min3 cuota restante topeAnual * tasa :: repeat 0 count)
        with ((prefix ++ [Math_min3 cuota restante topeAnual * tasa]) ++ repeat 0 count)
        by now rewrite <- app_assoc.
      rewrite IH; [now rewrite <- app_assoc|lia|].
      rewrite length_app. cbn [List.length]. lia.
Qed.

End Conformance.

(** * Further properties of the programs *)

(** ** Sanitising the form fields *)

Section SanitiserProperties.
Context {rt : JSRuntime}.

(** X1: whatever a form field holds (a number, NaN, an infinity, any text),
    [n] returns a finite number when its fallback is finite, and [int] a
    finite integer when its fallback is one. *)
Theorem sanitisers_return_numbers (x : value) (fallback : float) :
  is_finite fallback = true ->
  is_finite (V1.n x fallback) = true /\
  (integral fallback -> integral (V1.int x fallback)).
Proof.
  intros Hf. split; [now apply n_finite|]. apply int_integral.
Qed.

(** [clamp(int(x, fallback), lo, hi)] for small integers. *)
Lemma clamp_int_range (x : value) (fb lo hi : Z) :
  (0 < lo <= hi)%Z -> (hi < 100)%Z -> (Z.abs fb < 100)%Z ->
  exists k : Z, (lo <= k <= hi)%Z /\
                V1.clamp (V1.int x (Z2F fb)) (Z2F lo) (Z2F hi) = Z2F k.
Proof.
  intros Hlo Hhi Hfb.
  assert (B : (100 < 2 ^ 53)%Z) by (vm_compute; reflexivity).
  assert (Hab : (value_of (Z2F lo) <= value_of (Z2F hi))%Z).
  { destruct (Z2F_value lo ltac:(lia)) as [_ ->].
    destruct (Z2F_value hi ltac:(lia)) as [_ ->].
    apply Z.mul_le_mono_nonneg_r; [apply Z.pow_nonneg|]; lia. }
  assert (Ix : integral (V1.int x (Z2F fb))) by (apply int_integral, Z2F_integral; lia).
  destruct (clamp_integral (V1.int x (Z2F fb)) (Z2F lo) (Z2F hi) Ix
              (Z2F_integral lo ltac:(lia)) (Z2F_integral hi ltac:(lia)) Hab) as [Hi Hr].
  apply (integral_range _ lo hi); auto; lia.
Qed.

(** X2: whatever the form holds, the lifetime is an integer from 1 to 30,
    the tariff cycle an integer from 2 to 10 and the deduction window an
    integer from 1 to 15. *)
Theorem form_integers_in_range (vida ciclo anos : value) :
  (exists k : Z, (1 <= k <= 30)%Z /\ V1.clamp (V1.int vida 25) 1 30 = Z2F k) /\
  (exists k : Z, (2 <= k <= 10)%Z /\ V1.clamp (V1.int ciclo 4) 2 10 = Z2F k) /\
  (exists k : Z, (1 <= k <= 15)%Z /\ V1.clamp (V1.int anos 5) 1 15 = Z2F k).
Proof.
  repeat split.
  - apply (clamp_int_range vida 25%Z 1%Z 30%Z); lia.
  - apply (clamp_int_range ciclo 4%Z 2%Z 10%Z); lia.
  - apply (clamp_int_range anos 5%Z 1%Z 15%Z); lia.
Qed.

End SanitiserProperties.

Lemma sanitisers_return_numbers_witness :
  is_finite (V1.n (rt := Ref.runtime) (JStr "doce") 25) = true /\
  (integral 25 -> integral (V1.int (rt := Ref.runtime) (JStr "doce") 25)).
Proof.
  apply (sanitisers_return_numbers (rt := Ref.runtime) (JStr "doce") 25).
  reflexivity.
Defined.

(** ** Payback and net present value *)

Section FinanceProperties.
Context {rt : JSRuntime}.

Lemma paybackYear_from_spec (cashflows : list float) :
  forall (t : nat) (cum : float),
    match V1.paybackYear_from t cum cashflows with
    | Some r =>
        exists j, r = (t + j)%nat /\ (j < List.length cashflows)%nat /\
          (0 <=? fold_left (fun p c => p + c) (firstn (S j) cashflows) cum) = true /\
          forall i, (i < j)%nat ->
            (0 <=? fold_left (fun p c => p + c) (firstn (S i) cashflows) cum) = false
    | None =>
        forall i, (i < List.length cashflows)%nat ->
          (0 <=? fold_left (fun p c => p + c) (firstn (S i) cashflows) cum) = false
    end.
Proof.
  induction cashflows as [|cf rest IH]; intros t cum; cbn [V1.paybackYear_from].
  - intros i Hi. cbn in Hi. lia.
  - destruct (0 <=? cum + cf) eqn:E.
    + exists 0%nat. cbn [List.length firstn fold_left].
      repeat split; [lia|lia|exact E|intros i Hi; lia].
    + specialize (IH (S t) (cum + cf)).
      destruct (V1.paybackYear_from (S t) (cum + cf) rest) as [r|].
      * destruct IH as (j & -> & Hj & Hge & Hlt). exists (S j).
        cbn [List.length]. repeat split; [lia|lia|exact Hge|].
        intros [|i] Hi; [exact E|]. apply Hlt. lia.
      * intros [|i] Hi; [exact E|]. apply IH. cbn [List.length] in Hi. lia.
Qed.

(** X3: [paybackYear] returns the first year whose cumulative cash flow is
    not negative: that year is within the horizon and every earlier
    cumulative fails the test [cum >= 0]; it returns [null] exactly when no
    cumulative passes it (so on an empty vector, and whenever a NaN enters
    the sum before recovery).  The three programs share the function. *)
Theorem paybackYear_first_recovery (cashflows : list float) :
  V2.paybackYear cashflows = V1.paybackYear cashflows /\
  match V1.paybackYear cashflows with
  | Some t =>
      (t < List.length cashflows)%nat /\
      (0 <=? cumulative cashflows t) = true /\
      forall i, (i < t)%nat -> (0 <=? cumulative cashflows i) = false
  | None =>
      forall i, (i < List.length cashflows)%nat -> (0 <=? cumulative cashflows i) = false
  end.
Proof.
  split; [reflexivity|]. unfold V1.paybackYear, cumulative.
  pose proof (paybackYear_from_spec cashflows 0 0) as H.
  destruct (V1.paybackYear_from 0 0 cashflows) as [r|]; [|exact H].
  destruct H as (j & -> & Hj & Hge & Hlt). cbn [Nat.add]. auto.
Qed.

Lemma npv_from_app (rate : float) (cashflows : list float) (cf : float) :
  forall (t : nat) (acc : float),
    V1.npv_from rate t acc (cashflows ++ [cf])
    = V1.npv_from rate t acc cashflows
      + cf / Math_pow (1 + rate) (Z2F (Z.of_nat (t + List.length cashflows))).
Proof.
  induction cashflows as [|c rest IH]; intros t acc; cbn [app V1.npv_from List.length].
  - now rewrite Nat.add_0_r.
  - rewrite IH. now replace (S t + List.length rest)%nat with (t + S (List.length rest))%nat by lia.
Qed.

(** X4: the net present value of an empty vector is 0, and one more year
    adds its cash flow divided by [Math.pow(1 + rate, t)], [t] the index of
    the year: the flows are discounted from year 0 and added in the order of
    the years.  The three programs share the function. *)
Theorem npv_one_more_year (rate : float) (cashflows : list float) (cf : float) :
  V2.npv rate cashflows = V1.npv rate cashflows /\
  V1.npv rate [] = 0 /\
  V1.npv rate (cashflows ++ [cf])
  = V1.npv rate cashflows
    + cf / Math_pow (1 + rate) (Z2F (Z.of_nat (List.length cashflows))).
Proof.
  split; [reflexivity|]. split; [reflexivity|]. unfold V1.npv.
  now rewrite npv_from_app.
Qed.

(** X5: the solver of the second program (140 steps, and 120 in its
    variant) returns [null] on every vector without a negative entry and on
    every vector without a positive entry, the empty vector included. *)
Theorem irr_null_without_both_signs (cashflows : list float) :
  (forall x, In x cashflows -> (x <? 0) = false) \/
  (forall x, In x cashflows -> (0 <? x) = false) ->
  V2.irr cashflows = None /\ V3.irr cashflows = None.
Proof.
  intros H.
  assert (E : existsb (fun x => x <? 0) cashflows = false \/
              existsb (fun x => 0 <? x) cashflows = false).
  { destruct H as [H|H]; [left|right];
      (destruct (existsb _ cashflows) eqn:E; [|reflexivity]);
      apply existsb_exists in E; destruct E as (x & Hx & Ex);
      rewrite (H x Hx) in Ex; discriminate. }
  split; [unfold V2.irr|unfold V3.irr]; now apply V2_irr_one_sign.
Qed.

End FinanceProperties.

Lemma irr_null_without_both_signs_witness :
  V2.irr (rt := Ref.runtime) [0; 120; 0; 35] = None /\
  V3.irr (rt := Ref.runtime) [0; 120; 0; 35] = None.
Proof.
  apply (irr_null_without_both_signs (rt := Ref.runtime) [0; 120; 0; 35]).
  left. intros x Hx. cbn [In] in Hx.
  destruct Hx as [<- | [<- | [<- | [<- | []]]]]; reflexivity.
Defined.

(** ** Clamping *)

(** A number that is not finite is NaN, [Infinity] or [-Infinity]. *)
Lemma not_finite_cases (v : float) :
  is_finite v = false -> v = nan \/ v = infinity \/ v = neg_infinity.
Proof.
  rewrite is_finite_spec. intros H.
  destruct (Prim2SF v) as [s|[|]| |s m e] eqn:P; try discriminate.
  - right. right. now apply Prim2SF_inj.
  - right. left. now apply Prim2SF_inj.
  - left. now apply Prim2SF_inj.
Qed.

(** Comparisons of a finite number with the infinities. *)
Lemma ltb_infinities (a : float) :
  is_finite a = true ->
  (a <? infinity) = true /\ (infinity <? a) = false /\
  (a <? neg_infinity) = false /\ (neg_infinity <? a) = true.
Proof.
  rewrite is_finite_spec, !FloatAxioms.ltb_spec.
  change (Prim2SF infinity) with (S754_infinity false).
  change (Prim2SF neg_infinity) with (S754_infinity true).
  destruct (Prim2SF a) as [s|s| |s m e]; try discriminate; destruct s; auto.
Qed.

Lemma leb_refl_finite (a : float) : is_finite a = true -> (a <=? a) = true.
Proof. intros F. rewrite leb_value by assumption. apply Z.leb_refl. Qed.

Lemma clamp_cases (v a b : float) :
  is_finite a = true -> is_finite b = true -> (a <=? b) = true ->
  (is_nan v = false ->
   (a <=? V1.clamp v a b) = true /\ (V1.clamp v a b <=? b) = true) /\
  (is_nan v = true -> is_nan (V1.clamp v a b) = true).
Proof.
  intros Fa Fb Hab.
  assert (Hab' : (value_of a <= value_of b)%Z).
  { rewrite leb_value in Hab by assumption. now apply Z.leb_le. }
  destruct (ltb_infinities a Fa) as (A1 & A2 & A3 & A4).
  destruct (ltb_infinities b Fb) as (B1 & B2 & B3 & B4).
  pose proof (finite_not_nan a Fa) as Na. pose proof (finite_not_nan b Fb) as Nb.
  destruct (is_finite v) eqn:Fv.
  - destruct (clamp_finite v a b Fv Fa Fb Hab') as (_ & Fc & Hr).
    split.
    + intros _. rewrite !leb_value by assumption. split; apply Z.leb_le; lia.
    + rewrite (finite_not_nan v Fv). discriminate.
  - destruct (not_finite_cases v Fv) as [-> | [-> | ->]].
    + split; [discriminate|]. intros _. unfold V1.clamp, Math_max, Math_min.
      rewrite Na, Nb. reflexivity.
    + assert (E : V1.clamp infinity a b = b).
      { unfold V1.clamp, Math_max. rewrite Na. cbn [orb]. change (is_nan infinity) with false.
        cbv iota. rewrite A1. unfold Math_min. rewrite Nb. change (is_nan infinity) with false.
        cbn [orb]. now rewrite B1. }
      rewrite E. split; [|discriminate]. intros _. split; [exact Hab|].
      now apply leb_refl_finite.
    + assert (E : V1.clamp neg_infinity a b = Math_min b a).
      { unfold V1.clamp, Math_max. rewrite Na. cbn [orb].
        change (is_nan neg_infinity) with false. cbv iota. now rewrite A3, A4. }
      rewrite E. split; [|discriminate]. intros _.
      destruct (Math_min_finite b a Fb Fa) as [Hm Vm].
      assert (Fm : is_finite (Math_min b a) = true) by (destruct Hm as [-> | ->]; assumption).
      rewrite !leb_value by assumption. rewrite Vm. split; apply Z.leb_le; lia.
Qed.

(** X6: [clamp(v, a, b)] with numbers [a <= b] lies between [a] and [b] for
    every [v] that is not NaN, the infinities included; a NaN passes through
    unchanged.  Both programs have the same function. *)
Theorem clamp_between_bounds (v a b : float) :
  is_finite a = true -> is_finite b = true -> (a <=? b) = true ->
  V2.clamp v a b = V1.clamp v a b /\
  (is_nan v = false ->
   (a <=? V1.clamp v a b) = true /\ (V1.clamp v a b <=? b) = true) /\
  (is_nan v = true -> is_nan (V1.clamp v a b) = true).
Proof.
  intros Fa Fb Hab. split; [reflexivity|]. now apply clamp_cases.
Qed.

Lemma clamp_between_bounds_witness :
  V2.clamp infinity 0 0.35 = V1.clamp infinity 0 0.35 /\
  (is_nan infinity = false ->
   (0 <=? V1.clamp infinity 0 0.35) = true /\ (V1.clamp infinity 0 0.35 <=? 0.35) = true) /\
  (is_nan infinity = true -> is_nan (V1.clamp infinity 0 0.35) = true).
Proof. apply (clamp_between_bounds infinity 0 0.35); reflexivity. Defined.

(** ** The tariff list and the manual mode *)

Section TariffListProperties.
Context {rt : JSRuntime}.

Lemma filter_all {A : Type} (f : A -> bool) (l : list A) :
  (forall x, In x l -> f x = true) -> filter f l = l.
Proof.
  induction l as [|x l IH]; intros H; cbn [filter]; [reflexivity|].
  rewrite (H x (or_introl eq_refl)). f_equal. apply IH. intros y Hy. apply H. now right.
Qed.

(** X7: [parseTariffList] never drops a piece of the text for not being a
    number: [n] has already turned such a piece into 0, so the filter on
    [Number.isFinite] keeps every entry; the list has one finite number per
    piece between separators that is not blank, blank being what
    [String.prototype.trim] empties (Unicode white space included: a lone
    no-break space between two commas gives no entry), and the empty text
    gives the empty list. *)
Theorem parseTariffList_keeps_every_piece (text : string) :
  V1.parseTariffList text
  = map (fun s => V1.n (JStr s) 0)
        (filter V1.nonempty (map V1.trim (V1.split text))) /\
  Forall (fun v => is_finite v = true) (V1.parseTariffList text) /\
  V1.parseTariffList "" = [] /\
  V1.parseTariffList Examples.list_with_no_break_space
  = [V1.n (JStr "850") 0; V1.n (JStr "900") 0].
Proof.
  assert (E : forall t, V1.parseTariffList t
              = map (fun s => V1.n (JStr s) 0)
                    (filter V1.nonempty (map V1.trim (V1.split t)))).
  { intros t. unfold V1.parseTariffList. apply filter_all. intros v Hv.
    apply in_map_iff in Hv. destruct Hv as (s & <- & _).
    apply n_finite. reflexivity. }
  split; [apply E|]. split; [|split; [reflexivity|]].
  - rewrite E. apply Forall_forall. intros v Hv.
    apply in_map_iff in Hv. destruct Hv as (s & <- & _). apply n_finite. reflexivity.
  - rewrite E. reflexivity.
Qed.

(** X8: in manual mode a year within the list has the price listed for it,
    whatever the base tariff and the escalation; a year beyond the list
    escalates the last listed price by the number of years beyond it; and
    with an empty list year [y] escalates the base tariff [y] times, which
    is the escalated tariff of year [y + 1]. *)
Theorem tariff_manual_mode (baseTariff escTarifa : float) (manualList : list float)
    (volatility cycleYears : float) (year : Z) :
  (0 < year)%Z ->
  let len := Z.of_nat (List.length manualList) in
  let manual := V1.tariffForYear "manual" baseTariff escTarifa manualList
                  volatility cycleYears year in
  ((year <= len)%Z -> nth_error manualList (Z.to_nat (year - 1)) = Some manual) /\
  ((len < year)%Z -> manualList <> [] ->
   manual = List.last manualList baseTariff * Math_pow (1 + escTarifa) (Z2F (year - len))) /\
  (manualList = [] ->
   manual = V1.tariffForYear "escalado" baseTariff escTarifa manualList
              volatility cycleYears (year + 1)).
Proof.
  intros Hy len manual. unfold manual, V1.tariffForYear.
  destruct (Z.leb_spec year 0) as [H0|_]; [lia|].
  destruct (Z.leb_spec (year + 1) 0) as [H0|_]; [lia|].
  cbn [String.eqb Ascii.eqb Bool.eqb andb]. fold len. repeat split.
  - intros Hin. destruct (Z.leb_spec year len) as [_|H]; [|lia].
    apply nth_error_nth'. unfold len in Hin. lia.
  - intros Hout Hne. destruct (Z.leb_spec year len) as [H|_]; [lia|].
    destruct manualList; [congruence|reflexivity].
  - intros ->. cbn [List.length Z.of_nat] in *. unfold len.
    destruct (Z.leb_spec year 0) as [H|_]; [lia|].
    now replace (year + 1 - 1)%Z with (year - 0)%Z by lia.
Qed.

End TariffListProperties.

Lemma tariff_manual_mode_witness :
  let manual := V1.tariffForYear (rt := Ref.runtime) "manual" 850 0.03 [850; 880; 910]
                  0.1 4 2 in
  ((2 <= 3)%Z -> nth_error [850; 880; 910] (Z.to_nat (2 - 1)) = Some manual) /\
  ((3 < 2)%Z -> [850; 880; 910] <> [] ->
   manual = List.last [850; 880; 910] 850
            * Math_pow (JSRuntime := Ref.runtime) (1 + 0.03) (Z2F (2 - 3))) /\
  ([850; 880; 910] = [] ->
   manual = V1.tariffForYear (rt := Ref.runtime) "escalado" 850 0.03 [850; 880; 910]
              0.1 4 (2 + 1)).
Proof.
  apply (tariff_manual_mode (rt := Ref.runtime) 850 0.03 [850; 880; 910] 0.1 4 2).
  reflexivity.
Defined.

(** ** Incentives *)

Section IncentiveProperties.
Context {rt : JSRuntime}.

(** X9: an incentive key that is not in the table is read as no incentive.
    In [SmartEnergyROIApp.jsx] the lookup falls back to the first entry,
    which applies nothing: the net capital cost is the sanitised capital
    cost and every deduction benefit is 0.  In the second program the net
    capital cost is the capital cost as given and the annual benefit is
    0. *)
Theorem unknown_incentive_is_none (key : string) (capex ivaRate arancelRate : float)
    (taxRate deductionYears : float) :
  (forall inc, In inc V1.INCENTIVOS_CO -> V1.id inc <> key) ->
  key <> "co_iva" -> key <> "co_iva_arancel" ->
  V1.find_incentivo key = V1.incentivo_none /\
  V1.calcularCapexNeto capex ivaRate arancelRate
    (V1.aplicaIVA (V1.find_incentivo key)) (V1.aplicaArancel (V1.find_incentivo key))
  = Math_max 0 (V1.n (JNum capex) 0) /\
  V2.applyIncentives capex key ivaRate arancelRate taxRate deductionYears = (capex, 0).
Proof.
  intros Hv1 H1 H2.
  assert (Hfull : key <> "co_full").
  { apply not_eq_sym. apply (Hv1 (nth 1 V1.INCENTIVOS_CO V1.incentivo_none)).
    cbn. auto. }
  assert (E : V1.find_incentivo key = V1.incentivo_none).
  { unfold V1.find_incentivo.
    destruct (find _ V1.INCENTIVOS_CO) as [inc|] eqn:F; [|reflexivity].
    apply find_some in F. destruct F as [Hin Heq].
    apply String.eqb_eq in Heq. now apply Hv1 in Hin. }
  split; [exact E|]. rewrite E. split; [reflexivity|].
  unfold V2.applyIncentives.
  apply String.eqb_neq in H1, H2, Hfull. now rewrite H1, H2, Hfull.
Qed.

End IncentiveProperties.

Lemma unknown_incentive_is_none_witness :
  V1.find_incentivo "mx_full" = V1.incentivo_none /\
  V1.calcularCapexNeto (rt := Ref.runtime) 26000000 0.19 0.05
    (V1.aplicaIVA (V1.find_incentivo "mx_full"))
    (V1.aplicaArancel (V1.find_incentivo "mx_full"))
  = Math_max 0 (V1.n (rt := Ref.runtime) (JNum 26000000) 0) /\
  V2.applyIncentives 26000000 "mx_full" 0.19 0.05 0.35 15 = (26000000, 0).
Proof.
  apply (unknown_incentive_is_none (rt := Ref.runtime) "mx_full" 26000000 0.19 0.05 0.35 15).
  - intros inc Hin. cbn in Hin.
    repeat (destruct Hin as [<- | Hin]; [discriminate|]). destruct Hin.
  - discriminate.
  - discriminate.
Defined.

(** ** The deduction schedule of [SmartEnergyROIApp.jsx] *)

Section DeductionProperties.
Context {rt : JSRuntime}.

Lemma deduction_schedule_length (share ceiling rate window : float) (years : nat) :
  forall y remaining open,
    List.length (deduction_schedule share ceiling rate window years y remaining open)
    = years.
Proof.
  induction years as [|years IH]; intros y remaining open; cbn [deduction_schedule].
  - reflexivity.
  - destruct (open && negb ((window <? Z2F y) || (remaining <=? 0)));
      cbn [List.length]; now rewrite IH.
Qed.

(** After the window, the schedule holds zeros. *)
Lemma deduction_schedule_after_window (share ceiling rate : float) (a : Z) (years : nat) :
  (0 < a)%Z ->
  forall (y : Z) remaining open (j : nat),
    (0 < y)%Z -> (y + Z.of_nat years < 2 ^ 53)%Z -> (a < y + Z.of_nat j)%Z ->
    nth j (deduction_schedule share ceiling rate (Z2F a) years y remaining open) 0 = 0.
Proof.
  intros Ha. induction years as [|years IH]; intros y remaining open j Hy Hb Hj;
    cbn [deduction_schedule].
  - now destruct j.
  - destruct j as [|j].
    + assert (E : (Z2F a <? Z2F y) = true).
      { destruct (Z2F_value a ltac:(lia)) as [Fa Va].
        destruct (Z2F_value y ltac:(lia)) as [Fy Vy].
        rewrite ltb_value, Va, Vy by assumption. apply Z.ltb_lt.
        apply Z.mul_lt_mono_pos_r; [apply pow2_pos|]; lia. }
      rewrite E. cbn [orb negb]. rewrite andb_false_r. reflexivity.
    + destruct (open && negb ((Z2F a <? Z2F y) || (remaining <=? 0)));
        cbn [nth]; apply IH; lia.
Qed.

(** X10: for every content of the form, with the capability enabled, the
    benefits that [beneficioDeduccionRentaPorAno] returns are the schedule
    of the specification: year by year the least of the evenly-spread share
    of half the net capital cost, the remaining base and half the taxable
    income, times the tax rate, the remaining base decreasing by the amount
    deducted, and zero from the first year that is beyond the window or
    finds the base exhausted.  Without the capability every benefit is 0. *)
Theorem deduction_follows_schedule (capexNeto : float) (vida : float)
    (anosAplicacion ingresoGravableAnual tasaImpuestoRenta : value) :
  let anos := V1.clamp (V1.int anosAplicacion 5) 1 15 in
  let base := 0.5 * Math_max 0 (V1.n (JNum capexNeto) 0) in
  let ceiling := 0.5 * Math_max 0 (V1.n ingresoGravableAnual 0) in
  let tasa := V1.clamp (V1.n tasaImpuestoRenta 0.35) 0 1 in
  exists k : Z,
    (1 <= k <= 30)%Z /\ V1.clamp (V1.int (JNum vida) 25) 1 30 = Z2F k /\
    V1.beneficioDeduccionRentaPorAno capexNeto vida true anosAplicacion
      ingresoGravableAnual tasaImpuestoRenta
    = Return (deduction_schedule (base / anos) ceiling tasa anos (Z.to_nat k) 1 base true)
    /\
    V1.beneficioDeduccionRentaPorAno capexNeto vida false anosAplicacion
      ingresoGravableAnual tasaImpuestoRenta
    = Return (repeat 0 (Z.to_nat k)).
Proof.
  intros anos base ceiling tasa.
  destruct (vida_range (JNum vida)) as (k & Hk & Ek).
  exists k. split; [exact Hk|]. split; [exact Ek|].
  destruct (lifetime_facts k Hk) as (_ & Hloop & Harr & _).
  unfold V1.beneficioDeduccionRentaPorAno. rewrite Ek, Harr, Hloop. cbn [negb bind].
  split; [|reflexivity].
  f_equal. apply (renta_loop_schedule _ _ _ _ _ 1 _ []); [lia|reflexivity].
Qed.

(** The schedule for a lifetime of [k] years: zero after the window, and
    zero throughout without the capability. *)
Lemma deduction_zero_after_window_aux (capexNeto : float) (k : Z) (aplica : bool)
    (anosAplicacion ingresoGravableAnual tasaImpuestoRenta : value) :
  (1 <= k <= 30)%Z ->
  exists (a : Z) (out : list float),
    (1 <= a <= 15)%Z /\ V1.clamp (V1.int anosAplicacion 5) 1 15 = Z2F a /\
    V1.beneficioDeduccionRentaPorAno capexNeto (Z2F k) aplica anosAplicacion
      ingresoGravableAnual tasaImpuestoRenta = Return out /\
    List.length out = Z.to_nat k /\
    (forall y : Z, (a < y <= k)%Z -> nth_error out (Z.to_nat (y - 1)) = Some 0) /\
    (aplica = false ->
     forall y : Z, (0 < y <= k)%Z -> nth_error out (Z.to_nat (y - 1)) = Some 0).
Proof.
  intros Hk.
  destruct (clamp_int_range anosAplicacion 5%Z 1%Z 15%Z) as (a & Ha & Ea); try lia.
  change (Z2F 5) with 5 in Ea. change (Z2F 1) with 1 in Ea. change (Z2F 15) with 15 in Ea.
  destruct (lifetime_facts k Hk) as (_ & Hloop & Harr & Hint & _).
  exists a. unfold V1.beneficioDeduccionRentaPorAno.
  rewrite Hint, Harr, Hloop, Ea. cbn [bind]. destruct aplica; cbn [negb].
  - eexists. split; [exact Ha|]. split; [reflexivity|]. split; [reflexivity|].
    match goal with
    | |- context [V1.renta_loop ?c ?t ?ta ?an ?cnt 1 ?r _] =>
        pose proof (renta_loop_schedule c t ta an cnt 1 r [] ltac:(lia) eq_refl) as E
    end.
    cbn [app] in E. rewrite E. split; [apply deduction_schedule_length|].
    split; [|discriminate]. intros y Hy.
    rewrite (nth_error_nth' _ 0) by (rewrite deduction_schedule_length; lia).
    f_equal. apply deduction_schedule_after_window; lia.
  - assert (Z0 : forall y : Z, (0 < y <= k)%Z ->
                   nth_error (repeat 0 (Z.to_nat k)) (Z.to_nat (y - 1)) = Some 0).
    { intros y Hy. rewrite (nth_error_nth' _ 0) by (rewrite repeat_length; lia).
      f_equal. apply nth_repeat. }
    eexists. split; [exact Ha|]. split; [reflexivity|]. split; [reflexivity|].
    split; [apply repeat_length|]. split; [|intros _; exact Z0].
    intros y Hy. apply Z0. lia.
Qed.

(** X11: the schedule has one benefit per year of the lifetime, and the
    benefit of every year after the deduction window (an integer from 1 to
    15) is 0. *)
Theorem deduction_zero_after_window (capexNeto : float) (vida : float) (aplica : bool)
    (anosAplicacion ingresoGravableAnual tasaImpuestoRenta : value) :
  exists (k a : Z) (out : list float),
    (1 <= k <= 30)%Z /\ V1.clamp (V1.int (JNum vida) 25) 1 30 = Z2F k /\
    (1 <= a <= 15)%Z /\ V1.clamp (V1.int anosAplicacion 5) 1 15 = Z2F a /\
    V1.beneficioDeduccionRentaPorAno capexNeto vida aplica anosAplicacion
      ingresoGravableAnual tasaImpuestoRenta = Return out /\
    List.length out = Z.to_nat k /\
    forall y : Z, (a < y <= k)%Z -> nth_error out (Z.to_nat (y - 1)) = Some 0.
Proof.
  destruct (vida_range (JNum vida)) as (k & Hk & Ek).
  destruct (lifetime_facts k Hk) as (_ & _ & _ & Hint & _).
  destruct (deduction_zero_after_window_aux capexNeto k aplica anosAplicacion
              ingresoGravableAnual tasaImpuestoRenta Hk)
    as (a & out & Ha & Ea & Hret & Hlen & Hzero & _).
  exists k, a, out. repeat (split; [assumption|]). split; [|split; assumption].
  revert Hret. unfold V1.beneficioDeduccionRentaPorAno. now rewrite Ek, Hint.
Qed.

End DeductionProperties.

(** ** The second program without volatility, and its scenario store *)

Section StoreProperties.
Context {rt : JSRuntime}.

Lemma V2_year_loop_ext (step1 step2 : Z -> V2.LoopState -> V2.LoopState) :
  (forall y st, step1 y st = step2 y st) ->
  forall count y st, V2.year_loop step1 count y st = V2.year_loop step2 count y st.
Proof.
  intros H. induction count as [|count IH]; intros y st; cbn [V2.year_loop].
  - reflexivity.
  - now rewrite H, IH.
Qed.

(** Without volatility the seed tag is not read. *)
Lemma computeScenario_seed_unread (s : V2.Scenario) (global : V2.Global)
    (tag1 tag2 : string) :
  V2.useVolatility global = false ->
  V2.computeScenario s global tag1 = V2.computeScenario s global tag2.
Proof.
  intros Hvol. unfold V2.computeScenario.
  destruct (V2.applyIncentives _ _ _ _ _ _) as [capexNeto taxBenefitAnnual].
  destruct (new_Array _) as [len|e]; [|reflexivity]. cbn [bind].
  match goal with
  | |- context [V2.year_loop (V2.year_step s global tag1 ?a ?b ?c ?d ?e ?f) ?n ?y ?st] =>
      rewrite (V2_year_loop_ext (V2.year_step s global tag1 a b c d e f)
                 (V2.year_step s global tag2 a b c d e f))
  end; [reflexivity|].
  intros y st. unfold V2.year_step. now rewrite Hvol.
Qed.

(** X12: with the volatility toggle off, the model of a scenario does not
    depend on the seed tag; so the model "with exports" of the active
    scenario is the active model itself when the exports toggle is on, and
    the model "without exports" is the active model when it is off. *)
Theorem models_without_volatility (sc : V2App.Scenarios) (global : V2.Global)
    (active : V2.Key) :
  V2.useVolatility global = false ->
  (forall s tag1 tag2,
     V2.computeScenario s global tag1 = V2.computeScenario s global tag2) /\
  (V2.includeExports global = true ->
   V2App.modelWithExports sc global active = V2App.activeModel sc global active) /\
  (V2.includeExports global = false ->
   V2App.modelNoExports sc global active = V2App.activeModel sc global active).
Proof.
  intros Hvol. split; [|split].
  - intros s tag1 tag2. now apply computeScenario_seed_unread.
  - intros Hexp. unfold V2App.modelWithExports, V2App.activeModel.
    replace (V2App.with_exports global true) with global
      by (destruct global; cbn in Hexp; now subst).
    now apply computeScenario_seed_unread.
  - intros Hexp. unfold V2App.modelNoExports, V2App.activeModel.
    replace (V2App.with_exports global false) with global
      by (destruct global; cbn in Hexp; now subst).
    now apply computeScenario_seed_unread.
Qed.

(** The name and the colour of a scenario are not read by the model. *)
Lemma computeScenario_renamed (s : V2.Scenario) (name colorKey : string)
    (global : V2.Global) (tag : string) :
  V2.computeScenario (V2App.renamed s name colorKey) global tag
  = V2.computeScenario s global tag.
Proof. reflexivity. Qed.

(** X13: [duplicateTo] puts the parameters of the active scenario under the
    target key and keeps the name and the colour the target had; the other
    keys are untouched, and duplicating the active scenario onto itself
    changes nothing.  Afterwards the target, computed under any seed tag,
    has the model of the active scenario under that tag; with the volatility
    toggle off, its model in [models] is the one of the active scenario. *)
Theorem duplicateTo_copies_parameters (active target : V2.Key) (sc : V2App.Scenarios) :
  let sc' := V2App.duplicateTo active target sc in
  V2.name (V2App.get sc' target) = V2.name (V2App.get sc target) /\
  V2.colorKey (V2App.get sc' target) = V2.colorKey (V2App.get sc target) /\
  (forall key, key <> target -> V2App.get sc' key = V2App.get sc key) /\
  V2App.duplicateTo active active sc = sc /\
  (forall global tag,
     V2.computeScenario (V2App.get sc' target) global tag
     = V2.computeScenario (V2App.get sc active) global tag) /\
  (forall global,
     V2.useVolatility global = false ->
     V2App.activeModel sc' global target = V2App.activeModel sc global active).
Proof.
  intros sc'.
  assert (G : V2App.get sc' target
              = V2App.renamed (V2App.get sc active)
                  (V2.name (V2App.get sc target)) (V2.colorKey (V2App.get sc target))).
  { unfold sc', V2App.duplicateTo. now destruct target. }
  split; [now rewrite G|]. split; [now rewrite G|]. split; [|split; [|split]].
  - intros key Hkey. unfold sc', V2App.duplicateTo.
    destruct key, target; try reflexivity; congruence.
  - unfold V2App.duplicateTo. destruct sc as [[] [] []]. now destruct active.
  - intros global tag. rewrite G. apply computeScenario_renamed.
  - intros global Hvol. unfold V2App.activeModel. rewrite G, computeScenario_renamed.
    now apply computeScenario_seed_unread.
Qed.

Lemma V3_year_loop_ext (step1 step2 : Z -> V3.LoopState -> V3.LoopState) :
  (forall y st, step1 y st = step2 y st) ->
  forall count y st, V3.year_loop step1 count y st = V3.year_loop step2 count y st.
Proof.
  intros H. induction count as [|count IH]; intros y st; cbn [V3.year_loop].
  - reflexivity.
  - now rewrite H, IH.
Qed.

(** X14: with the volatility toggle off, the variant that draws
    [Math.random] never calls it: the model is the same whatever the draws
    would have been. *)
Theorem V3_without_volatility_ignores_draws (random1 random2 : nat -> float)
    (s : V2.Scenario) (global : V3.Global) :
  V3.useVolatility global = false ->
  V3.computeScenario random1 s global = V3.computeScenario random2 s global.
Proof.
  intros Hvol. unfold V3.computeScenario.
  destruct (V2.applyIncentives _ _ _ _ _ _) as [capexNeto taxBenefitAnnual].
  destruct (new_Array _) as [len|e]; [|reflexivity]. cbn [bind].
  match goal with
  | |- context [V3.year_loop (V3.year_step random1 s global ?a ?b ?c ?d ?e ?f) ?n ?y ?st] =>
      rewrite (V3_year_loop_ext (V3.year_step random1 s global a b c d e f)
                 (V3.year_step random2 s global a b c d e f))
  end; [reflexivity|].
  intros y st. unfold V3.year_step. now rewrite Hvol.
Qed.

End StoreProperties.

Lemma models_without_volatility_witness :
  let sc := {| V2App.A := Examples.base 20 64727982 15;
               V2App.B := Examples.defaultScenario;
               V2App.C := Examples.base 30 64727982 10 |} in
  (forall s tag1 tag2,
     V2.computeScenario (rt := Ref.runtime) s Examples.global tag1
     = V2.computeScenario (rt := Ref.runtime) s Examples.global tag2) /\
  (V2.includeExports Examples.global = true ->
   V2App.modelWithExports (rt := Ref.runtime) sc Examples.global V2.B
   = V2App.activeModel (rt := Ref.runtime) sc Examples.global V2.B) /\
  (V2.includeExports Examples.global = false ->
   V2App.modelNoExports (rt := Ref.runtime) sc Examples.global V2.B
   = V2App.activeModel (rt := Ref.runtime) sc Examples.global V2.B).
Proof.
  intros sc. apply (models_without_volatility (rt := Ref.runtime) sc Examples.global V2.B).
  reflexivity.
Defined.

Lemma V3_without_volatility_ignores_draws_witness :
  let still := {| V3.includeTaxBenefit := true; V3.useVolatility := false |} in
  V3.computeScenario (rt := Ref.runtime) (fun _ => 0.25) Examples.defaultScenario still
  = V3.computeScenario (rt := Ref.runtime) (fun _ => 0.75) Examples.defaultScenario still.
Proof.
  intros still.
  apply (V3_without_volatility_ignores_draws (rt := Ref.runtime)
           (fun _ => 0.25) (fun _ => 0.75) Examples.defaultScenario still).
  reflexivity.
Defined.

(** ** The ledger of the second program *)

Section SecondLedger.
Context {rt : JSRuntime}.

Lemma nth_error_array_set_eq {A : Type} (l : list A) (i : nat) (v : A) :
  (i < List.length l)%nat -> nth_error (array_set l i v) i = Some v.
Proof.
  revert i. induction l as [|x l IH]; intros [|i] H; cbn in *; try lia; auto.
  apply IH. lia.
Qed.

Lemma nth_error_array_set_neq {A : Type} (l : list A) (i j : nat) (v : A) :
  i <> j -> nth_error (array_set l i v) j = nth_error l j.
Proof.
  revert i j. induction l as [|x l IH]; intros [|i] [|j] H; cbn; try congruence; auto.
Qed.

(** The yearly loop keeps the ledger: [annuals] holds the years so far, and
    the cash flow of each of them is its net. *)
Lemma year_loop_ledger (s : V2.Scenario) (global : V2.Global) (seedTag : string)
    (tariff0 esc vol exportFactor selfFrac taxBenefitAnnual c0 : float) (k : nat) :
  let step := V2.year_step s global seedTag tariff0 esc vol exportFactor selfFrac
                taxBenefitAnnual in
  let ledger (y : Z) (st : V2.LoopState) :=
    List.length (V2.st_cashflows st) = S k /\
    Z.of_nat (List.length (V2.st_annuals st)) = (y - 1)%Z /\
    nth_error (V2.st_cashflows st) 0 = Some c0 /\
    forall j a, nth_error (V2.st_annuals st) j = Some a ->
      V2.Annual.year a = Z.of_nat (S j) /\
      nth_error (V2.st_cashflows st) (S j) = Some (V2.Annual.net a) /\
      V2.Annual.net a = V2.Annual.savings a - V2.Annual.om a + V2.Annual.taxBenefit a /\
      V2.Annual.taxBenefit a
      = (if V2.includeTaxBenefit global then taxBenefitAnnual else 0) /\
      V2.Annual.cum a
      = match j with
        | O => c0
        | S j' => match nth_error (V2.st_annuals st) j' with
                  | Some p => if truthy (V2.Annual.cum p) then V2.Annual.cum p else c0
                  | None => c0
                  end
        end + V2.Annual.net a in
  forall count y st,
    (1 <= y)%Z -> (y + Z.of_nat count = Z.of_nat k + 1)%Z ->
    ledger y st -> ledger (Z.of_nat k + 1)%Z (V2.year_loop step count y st).
Proof.
  intros step ledger. unfold ledger.
  induction count as [|count IH]; intros y st Hy Hsum Hinv; cbn [V2.year_loop].
  - replace (Z.of_nat k + 1)%Z with y by lia. exact Hinv.
  - apply IH; [lia|lia|]. destruct Hinv as (Hlen & Hann & H0 & Hrows).
    unfold step, V2.year_step. cbn [V2.st_cashflows V2.st_annuals].
    assert (Hidx : Z.to_nat y = S (List.length (V2.st_annuals st))) by lia.
    split; [now rewrite array_set_length|]. split.
    { rewrite length_app. cbn [List.length]. lia. }
    split.
    { rewrite nth_error_array_set_neq by lia. exact H0. }
    intros j a Ha.
    destruct (Nat.lt_ge_cases j (List.length (V2.st_annuals st))) as [Hj|Hj].
    + rewrite nth_error_app1 in Ha by assumption.
      destruct (Hrows j a Ha) as (R1 & R2 & R3 & R4 & R5).
      split; [exact R1|]. split; [|split; [exact R3|split; [exact R4|]]].
      * rewrite nth_error_array_set_neq by lia. exact R2.
      * rewrite R5. destruct j as [|j']; [reflexivity|].
        now rewrite nth_error_app1 by lia.
    + rewrite nth_error_app2 in Ha by assumption.
      destruct (j - List.length (V2.st_annuals st))%nat as [|d] eqn:Ed;
        [|destruct d; discriminate].
      cbn [nth_error] in Ha. injection Ha as <-.
      assert (Ej : j = List.length (V2.st_annuals st)) by lia.
      cbn [V2.Annual.year V2.Annual.net V2.Annual.savings V2.Annual.om
           V2.Annual.taxBenefit V2.Annual.cum].
      split; [lia|]. split; [|split; [reflexivity|split; [reflexivity|]]].
      * rewrite Hidx, <- Ej. apply nth_error_array_set_eq. rewrite Hlen. lia.
      * f_equal. unfold V2.previous_cum.
        rewrite (nth_error_nth _ 0 nan (x := c0))
          by (rewrite nth_error_array_set_neq by lia; exact H0).
        destruct j as [|j'].
        -- destruct (Z.ltb_spec y 2); [reflexivity|lia].
        -- destruct (Z.ltb_spec y 2); [lia|].
           replace (Z.to_nat (y - 2)) with j' by lia.
           now rewrite nth_error_app1 by lia.
Qed.

(** X15: when [computeScenario] of the second program returns, its lifetime
    is an integer of at least 5; there is one cash flow per year from 0 to
    the lifetime and one annual record per year from 1 to the lifetime;
    cash flow 0 is minus the net capital cost; the cash flow of each later
    year is the net of its record, savings minus operating cost plus tax
    benefit; the tax benefit is the same in every year of the lifetime; and
    the first-year return is the net of year 1 over the net capital cost. *)
Theorem V2_ledger (s : V2.Scenario) (global : V2.Global) (seedTag : string)
    (m : V2.Model.t) :
  V2.computeScenario s global seedTag = Return m ->
  exists k : nat,
    (5 <= k)%nat /\ V2.Model.years m = Z2F (Z.of_nat k) /\
    List.length (V2.Model.cashflows m) = S k /\
    List.length (V2.Model.annuals m) = k /\
    nth_error (V2.Model.cashflows m) 0 = Some (- V2.Model.capexNeto m) /\
    (forall j a, nth_error (V2.Model.annuals m) j = Some a ->
       V2.Annual.year a = Z.of_nat (S j) /\
       nth_error (V2.Model.cashflows m) (S j) = Some (V2.Annual.net a) /\
       V2.Annual.net a = V2.Annual.savings a - V2.Annual.om a + V2.Annual.taxBenefit a /\
       V2.Annual.taxBenefit a
       = if V2.includeTaxBenefit global
         then snd (V2.applyIncentives (V2.capex s) (V2.incentiveScheme s) (V2.ivaRate s)
                     (V2.arancelRate s) (V2.taxRate s) (V2.deductionYears s))
         else 0) /\
    (exists y1, nth_error (V2.Model.annuals m) 0 = Some y1 /\
                V2.Model.roi1 m = V2.Annual.net y1 / V2.Model.capexNeto m).
Proof.
  unfold V2.computeScenario.
  destruct (V2.applyIncentives _ _ _ _ _ _) as [capexNeto taxBenefitAnnual].
  destruct (new_Array _) as [len|e] eqn:E; cbn [bind]; [|discriminate].
  intros H. injection H as <-.
  cbn [V2.Model.years V2.Model.cashflows V2.Model.annuals V2.Model.capexNeto
       V2.Model.roi1].
  destruct (years_range _ _ E) as (k & Hk & Ey & -> & Hc & Hb & Hloop).
  rewrite Ey, Hloop.
  match goal with
  | |- context [V2.year_loop (V2.year_step s global seedTag ?a ?b ?c ?d ?e ?f) k 1 ?st] =>
      pose proof (year_loop_ledger s global seedTag a b c d e f
                    (- capexNeto) k k 1 st ltac:(lia) ltac:(lia)) as L;
      set (final := V2.year_loop (V2.year_step s global seedTag a b c d e f) k 1 st) in *
  end.
  cbv zeta in L. destruct L as (Hlen & Hann & H0 & Hrows).
  { cbn [V2.st_cashflows V2.st_annuals List.length repeat array_set].
    split; [now rewrite repeat_length|]. split; [reflexivity|]. split; [reflexivity|].
    intros [|j] a Ha; discriminate. }
  exists k. cbn [snd].
  split; [exact Hk|]. split; [reflexivity|]. split; [exact Hlen|].
  split; [lia|]. split; [exact H0|]. split.
  { intros j a Ha. destruct (Hrows j a Ha) as (R1 & R2 & R3 & R4 & _). auto. }
  destruct (nth_error (V2.st_annuals final) 0) as [y1|] eqn:E1.
  - exists y1. split; [reflexivity|]. destruct (Hrows 0%nat y1 E1) as (_ & R2 & _).
    now rewrite (nth_error_nth _ _ nan R2).
  - apply nth_error_None in E1. lia.
Qed.

(** X22: the running total kept in the annual records: the total of year 1
    is cash flow 0 plus the net of year 1, and the total of each later year
    is the total of the year before plus its net, except that a total of
    the year before that is exactly 0 (or NaN) is replaced by cash flow 0,
    the value that [annuals[y - 2]?.cum || cashflows[0]] falls back to. *)
Theorem annual_cum_chain (s : V2.Scenario) (global : V2.Global) (seedTag : string)
    (m : V2.Model.t) :
  V2.computeScenario s global seedTag = Return m ->
  forall j a, nth_error (V2.Model.annuals m) j = Some a ->
    V2.Annual.cum a
    = match j with
      | O => - V2.Model.capexNeto m
      | S j' => match nth_error (V2.Model.annuals m) j' with
                | Some p => if truthy (V2.Annual.cum p) then V2.Annual.cum p
                            else - V2.Model.capexNeto m
                | None => - V2.Model.capexNeto m
                end
      end + V2.Annual.net a.
Proof.
  unfold V2.computeScenario.
  destruct (V2.applyIncentives _ _ _ _ _ _) as [capexNeto taxBenefitAnnual].
  destruct (new_Array _) as [len|e] eqn:E; cbn [bind]; [|discriminate].
  intros H. injection H as <-. cbn [V2.Model.annuals V2.Model.capexNeto].
  destruct (years_range _ _ E) as (k & Hk & Ey & -> & Hc & Hb & Hloop).
  rewrite Ey, Hloop.
  match goal with
  | |- context [V2.year_loop (V2.year_step s global seedTag ?a ?b ?c ?d ?e ?f) k 1 ?st] =>
      pose proof (year_loop_ledger s global seedTag a b c d e f
                    (- capexNeto) k k 1 st ltac:(lia) ltac:(lia)) as L;
      set (final := V2.year_loop (V2.year_step s global seedTag a b c d e f) k 1 st) in *
  end.
  cbv zeta in L. destruct L as (_ & _ & _ & Hrows).
  { cbn [V2.st_cashflows V2.st_annuals List.length repeat array_set].
    split; [now rewrite repeat_length|]. split; [reflexivity|]. split; [reflexivity|].
    intros [|j] a Ha; discriminate. }
  intros j a Ha. now destruct (Hrows j a Ha) as (_ & _ & _ & _ & R5).
Qed.

End SecondLedger.

Lemma annual_cum_chain_witness :
  exists m a,
    V2.computeScenario (rt := Ref.runtime) Examples.defaultScenario Examples.global "B"
    = Return m /\
    nth_error (V2.Model.annuals m) 1 = Some a /\
    V2.Annual.cum a
    = match nth_error (V2.Model.annuals m) 0 with
      | Some p => if truthy (V2.Annual.cum p) then V2.Annual.cum p
                  else - V2.Model.capexNeto m
      | None => - V2.Model.capexNeto m
      end + V2.Annual.net a.
Proof.
  eexists _, _. split; [vm_compute; reflexivity|]. split; [vm_compute; reflexivity|].
  apply (annual_cum_chain (rt := Ref.runtime) Examples.defaultScenario Examples.global "B"
           _ ltac:(vm_compute; reflexivity) 1%nat _ ltac:(vm_compute; reflexivity)).
Defined.

Lemma V2_ledger_witness :
  exists m,
    V2.computeScenario (rt := Ref.runtime) Examples.defaultScenario Examples.global "B"
    = Return m /\
    exists k : nat,
      (5 <= k)%nat /\ List.length (V2.Model.cashflows m) = S k /\
      List.length (V2.Model.annuals m) = k.
Proof.
  eexists. split.
  - vm_compute. reflexivity.
  - destruct (V2_ledger (rt := Ref.runtime) Examples.defaultScenario Examples.global "B" _
                ltac:(vm_compute; reflexivity))
      as (k & Hk & _ & Hc & Ha & _).
    exists k. auto.
Defined.

(** ** Which lifetimes the second program accepts *)

Section LifetimeProperties.
Context {rt : JSRuntime}.

(** The value of [Math.round(v)]: the floor of [v + 1/2]. *)
Lemma Math_round_value (v : float) :
  is_finite v = true ->
  value_of (Math_round v) = ((2 * value_of v + 2 ^ 1074) / 2 ^ 1075 * 2 ^ 1074)%Z.
Proof.
  intros Fv. unfold Math_round, value_of.
  pose proof (Prim2SF_valid v) as Vv.
  assert (P : (0 < 2 ^ 1074)%Z) by (apply pow2_pos; lia).
  assert (P5 : (2 ^ 1075 = 2 * 2 ^ 1074)%Z) by (now rewrite <- Z.pow_succ_r by lia).
  destruct (Prim2SF v) as [s|s| |s m e] eqn:E.
  - rewrite E. cbn [val]. rewrite Z.mul_0_r, Z.add_0_l, Z.div_small; lia.
  - rewrite is_finite_spec, E in Fv. discriminate.
  - rewrite is_finite_spec, E in Fv. discriminate.
  - cbn [valid_binary] in Vv. pose proof (bounded_inv _ _ Vv) as (R & D & N).
    destruct (Z.leb_spec 0 e) as [Hpos|Hneg].
    + rewrite E. cbn [val]. rewrite Z.pow_add_r by lia.
      set (K := cond_Zopp s (Zpos m * 2 ^ e)).
      replace (cond_Zopp s (Zpos m * (2 ^ e * 2 ^ 1074))) with (K * 2 ^ 1074)%Z
        by (unfold K; destruct s; cbn [cond_Zopp]; ring).
      replace (2 * (K * 2 ^ 1074) + 2 ^ 1074)%Z with ((2 * K + 1) * 2 ^ 1074)%Z by ring.
      rewrite P5, Z.div_mul_cancel_r by lia.
      replace ((2 * K + 1) / 2)%Z with K; [reflexivity|].
      apply Z.div_unique with (r := 1%Z); lia.
    + assert (P1 : (0 < 2 ^ (e + 1074))%Z) by (apply pow2_pos; lia).
      assert (P2 : (0 < 2 ^ (- e))%Z) by (apply pow2_pos; lia).
      assert (H2 : (2 ^ (1 - e) = 2 * 2 ^ (- e))%Z).
      { replace (1 - e)%Z with (Z.succ (- e)) by lia. apply Z.pow_succ_r. lia. }
      assert (HP : (2 ^ (- e) * 2 ^ (e + 1074) = 2 ^ 1074)%Z).
      { rewrite <- Z.pow_add_r by lia. f_equal. lia. }
      set (z := ((cond_Zopp s (2 * Zpos m) + 2 ^ (- e)) / 2 ^ (1 - e))%Z).
      assert (Hform : ((2 * cond_Zopp s (Zpos m * 2 ^ (e + 1074)) + 2 ^ 1074) / 2 ^ 1075
                       = z)%Z).
      { unfold z.
        replace (2 * cond_Zopp s (Zpos m * 2 ^ (e + 1074)) + 2 ^ 1074)%Z
          with ((cond_Zopp s (2 * Zpos m) + 2 ^ (- e)) * 2 ^ (e + 1074))%Z
          by (rewrite <- HP; destruct s; cbn [cond_Zopp]; ring).
        replace (2 ^ 1075)%Z with (2 ^ (1 - e) * 2 ^ (e + 1074))%Z
          by (rewrite H2, P5, <- HP; ring).
        apply Z.div_mul_cancel_r; lia. }
      cbn [val]. rewrite Hform.
      assert (Hz : (Z.abs z < 2 ^ 53)%Z).
      { destruct (digits2_bounds m) as [_ U].
        assert (Hm : (Zpos m < 2 ^ 53)%Z).
        { eapply Z.lt_le_trans; [exact U|]. apply pow2_le. lia. }
        assert (Hden : (2 <= 2 ^ (- e))%Z).
        { change 2%Z with (2 ^ 1)%Z at 1. apply pow2_le. lia. }
        assert (Hup : (z < 2 ^ 53)%Z).
        { unfold z. apply Z.div_lt_upper_bound; [lia|]. rewrite H2.
          destruct s; cbn [cond_Zopp]; nia. }
        assert (Hlo : (- 2 ^ 53 < z)%Z).
        { unfold z. apply Z.lt_le_trans with (- 2 ^ 53 + 1)%Z; [lia|].
          apply Z.div_le_lower_bound; [lia|]. rewrite H2.
          destruct s; cbn [cond_Zopp]; nia. }
        lia. }
      destruct z as [|p|p] eqn:Ez.
      * now destruct s.
      * fold (value_of (Z2F (Zpos p))). now destruct (Z2F_value (Zpos p) Hz).
      * fold (value_of (Z2F (Zneg p))). now destruct (Z2F_value (Zneg p) Hz).
Qed.

(** [new Array(years + 1)] for the lifetime [years] of the second program. *)
Lemma lifetime_array (lifeYears : float) :
  if lifeYears <? 4294967294.5
  then exists len, new_Array (Math_max 5 (Math_round lifeYears) + 1) = Return len
  else new_Array (Math_max 5 (Math_round lifeYears) + 1)
       = Throw "RangeError: Invalid array length".
Proof.
  assert (Hthrow : forall x, (forall len, new_Array x <> Return len) ->
                             new_Array x = Throw "RangeError: Invalid array length").
  { intros x H. unfold new_Array in *.
    destruct (is_finite x && (0 <=? x) && (x <=? 4294967295) && (Z2F (F2Z x) =? x));
      [now destruct (H _ eq_refl)|reflexivity]. }
  assert (P : (0 < 2 ^ 1074)%Z) by (apply pow2_pos; lia).
  assert (P3 : (0 < 2 ^ 1073)%Z) by (apply pow2_pos; lia).
  assert (P4 : (2 ^ 1074 = 2 * 2 ^ 1073)%Z) by (now rewrite <- Z.pow_succ_r by lia).
  assert (P5 : (2 ^ 1075 = 2 * 2 ^ 1074)%Z) by (now rewrite <- Z.pow_succ_r by lia).
  destruct (is_finite lifeYears) eqn:Fl.
  - set (V := value_of lifeYears).
    assert (C : value_of 4294967294.5 = (8589934589 * 2 ^ 1073)%Z) by (vm_compute; reflexivity).
    rewrite ltb_value, C by auto. fold V.
    pose proof (Math_round_integral lifeYears Fl) as Ir.
    pose proof (Math_round_value lifeYears Fl) as Vr. fold V in Vr.
    set (z := ((2 * V + 2 ^ 1074) / 2 ^ 1075)%Z) in Vr.
    assert (F5 : is_finite 5 = true) by reflexivity.
    assert (V5 : value_of 5 = (5 * 2 ^ 1074)%Z) by (vm_compute; reflexivity).
    destruct (Math_max_finite 5 _ F5 (proj1 Ir)) as [Hm Vm]. rewrite Vr, V5 in Vm.
    destruct (Z.ltb_spec V (8589934589 * 2 ^ 1073)) as [Hlt|Hge].
    + assert (Hz : (z <= 4294967294)%Z).
      { apply Z.lt_succ_r. unfold z. apply Z.div_lt_upper_bound; lia. }
      assert (Iy : integral (Math_max 5 (Math_round lifeYears))).
      { destruct Hm as [-> | ->]; [|exact Ir].
        apply (Z2F_integral 5). vm_compute. reflexivity. }
      destruct (integral_range _ 5 4294967294 ltac:(lia) ltac:(lia) Iy) as (k & Hk & Ek).
      { change (Z2F 5) with 5. rewrite V5, Vm.
        destruct (Z2F_value 4294967294 ltac:(lia)) as [_ ->]. nia. }
      rewrite Ek. change 1 with (Z2F 1) at 1. rewrite Z2F_add by lia.
      destruct (Z2F_value (k + 1) ltac:(lia)) as [Fs Vs].
      unfold new_Array. rewrite Fs, F2Z_Z2F by lia.
      rewrite !leb_value, eqb_value by auto. rewrite Vs, Z.eqb_refl.
      change (value_of 0) with 0%Z.
      change (value_of 4294967295) with (val (Prim2SF (Z2F 4294967295))).
      fold (value_of (Z2F 4294967295)).
      destruct (Z2F_value 4294967295 ltac:(lia)) as [_ ->].
      destruct (Z.leb_spec 0 ((k + 1) * 2 ^ 1074)); [|nia].
      destruct (Z.leb_spec ((k + 1) * 2 ^ 1074) (4294967295 * 2 ^ 1074)); [|nia].
      cbn [andb]. eauto.
    + apply Hthrow. intros len E.
      destruct (years_range _ _ E) as (k & _ & Ek & _ & _ & Hb & _).
      rewrite Ek in Vm. destruct (Z2F_value (Z.of_nat k) ltac:(lia)) as [_ Vk].
      rewrite Vk in Vm.
      assert (Hz : (4294967295 <= z)%Z).
      { unfold z. apply Z.div_le_lower_bound; lia. }
      nia.
  - destruct (not_finite_cases _ Fl) as [-> | [-> | ->]].
    + reflexivity.
    + reflexivity.
    + exists 6%nat. reflexivity.
Qed.

(** X16: the scenario computation of the second program returns a model
    exactly for the lifetimes below 4294967294.5, [-Infinity] included
    (lifetimes under 5 count as 5); for every other lifetime, NaN and
    [Infinity] included, it throws the [RangeError] of [new Array].  The
    variant drawing [Math.random] accepts the same lifetimes. *)
Theorem lifetimes_accepted (s : V2.Scenario) (global : V2.Global) (seedTag : string)
    (random : nat -> float) (global3 : V3.Global) :
  if V2.lifeYears s <? 4294967294.5
  then (exists m, V2.computeScenario s global seedTag = Return m) /\
       (exists m, V3.computeScenario random s global3 = Return m)
  else V2.computeScenario s global seedTag = Throw "RangeError: Invalid array length" /\
       V3.computeScenario random s global3 = Throw "RangeError: Invalid array length".
Proof.
  pose proof (lifetime_array (V2.lifeYears s)) as H.
  unfold V2.computeScenario, V3.computeScenario.
  destruct (V2.applyIncentives _ _ _ _ _ _) as [capexNeto taxBenefitAnnual].
  destruct (V2.lifeYears s <? 4294967294.5).
  - destruct H as [len ->]. cbn [bind]. split; eexists; reflexivity.
  - rewrite H. split; reflexivity.
Qed.

End LifetimeProperties.

(** ** The stable noise *)

Lemma In_Z_seq (count : nat) :
  forall start z : Z,
    (start <= z < start + Z.of_nat count)%Z -> In z (Z_seq start count).
Proof.
  induction count as [|count IH]; intros start z H; cbn [Z_seq].
  - lia.
  - destruct (Z.eq_dec start z) as [->|Hne]; [now left|].
    right. apply IH. lia.
Qed.

(** The quotients [r / 100000] for the remainders [r] of a division by
    100000, checked one by one. *)
Lemma noise_quotients :
  forallb (fun r => (0 <=? Z2F r / 100000) && (Z2F r / 100000 <? 1))
          (Z_seq 0 (Z.to_nat 100000)) = true.
Proof. vm_compute. reflexivity. Qed.

(** X17: for every seed text, [stableNoise01] is a number from 0 (included)
    to 1 (excluded): a remainder of the division of the hash by 100000,
    over 100000. *)
Theorem stableNoise01_range (seedStr : string) :
  (0 <=? V2.stableNoise01 seedStr) = true /\
  (V2.stableNoise01 seedStr <? 1) = true /\
  exists r : Z, (0 <= r < 100000)%Z /\ V2.stableNoise01 seedStr = Z2F r / 100000.
Proof.
  unfold V2.stableNoise01.
  set (r := (V2.noise_loop 2166136261 seedStr mod 100000)%Z).
  assert (Hr : (0 <= r < 100000)%Z) by (apply Z.mod_pos_bound; lia).
  pose proof noise_quotients as H. rewrite forallb_forall in H.
  specialize (H r). rewrite andb_true_iff in H.
  destruct H as [H1 H2].
  { apply In_Z_seq. rewrite Z2Nat.id; lia. }
  repeat split; try assumption. now exists r.
Qed.

(** ** The model of [SmartEnergyROIApp.jsx] *)

Section FirstModel.
Context {rt : JSRuntime}.

(** Comparisons of a number that is not negative with 0. *)
Lemma nonneg_compare (x : float) :
  nonneg x -> (0 <=? x) = true /\ (0 <? x) = negb (x =? 0).
Proof.
  unfold nonneg. rewrite FloatAxioms.leb_spec, FloatAxioms.ltb_spec, FloatAxioms.eqb_spec.
  change (Prim2SF 0) with (S754_zero false).
  destruct (Prim2SF x) as [s|[|]| |[|] m e]; try discriminate; auto.
Qed.

(** X18: for every content of the form the net capital cost of the model is
    a number that is not negative, and the first-year return is [null]
    exactly when it is 0; otherwise it is the net cash flow of year 1 over
    the net capital cost. *)
Theorem roi1_null_iff_no_capital_cost (s : V1.Scenario.t) :
  exists m row1,
    V1.computeScenarioModel s = Return m /\
    nth_error (V1.Model.rows m) 1 = Some row1 /\
    (0 <=? V1.Model.capexNeto m) = true /\
    V1.Model.roi1 m
    = if V1.Model.capexNeto m =? 0 then None
      else Some (V1.Row.neto row1 / V1.Model.capexNeto m).
Proof.
  destruct (V1_roi1_guarded s) as (m & row1 & Hm & Hrow & Hroi).
  exists m, row1. split; [exact Hm|]. split; [exact Hrow|].
  assert (Hc : nonneg (V1.Model.capexNeto m)).
  { revert Hm. unfold V1.computeScenarioModel.
    destruct (V1.beneficioDeduccionRentaPorAno _ _ _ _ _ _); cbn [bind]; [|discriminate].
    intros H. injection H as <-. cbn [V1.Model.capexNeto].
    apply calcularCapexNeto_nonneg. }
  destruct (nonneg_compare _ Hc) as [H0 Hlt]. split; [exact H0|].
  rewrite Hroi, Hlt. now destruct (V1.Model.capexNeto m =? 0).
Qed.

Lemma rows_loop_nth (i : V1.Inputs) (count : nat) :
  forall y cum j row,
    nth_error (V1.rows_loop i count y cum) j = Some row ->
    exists cum', row = V1.row_for i (y + Z.of_nat j) cum'.
Proof.
  induction count as [|count IH]; intros y cum j row H; cbn [V1.rows_loop] in H.
  - now destruct j.
  - destruct j as [|j]; cbn [nth_error] in H.
    + injection H as <-. exists cum. now rewrite Z.add_0_r.
    + apply IH in H. destruct H as [cum' ->]. exists cum'. f_equal. lia.
Qed.

(** X19: in the ledger of the model, every row after year 0 has as net cash
    flow its savings minus its operating cost plus its tax benefit; the tax
    benefit is 0 in every year after the deduction window (an integer from 1
    to 15), and in every year when the incentive has no income-tax
    deduction. *)
Theorem ledger_tax_benefit (s : V1.Scenario.t) :
  exists (m : V1.Model.t) (a : Z),
    V1.computeScenarioModel s = Return m /\
    (1 <= a <= 15)%Z /\
    V1.clamp (V1.int (V1.Scenario.anosDeduccionRenta s) 5) 1 15 = Z2F a /\
    forall (y : nat) row,
      nth_error (V1.Model.rows m) y = Some row -> (0 < y)%nat ->
      V1.Row.neto row = V1.Row.ahorro row - V1.Row.om row + V1.Row.incentivoRenta row /\
      ((a < Z.of_nat y)%Z -> V1.Row.incentivoRenta row = 0) /\
      (V1.aplicaDeduccionRenta (V1.find_incentivo (V1.Scenario.incentivoId s)) = false ->
       V1.Row.incentivoRenta row = 0).
Proof.
  unfold V1.computeScenarioModel.
  destruct (vida_range (V1.Scenario.vida s)) as (k & Hk & Ek). rewrite Ek.
  set (inc := V1.find_incentivo (V1.Scenario.incentivoId s)).
  set (capexNeto := V1.calcularCapexNeto _ _ _ _ _).
  destruct (deduction_zero_after_window_aux capexNeto k (V1.aplicaDeduccionRenta inc)
              (V1.Scenario.anosDeduccionRenta s) (V1.Scenario.ingresoGravableAnual s)
              (V1.Scenario.tasaImpuestoRenta s) Hk)
    as (a & out & Ha & Ea & -> & Hlen & Hzero & Hoff).
  cbn [bind]. destruct (lifetime_facts k Hk) as (-> & _).
  eexists. exists a. split; [reflexivity|]. split; [exact Ha|]. split; [exact Ea|].
  cbn [V1.Model.rows]. intros y row Hrow Hy.
  assert (Hyk : (y < S (Z.to_nat k))%nat).
  { erewrite <- rows_loop_length. apply nth_error_Some. rewrite Hrow. discriminate. }
  apply rows_loop_nth in Hrow. destruct Hrow as [cum' ->].
  unfold V1.row_for. destruct (Z.eqb_spec (0 + Z.of_nat y) 0) as [H0|_]; [lia|].
  cbn [V1.Row.neto V1.Row.ahorro V1.Row.om V1.Row.incentivoRenta V1.in_beneficiosRenta].
  split; [reflexivity|]. unfold V1.benefit_or_0. split.
  - intros Hay. rewrite (Hzero (0 + Z.of_nat y)%Z) by lia. reflexivity.
  - intros Hno. rewrite (Hoff Hno (0 + Z.of_nat y)%Z) by lia. reflexivity.
Qed.

End FirstModel.

(** ** The share of exports and the series of the variant with random noise *)

Section ShareAndSeries.
Context {rt : JSRuntime}.

(** X20: the share of the first-year income that comes from exports, when
    it is a number, lies between 0 and 1; it is NaN only when the quotient
    of the export revenue by the savings is. *)
Theorem exportShareY1_between_0_and_1 (s : V2.Scenario) (global : V2.Global)
    (seedTag : string) (m : V2.Model.t) :
  V2.computeScenario s global seedTag = Return m ->
  is_nan (V2.Model.exportShareY1 m) = false ->
  (0 <=? V2.Model.exportShareY1 m) = true /\ (V2.Model.exportShareY1 m <=? 1) = true.
Proof.
  unfold V2.computeScenario.
  destruct (V2.applyIncentives _ _ _ _ _ _) as [capexNeto taxBenefitAnnual].
  destruct (new_Array _) as [len|e]; cbn [bind]; [|discriminate].
  intros H. injection H as <-. cbn [V2.Model.exportShareY1].
  destruct (V2.st_annuals _) as [|y1 rest]; [split; reflexivity|].
  destruct (0 <? V2.Annual.savings y1); [|split; reflexivity].
  rewrite V2_clamp_eq. set (q := V2.Annual.revenueExp y1 / V2.Annual.savings y1).
  destruct (clamp_cases q 0 1 eq_refl eq_refl eq_refl) as [Hin Hnan].
  intros Hq. apply Hin. destruct (is_nan q); [|reflexivity].
  rewrite (Hnan eq_refl) in Hq. discriminate.
Qed.

Lemma V3_year_loop_length (step : Z -> V3.LoopState -> V3.LoopState) :
  (forall y st, List.length (V3.st_cashflows (step y st)) = List.length (V3.st_cashflows st)) ->
  forall count y st,
    List.length (V3.st_cashflows (V3.year_loop step count y st))
    = List.length (V3.st_cashflows st).
Proof.
  intros Hstep. induction count as [|count IH]; intros y st; cbn [V3.year_loop].
  - reflexivity.
  - now rewrite IH, Hstep.
Qed.

Lemma V3_computeScenario_shape (random : nat -> float) (s : V2.Scenario)
    (global : V3.Global) (m : V3.Model.t) :
  V3.computeScenario random s global = Return m ->
  exists k : nat,
    (5 <= k)%nat /\ V3.Model.years m = Z2F (Z.of_nat k) /\
    List.length (V3.Model.cashflows m) = S k /\
    loop_count 0 (V3.Model.years m) = S k.
Proof.
  unfold V3.computeScenario.
  destruct (V2.applyIncentives _ _ _ _ _ _) as [capexNeto taxBenefitAnnual].
  destruct (new_Array _) as [len|e] eqn:E; cbn [bind]; [|discriminate].
  intros H. injection H as <-. cbn [V3.Model.years V3.Model.cashflows].
  destruct (years_range _ _ E) as (k & Hk & Ey & -> & Hc & _).
  exists k. rewrite Ey. split; [exact Hk|]. split; [reflexivity|]. split; [|exact Hc].
  rewrite V3_year_loop_length.
  - cbn [V3.st_cashflows]. now rewrite array_set_length, repeat_length.
  - intros y st. cbn [V3.year_step V3.st_cashflows]. apply array_set_length.
Qed.

(** X21: in the variant with random noise too, the comparison series has
    the lifetime of the active scenario plus 1 entries, whatever the
    lifetimes of the other two, and entry [y] of a scenario is its
    cumulative cash flow of year [y], or of its last year when [y] is beyond
    its lifetime. *)
Theorem V3_comparison_series (randomA randomB randomC : nat -> float)
    (sA sB sC : V2.Scenario) (global : V3.Global) (active : V2.Key)
    (mA mB mC : V3.Model.t) :
  V3.computeScenario randomA sA global = Return mA ->
  V3.computeScenario randomB sB global = Return mB ->
  V3.computeScenario randomC sC global = Return mC ->
  exists kA kB kC : nat,
    List.length (V3.Model.cashflows mA) = S kA /\
    List.length (V3.Model.cashflows mB) = S kB /\
    List.length (V3.Model.cashflows mC) = S kC /\
    List.length (V3.chartData mA mB mC active)
    = S (match active with V2.A => kA | V2.B => kB | V2.C => kC end) /\
    forall y p, nth_error (V3.chartData mA mB mC active) y = Some p ->
      V2.chart_year p = y /\
      V2.chart_A p = V2.cum_at (V3.Model.cashflows mA) (Nat.min y kA) /\
      V2.chart_B p = V2.cum_at (V3.Model.cashflows mB) (Nat.min y kB) /\
      V2.chart_C p = V2.cum_at (V3.Model.cashflows mC) (Nat.min y kC).
Proof.
  intros EA EB EC.
  destruct (V3_computeScenario_shape _ _ _ _ EA) as (kA & HkA & YA & LA & CA).
  destruct (V3_computeScenario_shape _ _ _ _ EB) as (kB & HkB & YB & LB & CB).
  destruct (V3_computeScenario_shape _ _ _ _ EC) as (kC & HkC & YC & LC & CC).
  exists kA, kB, kC. repeat (split; [assumption|]).
  unfold V3.chartData, V2.chartData_with. split.
  - rewrite length_map, length_seq. now destruct active.
  - intros y p Hp. apply map_seq_nth_error in Hp. subst p.
    cbn [Nat.add V2.chart_year V2.chart_A V2.chart_B V2.chart_C].
    split; [reflexivity|]. repeat split; apply cum_at_hold; auto; lia.
Qed.

End ShareAndSeries.

Lemma exportShareY1_between_0_and_1_witness :
  exists m,
    V2.computeScenario (rt := Ref.runtime) Examples.defaultScenario Examples.global "B"
    = Return m /\
    (0 <=? V2.Model.exportShareY1 m) = true /\ (V2.Model.exportShareY1 m <=? 1) = true.
Proof.
  eexists. split.
  - vm_compute. reflexivity.
  - apply (exportShareY1_between_0_and_1 (rt := Ref.runtime) Examples.defaultScenario
             Examples.global "B").
    + vm_compute. reflexivity.
    + vm_compute. reflexivity.
Defined.

Lemma V3_comparison_series_witness :
  exists mA mB mC,
    V3.computeScenario (rt := Ref.runtime) (fun _ => 0.25) (Examples.base 5 64727982 15)
      Examples.volatile = Return mA /\
    V3.computeScenario (rt := Ref.runtime) (fun _ => 0.5) (Examples.base 25 64727982 15)
      Examples.volatile = Return mB /\
    V3.computeScenario (rt := Ref.runtime) (fun _ => 0.75) (Examples.base 10 64727982 15)
      Examples.volatile = Return mC /\
    exists kA kB kC : nat,
      List.length (V3.Model.cashflows mA) = S kA /\
      List.length (V3.Model.cashflows mB) = S kB /\
      List.length (V3.Model.cashflows mC) = S kC /\
      List.length (V3.chartData mA mB mC V2.B) = S kB.
Proof.
  eexists _, _, _. split; [vm_compute; reflexivity|].
  split; [vm_compute; reflexivity|]. split; [vm_compute; reflexivity|].
  destruct (V3_comparison_series (rt := Ref.runtime)
              (fun _ => 0.25) (fun _ => 0.5) (fun _ => 0.75)
              (Examples.base 5 64727982 15) (Examples.base 25 64727982 15)
              (Examples.base 10 64727982 15) Examples.volatile V2.B _ _ _
              ltac:(vm_compute; reflexivity) ltac:(vm_compute; reflexivity)
              ltac:(vm_compute; reflexivity))
    as (kA & kB & kC & LA & LB & LC & Hlen & _).
  exists kA, kB, kC. auto.
Defined.

(** ** Payback and the comparison series *)

(** Numbers that are equal compare with 0 in the same way. *)
Lemma eqb_leb_zero (a b : float) : (a =? b) = true -> (0 <=? a) = (0 <=? b).
Proof.
  rewrite FloatAxioms.eqb_spec, !FloatAxioms.leb_spec.
  change (Prim2SF 0) with (S754_zero false).
  destruct (Prim2SF a) as [sa|sa| |sa ma ea], (Prim2SF b) as [sb|sb| |sb mb eb];
    try destruct sa; try destruct sb; cbn; auto; try discriminate.
Qed.

Lemma leb_zero_add_zero (x : float) : (0 <=? 0 + x) = (0 <=? x).
Proof.
  destruct (is_nan x) eqn:N.
  - rewrite is_nan_spec in N.
    assert (E : x = nan).
    { apply Prim2SF_inj. destruct (Prim2SF x); try discriminate. reflexivity. }
    now rewrite E.
  - apply eqb_leb_zero. now apply add_0_l_eqb.
Qed.

(** The entry of the series and the running total of [paybackYear] pass
    the test [>= 0] together. *)
Lemma cum_at_cumulative (cashflows : list float) (i : nat) :
  (i < List.length cashflows)%nat ->
  (0 <=? V2.cum_at cashflows i) = (0 <=? cumulative cashflows i).
Proof.
  intros Hi. unfold V2.cum_at, cumulative. destruct i as [|i].
  - destruct cashflows as [|c0 rest]; [cbn in Hi; lia|].
    cbn [nth firstn fold_left]. symmetry. apply leb_zero_add_zero.
  - now rewrite Nat.add_1_r.
Qed.

(** X23: the payback year is the first year whose entry in the comparison
    series of the second program is not negative; when [paybackYear] is
    [null], every entry of the scenario within its horizon is negative or
    NaN. *)
Theorem payback_is_first_nonnegative_entry (cashflows : list float) :
  match V2.paybackYear cashflows with
  | Some t =>
      (t < List.length cashflows)%nat /\
      (0 <=? V2.cum_at cashflows t) = true /\
      forall i, (i < t)%nat -> (0 <=? V2.cum_at cashflows i) = false
  | None =>
      forall i, (i < List.length cashflows)%nat -> (0 <=? V2.cum_at cashflows i) = false
  end.
Proof.
  change (V2.paybackYear cashflows) with (V1.paybackYear_from 0 0 cashflows).
  pose proof (paybackYear_from_spec cashflows 0 0) as H.
  destruct (V1.paybackYear_from 0 0 cashflows) as [r|].
  - destruct H as (j & -> & Hj & Hge & Hlt). cbn [Nat.add].
    split; [exact Hj|]. split.
    + rewrite cum_at_cumulative by assumption. exact Hge.
    + intros i Hi. rewrite cum_at_cumulative by lia. now apply Hlt.
  - intros i Hi. rewrite cum_at_cumulative by assumption. now apply H.
Qed.
